(** * Document collection file (package chunkfile): a shallow embedding

    The collection file of tiedot stores documents in one growable byte
    buffer.  A document's id is the offset of its slot; a slot is a validity
    byte, a ten byte field that holds the room as an unsigned varint, and
    [room] bytes of payload (document, then padding).

    The Go code is embedded as functions in a small state monad over the
    buffer.  Unsigned 64 bit arithmetic is written on [Z] with its wrap-around
    explicit, a byte is a [Z], a run-time panic (index or slice out of range)
    is an outcome of its own, and the state reached when it happened is kept. *)

From Stdlib Require Import ZArith List Lia Bool.
From Stdlib Require String.
Import ListNotations String.StringSyntax.
Delimit Scope string_scope with string.
Open Scope Z_scope.

(** ** Machine integers and Go's slices *)

Module Go.

Definition u64 (x : Z) : Z := x mod 2 ^ 64.
Definition u8 (x : Z) : Z := x mod 2 ^ 8.

(** [len(s)] as an unsigned 64 bit number. *)
Definition len {A} (s : list A) : Z := Z.of_nat (length s).

(** [low <= high <= cap] is what a slice expression [s[low:high]] needs. *)
Definition slice_ok {A} (s : list A) (low high : Z) : bool :=
  (0 <=? low) && (low <=? high) && (high <=? len s).

Definition index_ok {A} (s : list A) (i : Z) : bool :=
  (0 <=? i) && (i <? len s).

(** The elements [s[low:high]], for indices in range. *)
Definition sub {A} (s : list A) (low high : Z) : list A :=
  firstn (Z.to_nat (high - low)) (skipn (Z.to_nat low) s).

(** [s] with the elements from offset [at_] on replaced by those of [src]. *)
Definition splice {A} (s : list A) (at_ : Z) (src : list A) : list A :=
  firstn (Z.to_nat at_) s ++ src ++ skipn (Z.to_nat at_ + length src) s.

(** The builtin [copy(dst, src)]: the shorter of the two lengths is copied. *)
Definition copy {A} (dst src : list A) : list A :=
  firstn (length dst) src ++ skipn (length src) dst.

(** [make([]byte, n)] *)
Definition make (n : Z) : list Z := repeat 0 (Z.to_nat n).

End Go.

(** ** encoding/binary: unsigned varints *)

Module binary.

(** [binary.Uvarint]: the loop over [buf], with the value [x] assembled so
    far, the shift [s] and the index [i]. *)
Fixpoint Uvarint_from (buf : list Z) (x s i : Z) : Z * Z :=
  match buf with
  | [] => (0, 0)
  | b :: rest =>
      if b <? 128 then
        if (i >? 9) || ((i =? 9) && (b >? 1)) then (0, - (i + 1))
        else (Z.lor x (Go.u64 (Z.shiftl b s)), i + 1)
      else
        Uvarint_from rest (Z.lor x (Go.u64 (Z.shiftl (Z.land b 127) s)))
                     (s + 7) (i + 1)
  end.

Definition Uvarint (buf : list Z) : Z * Z := Uvarint_from buf 0 0 0.

(** [binary.PutUvarint]: the loop writes [buf[i]] for i = 0, 1, ... while
    [x >= 0x80], then the last byte.  [buf] is the part of the buffer from
    index [i] on; when it is empty, [buf[i]] is out of range.  The result is
    the buffer as written and the number of bytes, or no number after an
    index out of range. *)
Fixpoint PutUvarint_from (buf : list Z) (x i : Z) : list Z * option Z :=
  match buf with
  | [] => ([], None)
  | b :: rest =>
      if x >=? 128 then
        let '(rest', n) := PutUvarint_from rest (Z.shiftr x 7) (i + 1) in
        (Z.lor (Go.u8 x) 128 :: rest', n)
      else (Go.u8 x :: rest, Some (i + 1))
  end.

Definition PutUvarint (buf : list Z) (x : Z) : list Z * option Z :=
  PutUvarint_from buf x 0.

End binary.

(** ** commonfile: the growable buffer under the collection file *)

Module commonfile.

(** Modelled from the spec: the type commonfile.File is not part of the
    sources at hand.  The spec gives the buffer a name, the bytes, the
    allocated size and the used size; the size grows by a fixed increment,
    which is kept with the buffer. *)
Record File : Type := mkFile {
  Name : String.string;
  Buf : list Z;
  UsedSize : Z;
  Size : Z;
  Growth : Z
}.

Definition with_Buf (f : File) (b : list Z) : File :=
  mkFile (Name f) b (UsedSize f) (Size f) (Growth f).

Definition with_UsedSize (f : File) (u : Z) : File :=
  mkFile (Name f) (Buf f) u (Size f) (Growth f).

(** Modelled from the spec: commonfile's CheckSize is missing from the
    sources; it tells whether [more] bytes fit after the used ones. *)
Definition CheckSize (f : File) (more : Z) : bool :=
  UsedSize f + more <=? Size f.

(** The number of increments after which [more] bytes fit. *)
Definition increments (f : File) (more : Z) : Z :=
  (UsedSize f + more - Size f + Growth f - 1) / Growth f.

(** Modelled from the spec: commonfile's CheckSizeAndEnsure is missing from
    the sources.  It grows the size in fixed increments until
    [Size >= UsedSize + more]; the new bytes are zero.  The buffer's length
    is a Go int: a buffer that cannot grow, or not to that size, is a fatal
    error, which is [None] here. *)
Definition CheckSizeAndEnsure (f : File) (more : Z) : option File :=
  if UsedSize f + more <=? Size f then Some f
  else if Growth f <=? 0 then None
  else
    let extra := increments f more * Growth f in
    if Size f + extra <? 2 ^ 63
    then Some (mkFile (Name f) (Buf f ++ repeat 0 (Z.to_nat extra))
                      (UsedSize f) (Size f + extra) (Growth f))
    else None.

End commonfile.
Export commonfile.

(** ** The monad of the collection file's operations *)

Inductive outcome (A : Type) : Type :=
| Done (a : A)
| Panic
| OutOfFuel.
Arguments Done {A} a.
Arguments Panic {A}.
Arguments OutOfFuel {A}.

Definition M (A : Type) : Type := File -> outcome A * File.

Definition ret {A} (a : A) : M A := fun f => (Done a, f).

Definition bind {A B} (m : M A) (k : A -> M B) : M B :=
  fun f =>
    match m f with
    | (Done a, f') => k a f'
    | (Panic, f') => (Panic, f')
    | (OutOfFuel, f') => (OutOfFuel, f')
    end.

Declare Scope go_scope.
Delimit Scope go_scope with go.
Notation "x <- m ;; k" := (bind m (fun x => k))
  (at level 61, m at next level, right associativity) : go_scope.
Notation "m ;; k" := (bind m (fun _ => k))
  (at level 61, right associativity) : go_scope.
Open Scope go_scope.

Definition out_of_fuel {A} : M A := fun f => (OutOfFuel, f).
Definition file : M File := fun f => (Done f, f).

(** [col.File.Buf[i]] *)
Definition index (i : Z) : M Z :=
  fun f =>
    if Go.index_ok (Buf f) i then (Done (nth (Z.to_nat i) (Buf f) 0), f)
    else (Panic, f).

(** [col.File.Buf[i] = v] *)
Definition set_index (i v : Z) : M unit :=
  fun f =>
    if Go.index_ok (Buf f) i
    then (Done tt, with_Buf f (Go.splice (Buf f) i [v]))
    else (Panic, f).

(** [col.File.Buf[low:high]], read *)
Definition slice (low high : Z) : M (list Z) :=
  fun f =>
    if Go.slice_ok (Buf f) low high then (Done (Go.sub (Buf f) low high), f)
    else (Panic, f).

(** [g(col.File.Buf[low:high])] for a [g] that writes into the slice it is
    given: the slice shares its bytes with the buffer. *)
Definition on_slice (low high : Z) (g : list Z -> list Z) : M unit :=
  fun f =>
    if Go.slice_ok (Buf f) low high
    then (Done tt,
          with_Buf f (Go.splice (Buf f) low (g (Go.sub (Buf f) low high))))
    else (Panic, f).

(** [copy(col.File.Buf[low:high], src)] *)
Definition copy_to (low high : Z) (src : list Z) : M unit :=
  on_slice low high (fun dst => Go.copy dst src).

(** [binary.PutUvarint(col.File.Buf[low:high], x)] *)
Definition put_uvarint (low high x : Z) : M unit :=
  fun f =>
    if Go.slice_ok (Buf f) low high
    then
      let '(s, n) := binary.PutUvarint (Go.sub (Buf f) low high) x in
      (match n with Some _ => Done tt | None => Panic end,
       with_Buf f (Go.splice (Buf f) low s))
    else (Panic, f).

(** [s[low:high]] of a constant string *)
Definition string_slice (s : list Z) (low high : Z) : M (list Z) :=
  fun f =>
    if Go.slice_ok s low high then (Done (Go.sub s low high), f)
    else (Panic, f).

Definition set_UsedSize (u : Z) : M unit :=
  fun f => (Done tt, with_UsedSize f u).

Definition ensure (more : Z) : M unit :=
  fun f =>
    match CheckSizeAndEnsure f more with
    | Some f' => (Done tt, f')
    | None => (Panic, f)
    end.

(** ** chunkfile: the collection file *)

Module chunkfile.

Definition COL_FILE_SIZE : Z := 512 * 1024 * 1.
Definition DOC_MAX_ROOM : Z := 512 * 1024 * 1.
Definition DOC_HEADER_SIZE : Z := 1 + 10.
Definition DOC_VALID : Z := 1.
Definition DOC_INVALID : Z := 0.

(** The padding constant: eight string literals of 128 spaces each. *)
Definition PADDING : list Z := repeat 32 (8 * 128).
Definition LEN_PADDING : Z := Go.len PADDING.

(** The errors that Insert and Update make with [errors.New]. *)
Inductive error : Type :=
| ErrTooLarge                                   (* "Document is too large" *)
| ErrUpdatedTooLarge                    (* "Updated document is too large" *)
| ErrNotExist (id : Z) (name : String.string).
                                        (* "Document %d does not exist in %s" *)

(** What [tdlog.Errorf] is called with during a scan. *)
Inductive log_entry : Type :=
| LogCorrupted (addr : Z) (name : String.string)
| LogSkipped (addr : Z).

(** The bounds check that Read, Update, Delete and ForAll start with. *)
Definition out_of_bounds (f : File) (id : Z) : bool :=
  (UsedSize f <? DOC_HEADER_SIZE) || (id >=? Go.u64 (UsedSize f - DOC_HEADER_SIZE)).

(** Retrieve document data given its ID; [None] is Go's nil. *)
Definition Read (id : Z) : M (option (list Z)) :=
  f <- file ;;
  if out_of_bounds f id then ret None
  else
    v <- index id ;;
    if negb (v =? DOC_VALID) then ret None
    else
      hdr <- slice (Go.u64 (id + 1)) (Go.u64 (id + 11)) ;;
      let room := fst (binary.Uvarint hdr) in
      if room >? DOC_MAX_ROOM then ret None
      else
        let docCopy := Go.make room in
        let docEnd := Go.u64 (id + DOC_HEADER_SIZE + room) in
        if docEnd >=? Size f then ret None
        else
          src <- slice (Go.u64 (id + DOC_HEADER_SIZE)) docEnd ;;
          ret (Some (Go.copy docCopy src)).

(** The padding loop of Insert and Update, from [segBegin] on. *)
Fixpoint fill_padding (fuel : nat) (segBegin paddingEnd : Z) : M unit :=
  match fuel with
  | O => out_of_fuel
  | S k =>
      if segBegin <? paddingEnd then
        let segSize := LEN_PADDING in
        let segEnd := Go.u64 (segBegin + LEN_PADDING) in
        let '(segEnd, segSize) :=
          if segEnd >=? paddingEnd
          then (paddingEnd, Go.u64 (paddingEnd - segBegin))
          else (segEnd, segSize) in
        pad <- string_slice PADDING 0 segSize ;;
        copy_to segBegin segEnd pad ;;
        fill_padding k (Go.u64 (segBegin + LEN_PADDING)) paddingEnd
      else ret tt
  end.

(** Every round moves [segBegin] forward by [LEN_PADDING]: this many rounds
    reach [paddingEnd]. *)
Definition padding_fuel (paddingBegin paddingEnd : Z) : nat :=
  S (S (Z.to_nat ((paddingEnd - paddingBegin) / LEN_PADDING))).

(** Insert a document, return its ID. *)
Definition Insert (data : list Z) : M (Z * option error) :=
  let len64 := Go.u64 (Go.len data) in
  let room := Go.u64 (len64 + len64) in
  if room >? DOC_MAX_ROOM then ret (0, Some ErrTooLarge)
  else
    f <- file ;;
    let id := UsedSize f in
    (if negb (CheckSize f (Go.u64 (DOC_HEADER_SIZE + room)))
     then ensure (Go.u64 (DOC_HEADER_SIZE + room)) else ret tt) ;;
    set_UsedSize (Go.u64 (id + DOC_HEADER_SIZE + room)) ;;
    set_index id 1 ;;
    put_uvarint (Go.u64 (id + 1)) (Go.u64 (id + DOC_HEADER_SIZE)) room ;;
    let paddingBegin := Go.u64 (id + DOC_HEADER_SIZE + len64) in
    copy_to (Go.u64 (id + DOC_HEADER_SIZE)) paddingBegin data ;;
    let paddingEnd := Go.u64 (id + DOC_HEADER_SIZE + room) in
    fill_padding (padding_fuel paddingBegin paddingEnd)
                 paddingBegin paddingEnd ;;
    ret (id, None).

(** Delete a document. *)
Definition Delete (id : Z) : M unit :=
  f <- file ;;
  if out_of_bounds f id then ret tt
  else
    v <- index id ;;
    if v =? DOC_VALID then set_index id DOC_INVALID else ret tt.

(** Update a document, return its new ID. *)
Definition Update (id : Z) (data : list Z) : M (Z * option error) :=
  let len64 := Go.u64 (Go.len data) in
  if len64 >? DOC_MAX_ROOM then ret (0, Some ErrUpdatedTooLarge)
  else
    f <- file ;;
    if out_of_bounds f id then ret (0, Some (ErrNotExist id (Name f)))
    else
      v <- index id ;;
      if negb (v =? DOC_VALID) then ret (0, Some (ErrNotExist id (Name f)))
      else
        hdr <- slice (Go.u64 (id + 1)) (Go.u64 (id + 11)) ;;
        let room := fst (binary.Uvarint hdr) in
        if (room >? DOC_MAX_ROOM) || (Go.u64 (id + room) >=? UsedSize f)
        then ret (0, Some (ErrNotExist id (Name f)))
        else
          if len64 <=? room then
            let paddingBegin := Go.u64 (id + DOC_HEADER_SIZE + len64) in
            copy_to (Go.u64 (id + DOC_HEADER_SIZE)) paddingBegin data ;;
            let paddingEnd := Go.u64 (id + DOC_HEADER_SIZE + room) in
            fill_padding (padding_fuel paddingBegin paddingEnd)
                         paddingBegin paddingEnd ;;
            ret (id, None)
          else
            Delete id ;;
            Insert data.

(** The inner loop of ForAll, entered after its [addr++]: move forward until
    a byte that is a validity flag, or the end of the scan. *)
Fixpoint resync (fuel : nat) (addr : Z) : M Z :=
  match fuel with
  | O => out_of_fuel
  | S k =>
      b <- index addr ;;
      f <- file ;;
      if negb (b =? DOC_VALID) && negb (b =? DOC_INVALID)
         && (addr <? Go.u64 (UsedSize f - DOC_HEADER_SIZE))
      then resync k (Go.u64 (addr + 1))
      else ret addr
  end.

Section ForAll.

(** The visitor is a closure: [V] is what it keeps between calls. *)
Context {V : Type} (visit : V -> Z -> list Z -> bool * V).

(** The scan of ForAll from [addr] on; it gives the visitor's last state and
    the log. *)
Fixpoint ForAll_from (fuel : nat) (addr : Z) (v : V) (log : list log_entry)
  : M (V * list log_entry) :=
  match fuel with
  | O => out_of_fuel
  | S k =>
      f <- file ;;
      if out_of_bounds f addr then ret (v, log)
      else
        validity <- index addr ;;
        hdr <- slice (Go.u64 (addr + 1)) (Go.u64 (addr + 11)) ;;
        let room := fst (binary.Uvarint hdr) in
        if (negb (validity =? DOC_VALID) && negb (validity =? DOC_INVALID))
           || (room >? DOC_MAX_ROOM)
        then
          let log := log ++ [LogCorrupted addr (Name f)] in
          addr' <- resync (S (Z.to_nat (UsedSize f))) (Go.u64 (addr + 1)) ;;
          let log := log ++ [LogSkipped addr'] in
          ForAll_from k addr' v log
        else
          if validity =? DOC_VALID then
            doc <- slice (Go.u64 (addr + DOC_HEADER_SIZE))
                         (Go.u64 (addr + DOC_HEADER_SIZE + room)) ;;
            let '(continue, v') := visit v addr doc in
            if negb continue then ret (v', log)
            else ForAll_from k (Go.u64 (addr + DOC_HEADER_SIZE + room)) v' log
          else ForAll_from k (Go.u64 (addr + DOC_HEADER_SIZE + room)) v log
  end.

(** Scan the entire data file.  Every round moves [addr] forward, so
    [UsedSize] rounds and one for the last test are enough. *)
Definition ForAll (v : V) : M (V * list log_entry) :=
  fun f => ForAll_from (S (Z.to_nat (UsedSize f))) 0 v [] f.

End ForAll.

End chunkfile.
Export chunkfile.

(** ** Small stores to run the code on *)

Definition fresh (size growth : Z) : File :=
  mkFile "col"%string (repeat 0 (Z.to_nat size)) 0 size growth.

Definition collect (v : list (Z * list Z)) (id : Z) (doc : list Z)
  : bool * list (Z * list Z) := (true, v ++ [(id, doc)]).

Definition doc_a : list Z := [97].
Definition doc_b : list Z := [98].
Definition doc_bcd : list Z := [98; 99; 100].

(** A document above half of DOC_MAX_ROOM. *)
Definition big_doc : list Z := repeat 120 (Z.to_nat 262145).

(** One document in a store of 64 bytes, and in one of 13 bytes, which the
    slot fills. *)
Definition store_a : File := snd (Insert doc_a (fresh 64 COL_FILE_SIZE)).
Definition tight_a : File := snd (Insert doc_a (fresh 13 COL_FILE_SIZE)).

(** A store whose only header claims a room that runs past UsedSize. *)
Definition long_room : File :=
  mkFile "col"%string ([1; 30] ++ repeat 0 62) 20 64 COL_FILE_SIZE.

(** Four documents in a row, and the same store after the header of the
    second slot (at 13) was overwritten: the validity byte and the first two
    bytes of the room field. *)
Definition four_docs : File :=
  snd (Insert [100] (snd (Insert [99] (snd (Insert doc_b store_a))))).

Definition damaged : File :=
  with_Buf four_docs (Go.splice (Buf four_docs) 13 [7; 0; 13]).

(** The same slot with its eleven header bytes overwritten by 255. *)
Definition blanked : File :=
  with_Buf four_docs (Go.splice (Buf four_docs) 13 (repeat 255 11)).

(** ** Stores and slots *)

Module Layout.
Import Go binary.

(** A store as the buffer hands it out: [Buf] is [Size] bytes long, the used
    part lies in it, and the length is a Go int. *)
Definition wf (f : File) : Prop :=
  len (Buf f) = Size f /\ 0 <= UsedSize f <= Size f /\ Size f < 2 ^ 63.

(** The header's room field, decoded. *)
Definition room_at (f : File) (id : Z) : Z :=
  fst (Uvarint (sub (Buf f) (id + 1) (id + 11))).

Definition byte_at (f : File) (id : Z) : Z := nth (Z.to_nat id) (Buf f) 0.

(** The payload of the slot at [id]: the [room] bytes after the header. *)
Definition payload (f : File) (id room : Z) : list Z :=
  sub (Buf f) (id + DOC_HEADER_SIZE) (id + DOC_HEADER_SIZE + room).

(** A currently valid slot of capacity [room] at [id]: the id passes the
    bounds check, the validity byte is [DOC_VALID], the header holds [room],
    and the slot lies in the used part of the buffer. *)
Definition valid_slot (f : File) (id room : Z) : Prop :=
  0 <= id /\ DOC_HEADER_SIZE <= UsedSize f
  /\ id < UsedSize f - DOC_HEADER_SIZE
  /\ byte_at f id = DOC_VALID
  /\ room_at f id = room /\ room <= DOC_MAX_ROOM
  /\ id + DOC_HEADER_SIZE + room <= UsedSize f.

(** The decision Read takes, as a function of the store. *)
Definition read_result (f : File) (id : Z) : option (list Z) :=
  if out_of_bounds f id then None
  else if negb (byte_at f id =? DOC_VALID) then None
  else if room_at f id >? DOC_MAX_ROOM then None
  else if id + DOC_HEADER_SIZE + room_at f id >=? Size f then None
  else Some (payload f id (room_at f id)).

(** What Delete leaves behind. *)
Definition deleted (f : File) (id : Z) : File :=
  if out_of_bounds f id then f
  else if byte_at f id =? DOC_VALID
       then with_Buf f (splice (Buf f) id [DOC_INVALID])
       else f.

(** The header's room field as Insert writes it over the ten bytes that
    were there. *)
Definition room_field (g : File) (room : Z) : list Z :=
  fst (PutUvarint (sub (Buf g) (UsedSize g + 1) (UsedSize g + 11)) room).

(** The bytes of a new slot: validity, room, document, padding. *)
Definition slot_bytes (g : File) (data : list Z) : list Z :=
  (DOC_VALID :: room_field g (2 * len data))
  ++ data ++ repeat 32 (length data).

(** The store after Insert, [g] being the store with room for the slot. *)
Definition inserted (g : File) (data : list Z) : File :=
  mkFile (Name g) (splice (Buf g) (UsedSize g) (slot_bytes g data))
         (UsedSize g + DOC_HEADER_SIZE + 2 * len data) (Size g) (Growth g).

(** The conditions under which Update reports that a document does not
    exist. *)
Definition update_absent (f : File) (id : Z) : Prop :=
  out_of_bounds f id = true \/ byte_at f id <> DOC_VALID
  \/ room_at f id > DOC_MAX_ROOM \/ id + room_at f id >= UsedSize f.

(** The in-place branch of Update: document, then padding. *)
Definition overwrite (id : Z) (data : list Z) (room : Z)
  : M (Z * option error) :=
  let len64 := Go.len data in
  let paddingBegin := id + DOC_HEADER_SIZE + len64 in
  copy_to (id + DOC_HEADER_SIZE) paddingBegin data ;;
  let paddingEnd := id + DOC_HEADER_SIZE + room in
  fill_padding (padding_fuel paddingBegin paddingEnd)
               paddingBegin paddingEnd ;;
  ret (id, None).

(** The store after an update in place. *)
Definition overwritten (f : File) (id : Z) (data : list Z) (room : Z)
  : File :=
  with_Buf f (Go.splice (Buf f) (id + DOC_HEADER_SIZE)
                        (data ++ repeat 32 (Z.to_nat (room - Go.len data)))).

(** The operations that change a store, and a run of them.  A panic ends
    an operation where it stands; the store is as the panic left it. *)
Inductive op : Type :=
| OpInsert (data : list Z)
| OpUpdate (id : Z) (data : list Z)
| OpDelete (id : Z).

Definition exec (o : op) (f : File) : File :=
  match o with
  | OpInsert data => snd (Insert data f)
  | OpUpdate id data => snd (Update id data f)
  | OpDelete id => snd (Delete id f)
  end.

Definition run (ops : list op) (f : File) : File :=
  fold_left (fun f o => exec o f) ops f.

(** The length of a Go slice is an int. *)
Definition op_ok (o : op) : Prop :=
  match o with
  | OpInsert data => Go.len data < 2 ^ 63
  | OpUpdate _ data => Go.len data < 2 ^ 63
  | OpDelete _ => True
  end.

(** The visitor's state after the calls [vs], in this order. *)
Definition visit_all {V} (visit : V -> Z -> list Z -> bool * V)
           (v : V) (vs : list (Z * list Z)) : V :=
  fold_left (fun v c => snd (visit v (fst c) (snd c))) vs v.

(** A byte that may be a validity flag. *)
Definition flag (b : Z) : Prop := b = DOC_VALID \/ b = DOC_INVALID.

(** A header that ForAll takes for corrupted. *)
Definition unsound (f : File) (a : Z) : Prop :=
  (byte_at f a <> DOC_VALID /\ byte_at f a <> DOC_INVALID)
  \/ room_at f a > DOC_MAX_ROOM.

(** [slots f k a vs b]: from [a] on the store holds [k] slots with sound
    headers, one after the other up to [b]; [vs] are the valid ones among
    them, each with its id and payload. *)
Inductive slots (f : File) : nat -> Z -> list (Z * list Z) -> Z -> Prop :=
| slots_end a : slots f 0 a [] a
| slots_valid k a room doc vs b :
    out_of_bounds f a = false ->
    byte_at f a = DOC_VALID ->
    room_at f a = room -> room <= DOC_MAX_ROOM ->
    a + DOC_HEADER_SIZE + room <= Size f ->
    payload f a room = doc ->
    slots f k (a + DOC_HEADER_SIZE + room) vs b ->
    slots f (S k) a ((a, doc) :: vs) b
| slots_invalid k a room vs b :
    out_of_bounds f a = false ->
    byte_at f a = DOC_INVALID ->
    room_at f a = room -> room <= DOC_MAX_ROOM ->
    slots f k (a + DOC_HEADER_SIZE + room) vs b ->
    slots f (S k) a vs b.

(** A computation that keeps the store well formed and UsedSize as it is,
    and one under which UsedSize does not go down; both whatever the outcome,
    a panic too. *)
Definition steady {A} (m : M A) : Prop :=
  forall f, wf f -> wf (snd (m f)) /\ UsedSize (snd (m f)) = UsedSize f.

Definition growing {A} (m : M A) : Prop :=
  forall f, wf f -> wf (snd (m f)) /\ UsedSize f <= UsedSize (snd (m f)).

End Layout.
Export Layout.

(** ** Stores side by side, and what a scan meets *)

Module Frames.
Import Go binary.

(** The two stores hold the same bytes from [low] up to [high]. *)
Definition same_bytes (f f' : File) (low high : Z) : Prop :=
  forall i, low <= i < high -> byte_at f' i = byte_at f i.

(** The visitor asks for more after each of the calls [vs]. *)
Fixpoint goes_through {V} (visit : V -> Z -> list Z -> bool * V)
         (v : V) (vs : list (Z * list Z)) : bool :=
  match vs with
  | [] => true
  | c :: rest =>
      fst (visit v (fst c) (snd c))
      && goes_through visit (snd (visit v (fst c) (snd c))) rest
  end.

(** A document as it lies in its slot: followed by as many spaces as it is
    long. *)
Definition padded (data : list Z) : list Z :=
  data ++ repeat 32 (length data).

(** A document as an update in place leaves it in a slot of [room] bytes. *)
Definition padded_to (room : Z) (data : list Z) : list Z :=
  data ++ repeat 32 (Z.to_nat (room - len data)).

(** The bytes a slot for [data] takes, and those a row of documents takes. *)
Definition slot_size (data : list Z) : Z := DOC_HEADER_SIZE + 2 * len data.

Definition total_size (docs : list (list Z)) : Z :=
  fold_right (fun data n => slot_size data + n) 0 docs.

(** Ids and payloads of documents put one after the other from [a] on. *)
Fixpoint placed (a : Z) (docs : list (list Z)) : list (Z * list Z) :=
  match docs with
  | [] => []
  | data :: rest => (a, padded data) :: placed (a + slot_size data) rest
  end.

(** The buffer holds [more] bytes behind the used ones, or can grow to. *)
Definition roomy (f : File) (more : Z) : Prop :=
  UsedSize f + more <= Size f
  \/ (0 < Growth f /\ UsedSize f + more + Growth f <= 2 ^ 63).

(** The calls [vs] without the one for [id], and with another payload for
    [id]. *)
Definition without (id : Z) (vs : list (Z * list Z)) : list (Z * list Z) :=
  filter (fun c => negb (fst c =? id)) vs.

Definition with_payload (id : Z) (doc : list Z) (vs : list (Z * list Z))
  : list (Z * list Z) :=
  map (fun c => if fst c =? id then (id, doc) else c) vs.

(** Insert the documents one after the other; the ids that Insert returns,
    in this order. *)
Fixpoint insert_all (docs : list (list Z)) : M (list Z) :=
  match docs with
  | [] => ret []
  | data :: rest =>
      r <- Insert data ;;
      ids <- insert_all rest ;;
      ret (fst r :: ids)
  end.

(** What a scan may call the visitor with: id and payload of a slot with a
    valid flag and a room of at most DOC_MAX_ROOM. *)
Definition live_at (f : File) (c : Z * list Z) : Prop :=
  out_of_bounds f (fst c) = false
  /\ byte_at f (fst c) = DOC_VALID
  /\ room_at f (fst c) <= DOC_MAX_ROOM
  /\ snd c = payload f (fst c) (room_at f (fst c)).

(** The calls [vs] are for slots from [a] on that lie one behind the
    other. *)
Fixpoint apart (a : Z) (vs : list (Z * list Z)) : Prop :=
  match vs with
  | [] => True
  | c :: rest =>
      a <= fst c /\ apart (fst c + DOC_HEADER_SIZE + len (snd c)) rest
  end.

(** What a scan may log: a header that fails the soundness check, and the
    place where the search for the next header stopped. *)
Definition logged_at (f : File) (e : log_entry) : Prop :=
  match e with
  | LogCorrupted c name =>
      out_of_bounds f c = false /\ unsound f c /\ name = Name f
  | LogSkipped d =>
      flag (byte_at f d) \/ d = UsedSize f - DOC_HEADER_SIZE
  end.

(** [skips f k a log b]: from [a] on the scan passes, in [k] rounds and
    without a call of the visitor, to [b].  A round either meets a header
    that fails the soundness check, logs it, searches byte by byte for the
    next byte that may be a flag and logs where it stopped, or it meets a
    header with the flag DOC_INVALID and a room of at most DOC_MAX_ROOM and
    steps over the room.  [log] is what the rounds write. *)
Inductive skips (f : File) : nat -> Z -> list log_entry -> Z -> Prop :=
| skips_end a : skips f 0 a [] a
| skips_corrupted k a a' log b :
    out_of_bounds f a = false -> unsound f a ->
    a < a' -> a' <= UsedSize f - DOC_HEADER_SIZE ->
    (forall i, a < i < a' -> ~ flag (byte_at f i)) ->
    flag (byte_at f a') \/ a' = UsedSize f - DOC_HEADER_SIZE ->
    skips f k a' log b ->
    skips f (S k) a (LogCorrupted a (Name f) :: LogSkipped a' :: log) b
| skips_invalid k a room log b :
    out_of_bounds f a = false ->
    byte_at f a = DOC_INVALID ->
    room_at f a = room -> room <= DOC_MAX_ROOM ->
    skips f k (a + DOC_HEADER_SIZE + room) log b ->
    skips f (S k) a log b.

End Frames.
Export Frames.

(** ** More small stores *)

(** A store whose only header claims a room that ends behind the buffer. *)
Definition overlong : File :=
  with_UsedSize (with_Buf (fresh 64 COL_FILE_SIZE) ([1; 60] ++ repeat 0 62)) 64.

(** A visitor that keeps what it is called with and stops at the id [n]. *)
Definition collect_until (n : Z) (v : list (Z * list Z)) (id : Z)
           (doc : list Z) : bool * list (Z * list Z) :=
  (negb (id =? n), v ++ [(id, doc)]).

(** Four documents, the validity byte of the last one overwritten. *)
Definition torn : File :=
  with_Buf four_docs (Go.splice (Buf four_docs) 39 [7]).

(** Three documents of five bytes, and the same store after the validity
    byte of the second one (at 21) was overwritten. *)
Definition hello : list Z := [104; 101; 108; 108; 111].

Definition three_docs : File :=
  run (map OpInsert [hello; hello; hello]) (fresh 64 COL_FILE_SIZE).

Definition nicked : File :=
  with_Buf three_docs (Go.splice (Buf three_docs) 21 [7]).

(** * Lemmas *)

(** ** Slices *)

Module GoFacts.
Import Go.

Lemma u64_small x : 0 <= x < 2 ^ 64 -> u64 x = x.
Proof. intros H. unfold u64. now apply Z.mod_small. Qed.

Lemma u64_range x : 0 <= u64 x < 2 ^ 64.
Proof. unfold u64. apply Z.mod_pos_bound. lia. Qed.

Lemma len_nonneg {A} (s : list A) : 0 <= len s.
Proof. unfold len. lia. Qed.

Lemma len_app {A} (s t : list A) : len (s ++ t) = len s + len t.
Proof. unfold len. rewrite length_app. lia. Qed.

Lemma len_repeat {A} (x : A) n : len (repeat x n) = Z.of_nat n.
Proof. unfold len. now rewrite repeat_length. Qed.

Lemma nth_error_sub {A} (s : list A) low high n :
  0 <= low -> low <= high -> high <= len s ->
  nth_error (sub s low high) n =
  if (n <? Z.to_nat (high - low))%nat then nth_error s (Z.to_nat low + n)
  else None.
Proof.
  unfold sub, len. intros H0 H1 H2.
  destruct (Nat.ltb_spec n (Z.to_nat (high - low))) as [L | L].
  - rewrite nth_error_firstn.
    destruct (Nat.ltb_spec n (Z.to_nat (high - low))); [|lia].
    now rewrite nth_error_skipn.
  - apply nth_error_None. rewrite length_firstn, length_skipn. lia.
Qed.

Lemma nth_error_splice {A} (s src : list A) a n :
  0 <= a -> a + len src <= len s ->
  nth_error (splice s a src) n =
  if (n <? Z.to_nat a)%nat then nth_error s n
  else if (n <? Z.to_nat a + length src)%nat
       then nth_error src (n - Z.to_nat a)
       else nth_error s n.
Proof.
  unfold splice, len. intros H0 H1.
  assert (L1 : length (firstn (Z.to_nat a) s) = Z.to_nat a)
    by (rewrite length_firstn; lia).
  destruct (Nat.ltb_spec n (Z.to_nat a)) as [L | L].
  - rewrite nth_error_app1 by lia. rewrite nth_error_firstn.
    destruct (Nat.ltb_spec n (Z.to_nat a)); [reflexivity | lia].
  - rewrite nth_error_app2 by lia. rewrite L1.
    destruct (Nat.ltb_spec n (Z.to_nat a + length src)) as [L' | L'].
    + now rewrite nth_error_app1 by lia.
    + rewrite nth_error_app2 by lia. rewrite nth_error_skipn.
      f_equal. lia.
Qed.

Lemma length_sub {A} (s : list A) low high :
  0 <= low -> low <= high -> high <= len s ->
  length (sub s low high) = Z.to_nat (high - low).
Proof.
  unfold sub, len. intros. rewrite length_firstn, length_skipn. lia.
Qed.

Lemma length_splice {A} (s src : list A) a :
  0 <= a -> a + len src <= len s ->
  length (splice s a src) = length s.
Proof.
  unfold splice, len. intros.
  rewrite !length_app, length_firstn, length_skipn. lia.
Qed.

Lemma len_splice {A} (s src : list A) a :
  0 <= a -> a + len src <= len s -> len (splice s a src) = len s.
Proof. intros. unfold len. now rewrite length_splice. Qed.

(** Reading back what was written. *)
Lemma sub_splice_same {A} (s src : list A) a b :
  0 <= a -> a + len src <= len s -> b = a + len src ->
  sub (splice s a src) a b = src.
Proof.
  intros H0 H1 ->. pose proof (len_nonneg src) as Hs.
  apply nth_error_ext. intros n.
  rewrite nth_error_sub; rewrite ?len_splice; try lia.
  rewrite nth_error_splice by lia. unfold len in *.
  destruct (Nat.ltb_spec n (Z.to_nat (a + Z.of_nat (length src) - a))) as [L|L].
  - destruct (Nat.ltb_spec (Z.to_nat a + n) (Z.to_nat a)); [lia|].
    destruct (Nat.ltb_spec (Z.to_nat a + n) (Z.to_nat a + length src));
      [|lia].
    f_equal. lia.
  - symmetry. apply nth_error_None. lia.
Qed.

(** A write leaves the bytes outside of it alone. *)
Lemma sub_splice_disjoint {A} (s src : list A) a low high :
  0 <= a -> a + len src <= len s ->
  0 <= low -> low <= high -> high <= len s ->
  high <= a \/ a + len src <= low ->
  sub (splice s a src) low high = sub s low high.
Proof.
  intros H0 H1 H2 H3 H4 H5.
  apply nth_error_ext. intros n.
  rewrite !nth_error_sub; rewrite ?len_splice; try lia.
  destruct (Nat.ltb_spec n (Z.to_nat (high - low))) as [L|L]; [|reflexivity].
  rewrite nth_error_splice by lia. unfold len in *.
  destruct (Nat.ltb_spec (Z.to_nat low + n) (Z.to_nat a)); [reflexivity|].
  destruct (Nat.ltb_spec (Z.to_nat low + n) (Z.to_nat a + length src));
    [lia | reflexivity].
Qed.

Lemma nth_splice_same (s : list Z) a v :
  0 <= a -> a < len s -> nth (Z.to_nat a) (splice s a [v]) 0 = v.
Proof.
  intros H0 H1. apply nth_error_nth.
  rewrite nth_error_splice by (unfold len in *; simpl; lia).
  destruct (Nat.ltb_spec (Z.to_nat a) (Z.to_nat a)); [lia|].
  simpl length.
  destruct (Nat.ltb_spec (Z.to_nat a) (Z.to_nat a + 1)); [|lia].
  now rewrite Nat.sub_diag.
Qed.

Lemma nth_splice_other (s src : list Z) a i :
  0 <= a -> a + len src <= len s -> 0 <= i ->
  i < a \/ a + len src <= i ->
  nth (Z.to_nat i) (splice s a src) 0 = nth (Z.to_nat i) s 0.
Proof.
  intros H0 H1 H2 H3.
  rewrite <- !nth_default_eq. unfold nth_default.
  rewrite nth_error_splice by lia. unfold len in *.
  destruct (Nat.ltb_spec (Z.to_nat i) (Z.to_nat a)); [reflexivity|].
  destruct (Nat.ltb_spec (Z.to_nat i) (Z.to_nat a + length src));
    [lia | reflexivity].
Qed.

(** Two writes next to each other are one write. *)
Lemma splice_splice {A} (s s1 s2 : list A) a :
  0 <= a -> a + len s1 + len s2 <= len s ->
  splice (splice s a s1) (a + len s1) s2 = splice s a (s1 ++ s2).
Proof.
  intros H0 H1. pose proof (len_nonneg s1). pose proof (len_nonneg s2).
  apply nth_error_ext. intros n.
  rewrite !nth_error_splice; rewrite ?len_splice, ?len_app; try lia.
  rewrite length_app. unfold len in *.
  destruct (Nat.ltb_spec n (Z.to_nat (a + Z.of_nat (length s1)))),
           (Nat.ltb_spec n (Z.to_nat a)),
           (Nat.ltb_spec n (Z.to_nat a + length s1)),
           (Nat.ltb_spec n (Z.to_nat (a + Z.of_nat (length s1)) + length s2)),
           (Nat.ltb_spec n (Z.to_nat a + (length s1 + length s2)));
    try lia; try reflexivity.
  - now rewrite nth_error_app1 by lia.
  - rewrite nth_error_app2 by lia. f_equal. lia.
Qed.

Lemma splice_nil {A} (s : list A) a : splice s a [] = s.
Proof.
  unfold splice. simpl. rewrite Nat.add_0_r. apply firstn_skipn.
Qed.

Lemma copy_same_length {A} (dst src : list A) :
  length dst = length src -> copy dst src = src.
Proof.
  intros H. unfold copy. rewrite H, firstn_all, skipn_all2 by lia.
  apply app_nil_r.
Qed.

End GoFacts.

(** ** The varint codec *)

Module binaryFacts.
Import Go binary GoFacts.

(** A property of bytes that a run over the 256 values confirms. *)
Lemma byte_cases (P : Z -> bool) :
  forallb P (map Z.of_nat (seq 0 256)) = true ->
  forall y, 0 <= y < 256 -> P y = true.
Proof.
  intros H y Hy. rewrite forallb_forall in H. apply H.
  apply in_map_iff. exists (Z.to_nat y). split; [lia|].
  apply in_seq. lia.
Qed.

Lemma continuation_byte x :
  let b := Z.lor (u8 x) 128 in
  (b <? 128) = false /\ Z.land b 127 = x mod 128.
Proof.
  intros b. subst b. unfold u8.
  assert (Hy : 0 <= x mod 2 ^ 8 < 256) by (apply Z.mod_pos_bound; lia).
  assert (Hm : x mod 128 = (x mod 2 ^ 8) mod 128).
  { change (2 ^ 8) with (2 * 128). rewrite Z.mul_comm.
    rewrite Z.rem_mul_r by lia. rewrite Z.mul_comm, Z.mod_add by lia.
    now rewrite Z.mod_mod by lia. }
  rewrite Hm.
  pose proof (byte_cases
    (fun y => negb (Z.lor y 128 <? 128)
              && (Z.land (Z.lor y 128) 127 =? y mod 128))) as B.
  specialize (B eq_refl _ Hy). apply andb_true_iff in B as [B1 B2].
  apply negb_true_iff in B1. apply Z.eqb_eq in B2. now split.
Qed.

Lemma join_low_high x s :
  0 <= s ->
  Z.lor (Z.shiftl (x mod 128) s) (Z.shiftl (Z.shiftr x 7) (s + 7))
  = Z.shiftl x s.
Proof.
  intros Hs. apply Z.bits_inj'. intros n Hn.
  rewrite Z.lor_spec, !Z.shiftl_spec by lia.
  destruct (Z.ltb_spec (n - s) 0) as [L0 | L0].
  - rewrite !Z.testbit_neg_r by lia. reflexivity.
  - change 128 with (2 ^ 7).
    destruct (Z.ltb_spec (n - s) 7) as [L | L].
    + rewrite Z.mod_pow2_bits_low by lia.
      rewrite (Z.testbit_neg_r _ (n - (s + 7))) by lia.
      apply orb_false_r.
    + rewrite Z.mod_pow2_bits_high by lia.
      rewrite Z.shiftr_spec by lia. simpl. f_equal. lia.
Qed.

Lemma small_index i : 0 <= i <= 9 ->
  i = 0 \/ i = 1 \/ i = 2 \/ i = 3 \/ i = 4 \/ i = 5 \/ i = 6 \/ i = 7
  \/ i = 8 \/ i = 9.
Proof. lia. Qed.

Lemma Uvarint_from_cons b rest x s i :
  Uvarint_from (b :: rest) x s i =
  if b <? 128 then
    if (i >? 9) || ((i =? 9) && (b >? 1)) then (0, - (i + 1))
    else (Z.lor x (u64 (Z.shiftl b s)), i + 1)
  else
    Uvarint_from rest (Z.lor x (u64 (Z.shiftl (Z.land b 127) s)))
                 (s + 7) (i + 1).
Proof. reflexivity. Qed.

(** What [PutUvarint] writes, [Uvarint] reads. *)
Lemma Uvarint_PutUvarint_from buf :
  forall x i acc,
    0 <= i <= 9 -> 0 <= x -> x * 2 ^ (7 * i) < 2 ^ 64 ->
    10 <= i + len buf ->
    exists buf' n,
      PutUvarint_from buf x i = (buf', Some n)
      /\ length buf' = length buf
      /\ fst (Uvarint_from buf' acc (7 * i) i) = Z.lor acc (Z.shiftl x (7 * i)).
Proof.
  induction buf as [| b rest IH]; intros x i acc Hi Hx Hfit Hlen.
  - unfold len in Hlen. simpl in Hlen. lia.
  - simpl PutUvarint_from.
    assert (Hp : 0 < 2 ^ (7 * i)) by (apply Z.pow_pos_nonneg; lia).
    destruct (Z.geb_spec x 128) as [Hbig | Hsmall].
    + assert (Hi' : 0 <= i + 1 <= 9).
      { destruct (small_index i Hi) as [->|[->|[->|[->|[->|[->|[->|[->|[->| ->]]]]]]]]];
          lia. }
      assert (Hq : 0 <= Z.shiftr x 7)
        by (rewrite Z.shiftr_div_pow2 by lia; apply Z.div_pos; lia).
      assert (Hfit' : Z.shiftr x 7 * 2 ^ (7 * (i + 1)) < 2 ^ 64).
      { rewrite Z.shiftr_div_pow2 by lia.
        replace (7 * (i + 1)) with (7 + 7 * i) by lia.
        rewrite Z.pow_add_r by lia. change (2 ^ 7) with 128.
        assert (x / 128 * 128 <= x)
          by (rewrite Z.mul_comm; apply Z.mul_div_le; lia).
        nia. }
      assert (Hlen' : 10 <= (i + 1) + len rest)
        by (unfold len in *; simpl length in Hlen; lia).
      destruct (continuation_byte x) as [Hb Hland].
      destruct (IH (Z.shiftr x 7) (i + 1)
                   (Z.lor acc (Z.shiftl (x mod 128) (7 * i)))
                   Hi' Hq Hfit' Hlen')
        as (rest' & n & Hput & Hl & Hget).
      rewrite Hput. eexists _, n. split; [reflexivity|]. split.
      * simpl. now rewrite Hl.
      * rewrite Uvarint_from_cons, Hb, Hland.
        rewrite u64_small.
        2:{ rewrite Z.shiftl_mul_pow2 by lia.
            assert (0 <= x mod 128 <= x).
            { split; [apply Z.mod_pos_bound; lia|].
              apply Z.mod_le; lia. }
            nia. }
        replace (7 * i + 7) with (7 * (i + 1)) by lia.
        rewrite Hget. rewrite <- Z.lor_assoc. f_equal.
        replace (7 * (i + 1)) with (7 * i + 7) by lia.
        apply join_low_high. lia.
    + assert (Hu : u8 x = x) by (unfold u8; apply Z.mod_small; simpl; lia).
      rewrite Hu. eexists _, _. split; [reflexivity|].
      split; [reflexivity|].
      rewrite Uvarint_from_cons.
      destruct (Z.ltb_spec x 128) as [_|]; [|lia].
      assert (Hov : (i >? 9) || ((i =? 9) && (x >? 1)) = false).
      { destruct (small_index i Hi) as [->|[->|[->|[->|[->|[->|[->|[->|[->| ->]]]]]]]]];
          try reflexivity.
        change (2 ^ (7 * 9)) with 9223372036854775808 in Hfit.
        change (2 ^ 64) with 18446744073709551616 in Hfit.
        simpl. destruct (Z.gtb_spec x 1); [lia | reflexivity]. }
      rewrite Hov. cbn [fst]. rewrite u64_small; [reflexivity|].
      rewrite Z.shiftl_mul_pow2 by lia. nia.
Qed.

Lemma Uvarint_PutUvarint buf x :
  0 <= x < 2 ^ 64 -> length buf = 10%nat ->
  exists buf' n,
    PutUvarint buf x = (buf', Some n)
    /\ length buf' = 10%nat /\ fst (Uvarint buf') = x.
Proof.
  intros Hx Hl.
  destruct (Uvarint_PutUvarint_from buf x 0 0) as (buf' & n & H1 & H2 & H3);
    try lia.
  - unfold len. lia.
  - exists buf', n. unfold PutUvarint, Uvarint. split; [assumption|].
    split; [congruence|].
    change (7 * 0) with 0 in H3. rewrite H3.
    rewrite Z.shiftl_0_r. apply Z.lor_0_l.
Qed.

End binaryFacts.

(** ** The primitive steps of the monad *)

Module StepFacts.
Import Go GoFacts.

Lemma slice_ok_true {A} (s : list A) low high :
  0 <= low -> low <= high -> high <= len s -> slice_ok s low high = true.
Proof.
  intros. unfold slice_ok.
  rewrite !andb_true_iff, !Z.leb_le. auto.
Qed.

Lemma slice_ok_inv {A} (s : list A) low high :
  slice_ok s low high = true -> 0 <= low /\ low <= high /\ high <= len s.
Proof.
  unfold slice_ok. rewrite !andb_true_iff, !Z.leb_le. tauto.
Qed.

Lemma index_ok_true {A} (s : list A) i :
  0 <= i -> i < len s -> index_ok s i = true.
Proof.
  intros. unfold index_ok. rewrite andb_true_iff, Z.leb_le, Z.ltb_lt. auto.
Qed.

Lemma index_ok_inv {A} (s : list A) i :
  index_ok s i = true -> 0 <= i /\ i < len s.
Proof.
  unfold index_ok. rewrite andb_true_iff, Z.leb_le, Z.ltb_lt. tauto.
Qed.

Lemma with_Buf_same f : with_Buf f (Buf f) = f.
Proof. now destruct f. Qed.

Lemma with_Buf_twice f b b' : with_Buf (with_Buf f b) b' = with_Buf f b'.
Proof. reflexivity. Qed.

Lemma index_run f i :
  0 <= i -> i < len (Buf f) ->
  index i f = (Done (nth (Z.to_nat i) (Buf f) 0), f).
Proof. intros. unfold index. now rewrite index_ok_true. Qed.

Lemma set_index_run f i v :
  0 <= i -> i < len (Buf f) ->
  set_index i v f = (Done tt, with_Buf f (splice (Buf f) i [v])).
Proof. intros. unfold set_index. now rewrite index_ok_true. Qed.

Lemma slice_run f low high :
  0 <= low -> low <= high -> high <= len (Buf f) ->
  slice low high f = (Done (sub (Buf f) low high), f).
Proof. intros. unfold slice. now rewrite slice_ok_true. Qed.

(** A copy of as many bytes as the slice has. *)
Lemma copy_to_run f low high src :
  0 <= low -> high = low + len src -> high <= len (Buf f) ->
  copy_to low high src f = (Done tt, with_Buf f (splice (Buf f) low src)).
Proof.
  intros H0 -> H2. pose proof (len_nonneg src).
  unfold copy_to, on_slice. rewrite slice_ok_true by lia.
  rewrite copy_same_length; [reflexivity|].
  rewrite length_sub by lia. unfold len. lia.
Qed.

Lemma string_slice_run f (s : list Z) low high :
  0 <= low -> low <= high -> high <= len s ->
  string_slice s low high f = (Done (sub s low high), f).
Proof. intros. unfold string_slice. now rewrite slice_ok_true. Qed.

Lemma sub_repeat {A} (x : A) n k :
  0 <= k -> k <= Z.of_nat n ->
  sub (repeat x n) 0 k = repeat x (Z.to_nat k).
Proof.
  intros H0 H1. unfold sub. simpl skipn. rewrite Z.sub_0_r.
  replace n with (Z.to_nat k + (n - Z.to_nat k))%nat at 1 by lia.
  rewrite repeat_app, firstn_app, repeat_length, Nat.sub_diag.
  rewrite firstn_all2 by (rewrite repeat_length; lia).
  simpl. apply app_nil_r.
Qed.

End StepFacts.

(** ** The collection file: stores, slots and the padding loop *)

Module ColFacts.
Import Go GoFacts binary binaryFacts StepFacts.

Lemma LEN_PADDING_eq : LEN_PADDING = 1024.
Proof. reflexivity. Qed.

Lemma PADDING_eq : PADDING = repeat 32 1024%nat.
Proof. reflexivity. Qed.

Lemma Uvarint_from_nonneg buf :
  forall x s i, 0 <= x -> 0 <= fst (Uvarint_from buf x s i).
Proof.
  induction buf as [| b rest IH]; intros x s i Hx.
  - simpl. lia.
  - rewrite Uvarint_from_cons.
    destruct (b <? 128).
    + destruct ((i >? 9) || ((i =? 9) && (b >? 1))); cbn [fst]; [lia|].
      apply Z.lor_nonneg. split; [assumption | apply u64_range].
    + apply IH. apply Z.lor_nonneg. split; [assumption | apply u64_range].
Qed.

Lemma room_at_nonneg f id : 0 <= room_at f id.
Proof. unfold room_at, Uvarint. apply Uvarint_from_nonneg. lia. Qed.

Lemma out_of_bounds_false f id :
  wf f -> out_of_bounds f id = false <->
          DOC_HEADER_SIZE <= UsedSize f /\ id < UsedSize f - DOC_HEADER_SIZE.
Proof.
  intros (_ & HU & HS). unfold out_of_bounds, DOC_HEADER_SIZE in *.
  rewrite orb_false_iff, Z.ltb_ge.
  split.
  - intros [H1 H2]. rewrite u64_small in H2 by lia.
    destruct (Z.geb_spec id (UsedSize f - (1 + 10))); [discriminate | lia].
  - intros [H1 H2]. split; [assumption|]. rewrite u64_small by lia.
    destruct (Z.geb_spec id (UsedSize f - (1 + 10))); [lia | reflexivity].
Qed.

Lemma fill_padding_S k a b :
  fill_padding (S k) a b =
  if a <? b then
    let segSize := LEN_PADDING in
    let segEnd := u64 (a + LEN_PADDING) in
    let '(segEnd, segSize) :=
      if segEnd >=? b then (b, u64 (b - a)) else (segEnd, segSize) in
    pad <- string_slice PADDING 0 segSize ;;
    copy_to a segEnd pad ;;
    fill_padding k (u64 (a + LEN_PADDING)) b
  else ret tt.
Proof. reflexivity. Qed.

Lemma fill_padding_done k a b f :
  b <= a -> fill_padding (S k) a b f = (Done tt, f).
Proof.
  intros H. rewrite fill_padding_S.
  destruct (Z.ltb_spec a b); [lia | reflexivity].
Qed.

(** The padding loop writes spaces from [a] to [b], and nothing else. *)
Lemma fill_padding_run fuel :
  forall a b f,
    0 <= a -> a <= b -> b <= len (Buf f) -> b < 2 ^ 63 ->
    b - a + 1024 <= Z.of_nat fuel * 1024 ->
    fill_padding fuel a b f =
    (Done tt, with_Buf f (splice (Buf f) a (repeat 32 (Z.to_nat (b - a))))).
Proof.
  induction fuel as [| k IH]; intros a b f H0 H1 H2 H3 H4; [lia|].
  assert (H64 : 2 ^ 63 < 2 ^ 64) by reflexivity.
  rewrite fill_padding_S.
  destruct (Z.ltb_spec a b) as [Lt | Ge].
  - rewrite LEN_PADDING_eq. cbv zeta.
    rewrite (u64_small (a + 1024)) by lia.
    destruct (Z.geb_spec (a + 1024) b) as [Last | More].
    + rewrite (u64_small (b - a)) by lia.
      unfold bind.
      rewrite string_slice_run;
        [| lia | lia | rewrite PADDING_eq, len_repeat; lia].
      rewrite PADDING_eq, sub_repeat by lia.
      rewrite copy_to_run; [| lia | rewrite len_repeat; lia | assumption].
      destruct k as [| k']; [lia|].
      apply fill_padding_done. lia.
    + unfold bind.
      rewrite string_slice_run;
        [| lia | lia | rewrite PADDING_eq, len_repeat; lia].
      rewrite PADDING_eq, sub_repeat by lia.
      rewrite copy_to_run; [| lia | rewrite len_repeat; lia | lia].
      assert (Hl : len (splice (Buf f) a (repeat 32 (Z.to_nat 1024)))
                   = len (Buf f))
        by (apply len_splice; [lia | rewrite len_repeat; lia]).
      rewrite IH; cbn [Buf with_Buf]; try lia.
      rewrite with_Buf_twice. f_equal. f_equal.
      replace (a + 1024)
        with (a + len (repeat 32 (Z.to_nat 1024)))
        by (rewrite len_repeat; lia).
      rewrite splice_splice;
        [| lia | rewrite !len_repeat; lia].
      rewrite <- repeat_app. f_equal. f_equal. rewrite ?len_repeat. lia.
  - replace (b - a) with 0 by lia. simpl repeat.
    rewrite splice_nil, with_Buf_same. reflexivity.
Qed.

Lemma padding_fuel_enough a b :
  a <= b -> b - a + 1024 <= Z.of_nat (padding_fuel a b) * 1024.
Proof.
  intros H. unfold padding_fuel. rewrite LEN_PADDING_eq.
  assert (0 <= (b - a) / 1024) by (apply Z.div_pos; lia).
  pose proof (Z.mul_succ_div_gt (b - a) 1024). lia.
Qed.

End ColFacts.

(** ** Read and Delete, step by step *)

Module ReadFacts.
Import Go GoFacts binary binaryFacts StepFacts ColFacts.

(** Read never panics on a store that is well formed, and it leaves the
    store as it found it. *)
Lemma Read_run f id :
  wf f -> 0 <= id -> Read id f = (Done (read_result f id), f).
Proof.
  intros W Hid. pose proof W as (HL & HU & HS).
  assert (H64 : 2 ^ 63 < 2 ^ 64) by reflexivity.
  unfold Read, read_result, bind, file.
  destruct (out_of_bounds f id) eqn:B; [reflexivity|].
  apply (out_of_bounds_false f id W) in B. unfold DOC_HEADER_SIZE in *.
  rewrite index_run by lia. fold (byte_at f id).
  destruct (negb (byte_at f id =? DOC_VALID)); [reflexivity|].
  rewrite !u64_small by lia.
  rewrite slice_run by lia. fold (room_at f id).
  pose proof (room_at_nonneg f id) as Hr.
  destruct (Z.gtb_spec (room_at f id) DOC_MAX_ROOM) as [|Hmax];
    [reflexivity|].
  unfold DOC_MAX_ROOM in Hmax.
  rewrite u64_small by lia.
  destruct (Z.geb_spec (id + (1 + 10) + room_at f id) (Size f)) as [|Hend];
    [reflexivity|].
  rewrite slice_run by lia.
  rewrite copy_same_length; [reflexivity|].
  unfold make. rewrite repeat_length, length_sub by lia. lia.
Qed.

Lemma Read_valid_slot f id room :
  wf f -> valid_slot f id room -> id + DOC_HEADER_SIZE + room < Size f ->
  Read id f = (Done (Some (payload f id room)), f).
Proof.
  intros W (H0 & H1 & H2 & H3 & H4 & H5 & H6) Hend.
  rewrite Read_run by assumption. unfold read_result.
  assert (B : out_of_bounds f id = false)
    by (apply out_of_bounds_false; auto).
  rewrite B, H3, H4. simpl negb.
  destruct (Z.gtb_spec room DOC_MAX_ROOM); [lia|].
  destruct (Z.geb_spec (id + DOC_HEADER_SIZE + room) (Size f)); [lia|].
  reflexivity.
Qed.

Lemma Read_not_valid f id :
  wf f -> 0 <= id -> byte_at f id <> DOC_VALID ->
  Read id f = (Done None, f).
Proof.
  intros W Hid Hb. rewrite Read_run by assumption. unfold read_result.
  destruct (out_of_bounds f id); [reflexivity|].
  destruct (Z.eqb_spec (byte_at f id) DOC_VALID); [contradiction|].
  reflexivity.
Qed.

Lemma Read_out_of_bounds f id :
  wf f -> 0 <= id -> out_of_bounds f id = true ->
  Read id f = (Done None, f).
Proof.
  intros W Hid Hb. rewrite Read_run by assumption. unfold read_result.
  now rewrite Hb.
Qed.

Lemma Delete_run f id :
  wf f -> 0 <= id -> Delete id f = (Done tt, deleted f id).
Proof.
  intros W Hid. pose proof W as (HL & HU & HS).
  unfold Delete, deleted, bind, file.
  destruct (out_of_bounds f id) eqn:B; [reflexivity|].
  apply (out_of_bounds_false f id W) in B. unfold DOC_HEADER_SIZE in *.
  rewrite index_run by lia. fold (byte_at f id).
  destruct (byte_at f id =? DOC_VALID); [|reflexivity].
  rewrite set_index_run by lia. reflexivity.
Qed.

Lemma wf_with_Buf f b : wf f -> len b = len (Buf f) -> wf (with_Buf f b).
Proof. intros (HL & HU & HS) Hb. unfold wf. simpl. repeat split; lia. Qed.

Lemma deleted_fields f id :
  UsedSize (deleted f id) = UsedSize f /\ Size (deleted f id) = Size f
  /\ Name (deleted f id) = Name f /\ Growth (deleted f id) = Growth f.
Proof.
  unfold deleted.
  destruct (out_of_bounds f id); [auto|].
  destruct (byte_at f id =? DOC_VALID); simpl; auto.
Qed.

Lemma out_of_bounds_deleted f id i :
  out_of_bounds (deleted f id) i = out_of_bounds f i.
Proof.
  unfold out_of_bounds.
  destruct (deleted_fields f id) as (-> & _). reflexivity.
Qed.

Lemma wf_deleted f id : wf f -> 0 <= id -> wf (deleted f id).
Proof.
  intros W Hid. pose proof W as (HL & HU & HS). unfold deleted.
  destruct (out_of_bounds f id) eqn:B; [assumption|].
  apply (out_of_bounds_false f id W) in B. unfold DOC_HEADER_SIZE in *.
  destruct (byte_at f id =? DOC_VALID); [|assumption].
  apply wf_with_Buf; [assumption|].
  apply len_splice; [lia|]. unfold len at 1. simpl. lia.
Qed.

(** After Delete the byte at [id] is not [DOC_VALID], if the id is in
    bounds. *)
Lemma byte_at_deleted f id :
  wf f -> 0 <= id -> out_of_bounds f id = false ->
  byte_at (deleted f id) id <> DOC_VALID.
Proof.
  intros W Hid B. pose proof W as (HL & HU & HS). unfold deleted.
  rewrite B.
  apply (out_of_bounds_false f id W) in B. unfold DOC_HEADER_SIZE in *.
  destruct (Z.eqb_spec (byte_at f id) DOC_VALID) as [E | NE];
    [|assumption].
  unfold byte_at. simpl Buf. rewrite nth_splice_same by lia.
  discriminate.
Qed.

Lemma Read_deleted f id :
  wf f -> 0 <= id -> Read id (deleted f id) = (Done None, deleted f id).
Proof.
  intros W Hid.
  destruct (out_of_bounds f id) eqn:B.
  - apply Read_out_of_bounds; [now apply wf_deleted | assumption |].
    now rewrite out_of_bounds_deleted.
  - apply Read_not_valid; [now apply wf_deleted | assumption |].
    now apply byte_at_deleted.
Qed.

Lemma deleted_twice f id :
  wf f -> 0 <= id -> deleted (deleted f id) id = deleted f id.
Proof.
  intros W Hid. unfold deleted at 1.
  rewrite out_of_bounds_deleted.
  destruct (out_of_bounds f id) eqn:B; [reflexivity|].
  pose proof (byte_at_deleted f id W Hid B) as NE.
  destruct (Z.eqb_spec (byte_at (deleted f id) id) DOC_VALID);
    [contradiction | reflexivity].
Qed.

End ReadFacts.

(** ** Insert, step by step *)

Module InsertFacts.
Import Go GoFacts binary binaryFacts StepFacts ColFacts ReadFacts.

Lemma sub_splice_inside {A} (s src : list A) a low high :
  0 <= a -> a + len src <= len s ->
  a <= low -> low <= high -> high <= a + len src ->
  sub (splice s a src) low high = sub src (low - a) (high - a).
Proof.
  intros H0 H1 H2 H3 H4.
  apply nth_error_ext. intros n.
  rewrite !nth_error_sub; rewrite ?len_splice; try lia.
  replace (high - a - (low - a)) with (high - low) by lia.
  destruct (Nat.ltb_spec n (Z.to_nat (high - low))) as [L|L]; [|reflexivity].
  rewrite nth_error_splice by lia. unfold len in *.
  destruct (Nat.ltb_spec (Z.to_nat low + n) (Z.to_nat a)); [lia|].
  destruct (Nat.ltb_spec (Z.to_nat low + n) (Z.to_nat a + length src));
    [|lia].
  f_equal. lia.
Qed.

Lemma nth_splice_head (s rest : list Z) a v :
  0 <= a -> a + len (v :: rest) <= len s ->
  nth (Z.to_nat a) (splice s a (v :: rest)) 0 = v.
Proof.
  intros H0 H1. apply nth_error_nth.
  rewrite nth_error_splice by assumption.
  destruct (Nat.ltb_spec (Z.to_nat a) (Z.to_nat a)); [lia|].
  destruct (Nat.ltb_spec (Z.to_nat a) (Z.to_nat a + length (v :: rest)));
    [| simpl in *; lia].
  now rewrite Nat.sub_diag.
Qed.

Lemma CheckSizeAndEnsure_some f more g :
  wf f -> 0 <= more -> CheckSizeAndEnsure f more = Some g ->
  wf g /\ UsedSize g = UsedSize f /\ UsedSize f + more <= Size g
  /\ Name g = Name f /\ Growth g = Growth f
  /\ exists z, Buf g = Buf f ++ repeat 0 z.
Proof.
  intros W Hm. pose proof W as (HL & HU & HS).
  unfold CheckSizeAndEnsure.
  destruct (Z.leb_spec (UsedSize f + more) (Size f)) as [Fit | NoFit].
  - intros [= <-]. repeat split; try assumption; try lia.
    exists 0%nat. simpl. now rewrite app_nil_r.
  - destruct (Z.leb_spec (Growth f) 0) as [|Gpos]; [discriminate|].
    destruct (Z.ltb_spec (Size f + increments f more * Growth f) (2 ^ 63))
      as [Small|]; [|discriminate].
    intros [= <-]. unfold increments in *.
    set (need := UsedSize f + more - Size f) in *.
    assert (Hk : need <= (need + Growth f - 1) / Growth f * Growth f).
    { pose proof (Z.mul_succ_div_gt (need + Growth f - 1) (Growth f) Gpos).
      lia. }
    assert (0 <= (need + Growth f - 1) / Growth f)
      by (apply Z.div_pos; lia).
    unfold wf. simpl. repeat split; try lia.
    + rewrite len_app, len_repeat. nia.
    + eexists. reflexivity.
Qed.

Lemma ensure_step f more g :
  CheckSizeAndEnsure f more = Some g ->
  (if negb (CheckSize f more) then ensure more else ret tt) f = (Done tt, g).
Proof.
  intros H. unfold CheckSize.
  destruct (UsedSize f + more <=? Size f) eqn:E.
  - unfold CheckSizeAndEnsure in H. rewrite E in H. injection H as <-.
    reflexivity.
  - cbn [negb]. unfold ensure. now rewrite H.
Qed.

Lemma room_field_ok g room :
  wf g -> 0 <= UsedSize g -> UsedSize g + 11 <= Size g ->
  0 <= room < 2 ^ 64 ->
  exists n,
    PutUvarint (sub (Buf g) (UsedSize g + 1) (UsedSize g + 11)) room
    = (room_field g room, Some n)
    /\ length (room_field g room) = 10%nat
    /\ fst (Uvarint (room_field g room)) = room.
Proof.
  intros (HL & HU & HS) H0 H1 Hr. unfold room_field.
  destruct (Uvarint_PutUvarint
              (sub (Buf g) (UsedSize g + 1) (UsedSize g + 11)) room Hr)
    as (buf' & n & E & L & D).
  - rewrite length_sub by lia. lia.
  - exists n. rewrite E. simpl. auto.
Qed.

Lemma put_uvarint_run f low x :
  0 <= low -> low + 10 <= len (Buf f) -> 0 <= x < 2 ^ 64 ->
  put_uvarint low (low + 10) x f =
  (Done tt,
   with_Buf f (splice (Buf f) low
                      (fst (PutUvarint (sub (Buf f) low (low + 10)) x)))).
Proof.
  intros H0 H1 Hx. unfold put_uvarint.
  rewrite slice_ok_true by lia.
  destruct (Uvarint_PutUvarint (sub (Buf f) low (low + 10)) x Hx)
    as (buf' & n & E & _).
  - rewrite length_sub by lia. lia.
  - rewrite E. reflexivity.
Qed.

Lemma len_cons {A} (x : A) s : len (x :: s) = 1 + len s.
Proof. unfold len. simpl length. lia. Qed.

Lemma len_nil {A} : len (@nil A) = 0.
Proof. reflexivity. Qed.

Ltac lens := rewrite ?len_app, ?len_cons, ?len_nil, ?len_repeat; try lia.

Lemma Insert_run f data g :
  wf f -> 2 * len data <= DOC_MAX_ROOM ->
  CheckSizeAndEnsure f (DOC_HEADER_SIZE + 2 * len data) = Some g ->
  Insert data f = (Done (UsedSize f, None), inserted g data).
Proof.
  intros W Hlen Hg. pose proof (len_nonneg data) as Hd.
  assert (Hm : 0 <= DOC_HEADER_SIZE + 2 * len data)
    by (unfold DOC_HEADER_SIZE; lia).
  destruct (CheckSizeAndEnsure_some f _ g W Hm Hg)
    as (Wg & HUg & Hfit & HN & HG & _).
  pose proof Wg as (HL & HU & HS).
  assert (H64 : 2 ^ 63 < 2 ^ 64) by reflexivity.
  unfold DOC_MAX_ROOM, DOC_HEADER_SIZE in *.
  assert (HUf : UsedSize f = UsedSize g) by auto.
  rewrite HUf in Hfit |- *. set (id := UsedSize g) in *.
  set (n := len data) in *.
  destruct (room_field_ok g (2 * n) Wg) as (k & Eput & Ls & _);
    [lia | lia | lia |].
  fold id in Eput.
  set (s := room_field g (2 * n)) in *.
  assert (Lz : len s = 10) by (unfold len; lia).
  (* the stores on the way *)
  set (g1 := with_UsedSize g (id + 11 + 2 * n)).
  set (B1 := splice (Buf g) id [1]).
  set (B2 := splice B1 (id + 1) s).
  set (B3 := splice B2 (id + 11) data).
  set (B4 := splice B3 (id + 11 + n) (repeat 32 (Z.to_nat n))).
  assert (L1 : len B1 = len (Buf g)) by (apply len_splice; lens).
  assert (L2 : len B2 = len (Buf g))
    by (unfold B2; rewrite len_splice; lia).
  assert (L3 : len B3 = len (Buf g))
    by (unfold B3; rewrite len_splice; fold n; lia).
  assert (S1 : set_index id 1 g1 = (Done tt, with_Buf g1 B1))
    by (apply set_index_run; simpl; lia).
  assert (S2 : put_uvarint (id + 1) (id + 11) (2 * n) (with_Buf g1 B1)
               = (Done tt, with_Buf g1 B2)).
  { replace (id + 11) with (id + 1 + 10) by lia.
    rewrite put_uvarint_run; cbn [Buf with_Buf]; try lia.
    rewrite with_Buf_twice. unfold B2. do 3 f_equal.
    unfold B1. rewrite sub_splice_disjoint; lens.
    replace (id + 1 + 10) with (id + 11) by lia.
    rewrite Eput. reflexivity. }
  assert (S3 : copy_to (id + 11) (id + 11 + n) data (with_Buf g1 B2)
               = (Done tt, with_Buf g1 B3)).
  { rewrite copy_to_run; cbn [Buf with_Buf]; fold n; try lia.
    reflexivity. }
  assert (S4 : fill_padding (padding_fuel (id + 11 + n) (id + 11 + 2 * n))
                            (id + 11 + n) (id + 11 + 2 * n) (with_Buf g1 B3)
               = (Done tt, with_Buf g1 B4)).
  { rewrite fill_padding_run; cbn [Buf with_Buf]; try lia.
    - rewrite with_Buf_twice. unfold B4. do 4 f_equal. lia.
    - apply padding_fuel_enough. lia. }
  unfold Insert. fold n.
  rewrite (u64_small n) by lia.
  replace (n + n) with (2 * n) by lia.
  unfold DOC_MAX_ROOM, DOC_HEADER_SIZE.
  rewrite !u64_small by lia.
  destruct (Z.gtb_spec (2 * n) (512 * 1024 * 1)); [lia|].
  unfold bind, file.
  rewrite (ensure_step f _ g Hg).
  unfold set_UsedSize. rewrite !HUf. fold id.
  rewrite !u64_small by lia.
  replace (id + (1 + 10)) with (id + 11) by lia.
  fold g1. rewrite S1, S2, S3, S4.
  unfold ret. f_equal.
  unfold inserted, slot_bytes, DOC_HEADER_SIZE, DOC_VALID. fold id n s.
  unfold g1, with_Buf, with_UsedSize. cbn [Name UsedSize Size Growth].
  f_equal; try lia.
  unfold B4, B3, B2, B1.
  replace (id + 1) with (id + len [1]) by lens.
  rewrite splice_splice by lens.
  replace (id + 11) with (id + len ([1] ++ s)) by lens.
  rewrite splice_splice by (fold n; lens).
  replace (id + len ([1] ++ s) + n) with (id + len (([1] ++ s) ++ data))
    by (rewrite (len_app _ data); fold n; lia).
  rewrite splice_splice by (fold n; lens; fold n; lia).
  f_equal. rewrite <- !app_assoc. simpl. do 4 f_equal.
  unfold n, len. lia.
Qed.

(** What Insert leaves in the store. *)
Section Inserted.

Variables (g : File) (data : list Z).
Hypothesis Wg : wf g.
Hypothesis Hlen : 2 * len data <= DOC_MAX_ROOM.
Hypothesis Hfit : UsedSize g + DOC_HEADER_SIZE + 2 * len data <= Size g.

Local Abbreviation id := (UsedSize g).
Local Abbreviation n := (len data).

Lemma len_slot_bytes : len (slot_bytes g data) = DOC_HEADER_SIZE + 2 * n.
Proof.
  pose proof Wg as (HL & HU & HS). pose proof (len_nonneg data).
  unfold DOC_MAX_ROOM, DOC_HEADER_SIZE in *.
  destruct (room_field_ok g (2 * len data) Wg) as (k & _ & Ls & _); try lia.
  unfold slot_bytes. rewrite len_app, len_cons, len_app, len_repeat.
  unfold len in *. lia.
Qed.

Lemma wf_inserted : wf (inserted g data).
Proof.
  pose proof Wg as (HL & HU & HS). pose proof (len_nonneg data).
  pose proof len_slot_bytes as Lb.
  unfold DOC_MAX_ROOM, DOC_HEADER_SIZE in *.
  unfold wf, inserted. cbn [Buf UsedSize Size].
  rewrite len_splice by lia. unfold DOC_HEADER_SIZE. lia.
Qed.

Lemma byte_at_inserted : byte_at (inserted g data) id = DOC_VALID.
Proof.
  pose proof Wg as (HL & HU & HS). pose proof (len_nonneg data).
  pose proof len_slot_bytes as Lb.
  unfold DOC_MAX_ROOM, DOC_HEADER_SIZE in *.
  unfold byte_at, inserted. cbn [Buf].
  unfold slot_bytes in *. rewrite <- app_comm_cons in *.
  apply nth_splice_head ; lia.
Qed.

Lemma room_at_inserted : room_at (inserted g data) id = 2 * n.
Proof.
  pose proof Wg as (HL & HU & HS). pose proof (len_nonneg data).
  pose proof len_slot_bytes as Lb.
  unfold DOC_MAX_ROOM, DOC_HEADER_SIZE in *.
  destruct (room_field_ok g (2 * len data) Wg) as (k & _ & Ls & Dec);
    try lia.
  unfold room_at, inserted. cbn [Buf].
  rewrite sub_splice_inside by lia.
  replace (id + 1 - id) with 1 by lia.
  replace (id + 11 - id) with 11 by lia.
  unfold slot_bytes, sub. simpl skipn.
  rewrite firstn_app.
  replace (Z.to_nat (11 - 1)) with (length (room_field g (2 * len data)))
    by lia.
  rewrite firstn_all, Nat.sub_diag. simpl firstn. rewrite app_nil_r.
  exact Dec.
Qed.

Lemma payload_inserted :
  payload (inserted g data) id (2 * n) = data ++ repeat 32 (length data).
Proof.
  pose proof Wg as (HL & HU & HS). pose proof (len_nonneg data).
  pose proof len_slot_bytes as Lb.
  unfold DOC_MAX_ROOM, DOC_HEADER_SIZE in *.
  destruct (room_field_ok g (2 * len data) Wg) as (k & _ & Ls & Dec);
    try lia.
  unfold payload, inserted, DOC_HEADER_SIZE. cbn [Buf].
  rewrite sub_splice_inside by lia.
  replace (id + (1 + 10) - id) with 11 by lia.
  replace (id + (1 + 10) + 2 * len data - id) with (11 + 2 * len data)
    by lia.
  unfold slot_bytes, sub.
  replace (Z.to_nat 11)
    with (length (DOC_VALID :: room_field g (2 * len data)))
    by (cbn [length]; lia).
  rewrite skipn_app, skipn_all, Nat.sub_diag. cbn [skipn app].
  apply firstn_all2. rewrite length_app, repeat_length.
  unfold len. lia.
Qed.

(** The bytes before the new slot stay. *)
Lemma byte_at_inserted_before i :
  0 <= i < id -> byte_at (inserted g data) i = byte_at g i.
Proof.
  pose proof Wg as (HL & HU & HS). pose proof (len_nonneg data).
  pose proof len_slot_bytes as Lb.
  unfold DOC_MAX_ROOM, DOC_HEADER_SIZE in *.
  intros Hi. unfold byte_at, inserted. cbn [Buf].
  apply nth_splice_other ; lia.
Qed.

End Inserted.

End InsertFacts.

(** ** Update, step by step *)

Module UpdateFacts.
Import Go GoFacts binary binaryFacts StepFacts ColFacts ReadFacts InsertFacts.

Lemma update_absent_dec f id :
  wf f ->
  update_absent f id \/
  (out_of_bounds f id = false /\ byte_at f id = DOC_VALID
   /\ room_at f id <= DOC_MAX_ROOM /\ id + room_at f id < UsedSize f).
Proof.
  intros W. unfold update_absent.
  destruct (out_of_bounds f id); [left; left; reflexivity|].
  destruct (Z.eq_dec (byte_at f id) DOC_VALID);
    [|left; right; left; assumption].
  destruct (Z_gt_le_dec (room_at f id) DOC_MAX_ROOM);
    [left; right; right; left; assumption|].
  destruct (Z_ge_lt_dec (id + room_at f id) (UsedSize f));
    [left; right; right; right; assumption|].
  right. auto.
Qed.

(** Update reports a missing document under [update_absent]. *)
Lemma Update_absent_run f id data :
  wf f -> 0 <= id -> len data <= DOC_MAX_ROOM -> update_absent f id ->
  Update id data f = (Done (0, Some (ErrNotExist id (Name f))), f).
Proof.
  intros W Hid Hlen A. pose proof W as (HL & HU & HS).
  pose proof (len_nonneg data) as Hd.
  assert (H64 : 2 ^ 63 < 2 ^ 64) by reflexivity.
  unfold Update. unfold DOC_MAX_ROOM in Hlen |- *.
  rewrite (u64_small (len data)) by lia.
  destruct (Z.gtb_spec (len data) (512 * 1024 * 1)); [lia|].
  unfold bind, file.
  destruct (out_of_bounds f id) eqn:B; [reflexivity|].
  apply (out_of_bounds_false f id W) in B. unfold DOC_HEADER_SIZE in *.
  rewrite index_run by lia. fold (byte_at f id).
  destruct (Z.eqb_spec (byte_at f id) DOC_VALID) as [E|NE];
    [|reflexivity].
  cbn [negb].
  rewrite !u64_small by lia. rewrite slice_run by lia.
  fold (room_at f id). pose proof (room_at_nonneg f id) as Hr.
  destruct (Z.gtb_spec (room_at f id) (512 * 1024 * 1)) as [|Hmax];
    [reflexivity|].
  rewrite u64_small by lia. cbn [orb].
  destruct (Z.geb_spec (id + room_at f id) (UsedSize f)) as [|Hin];
    [reflexivity|].
  exfalso. unfold update_absent, DOC_MAX_ROOM, DOC_HEADER_SIZE in A.
  destruct A as [A|[A|[A|A]]]; try lia; try contradiction.
  assert (out_of_bounds f id = false)
    by (apply out_of_bounds_false; unfold DOC_HEADER_SIZE; auto).
  congruence.
Qed.

(** Otherwise it overwrites, or deletes and inserts. *)
Lemma Update_present_run f id data :
  wf f -> 0 <= id -> len data <= DOC_MAX_ROOM -> ~ update_absent f id ->
  Update id data f =
  if len data <=? room_at f id
  then overwrite id data (room_at f id) f
  else (Delete id ;; Insert data) f.
Proof.
  intros W Hid Hlen A. pose proof W as (HL & HU & HS).
  pose proof (len_nonneg data) as Hd.
  assert (H64 : 2 ^ 63 < 2 ^ 64) by reflexivity.
  destruct (update_absent_dec f id W) as [|(B & E & Hmax & Hin)];
    [contradiction|].
  unfold Update, overwrite. unfold DOC_MAX_ROOM in Hlen, Hmax |- *.
  rewrite (u64_small (len data)) by lia.
  destruct (Z.gtb_spec (len data) (512 * 1024 * 1)); [lia|].
  unfold bind at 1. unfold file. rewrite B.
  apply (out_of_bounds_false f id W) in B. unfold DOC_HEADER_SIZE in *.
  unfold bind at 1. rewrite index_run by lia. fold (byte_at f id).
  rewrite E. cbn [negb Z.eqb DOC_VALID Pos.eqb].
  unfold bind at 1.
  rewrite !u64_small by lia. rewrite slice_run by lia.
  fold (room_at f id). pose proof (room_at_nonneg f id) as Hr.
  destruct (Z.gtb_spec (room_at f id) (512 * 1024 * 1)); [lia|].
  rewrite !u64_small by lia. cbn [orb].
  destruct (Z.geb_spec (id + room_at f id) (UsedSize f)); [lia|].
  destruct (len data <=? room_at f id); reflexivity.
Qed.

(** The update in place of a valid slot. *)
Lemma overwrite_run f id data room :
  wf f -> 0 <= id -> len data <= room ->
  id + DOC_HEADER_SIZE + room <= Size f ->
  overwrite id data room f = (Done (id, None), overwritten f id data room).
Proof.
  intros W Hid Hlen Hend. pose proof W as (HL & HU & HS).
  pose proof (len_nonneg data) as Hd.
  unfold overwrite, overwritten, DOC_HEADER_SIZE in *. unfold bind.
  rewrite copy_to_run by lia.
  rewrite fill_padding_run; cbn [Buf with_Buf];
    rewrite ?len_splice; try lia.
  - rewrite with_Buf_twice. unfold ret. do 2 f_equal.
    replace (id + (1 + 10) + len data)
      with (id + (1 + 10) + len data + 0) at 1 by lia.
    replace (id + (1 + 10) + room - (id + (1 + 10) + len data))
      with (room - len data) by lia.
    rewrite Z.add_0_r. apply splice_splice; [lia|].
    rewrite len_repeat. lia.
  - apply padding_fuel_enough. lia.
Qed.

End UpdateFacts.

(** ** Outcomes of Insert and Update *)

Module OutcomeFacts.
Import Go GoFacts binary binaryFacts StepFacts ColFacts ReadFacts InsertFacts
       UpdateFacts.

Lemma bind_Done {A B} (m : M A) (k : A -> M B) f b f2 :
  bind m k f = (Done b, f2) ->
  exists a f1, m f = (Done a, f1) /\ k a f1 = (Done b, f2).
Proof.
  unfold bind. destruct (m f) as [[a | |] f1]; intros H;
    [eauto | discriminate | discriminate].
Qed.

Lemma Insert_too_large f data :
  len data < 2 ^ 63 -> 2 * len data > DOC_MAX_ROOM ->
  Insert data f = (Done (0, Some ErrTooLarge), f).
Proof.
  intros Hint Hbig. pose proof (len_nonneg data).
  assert (2 ^ 64 = 2 * 2 ^ 63) by reflexivity.
  unfold Insert.
  rewrite (u64_small (len data)) by lia.
  rewrite (u64_small (len data + len data)) by lia.
  destruct (Z.gtb_spec (len data + len data) DOC_MAX_ROOM); [reflexivity|].
  lia.
Qed.

(** Insert fails with "too large" only. *)
Lemma Insert_error f data id e f' :
  Insert data f = (Done (id, Some e), f') -> e = ErrTooLarge.
Proof.
  unfold Insert.
  destruct (_ >? DOC_MAX_ROOM).
  - unfold ret. intros [= _ <- _]. reflexivity.
  - intros H.
    repeat (apply bind_Done in H; destruct H as (? & ? & _ & H)).
    discriminate.
Qed.

Lemma overwrite_error id data room f x e f' :
  overwrite id data room f <> (Done (x, Some e), f').
Proof.
  unfold overwrite. intros H.
  repeat (apply bind_Done in H; destruct H as (? & ? & _ & H)).
  discriminate.
Qed.

(** The buffer grows or not by its sizes, not by its bytes. *)
Lemma CheckSizeAndEnsure_sizes f f' more :
  UsedSize f' = UsedSize f -> Size f' = Size f -> Growth f' = Growth f ->
  CheckSizeAndEnsure f more <> None -> CheckSizeAndEnsure f' more <> None.
Proof.
  intros HU HS HG. unfold CheckSizeAndEnsure, increments.
  rewrite HU, HS, HG.
  destruct (_ <=? Size f); [discriminate|].
  destruct (Growth f <=? 0); [auto|].
  destruct (_ <? 2 ^ 63); [discriminate | auto].
Qed.

Lemma Insert_panic f data :
  len data < 2 ^ 63 -> 2 * len data <= DOC_MAX_ROOM ->
  CheckSizeAndEnsure f (DOC_HEADER_SIZE + 2 * len data) = None ->
  Insert data f = (Panic, f).
Proof.
  intros Hint Hlen Hg. pose proof (len_nonneg data).
  unfold Insert. unfold DOC_MAX_ROOM, DOC_HEADER_SIZE in *.
  rewrite (u64_small (len data)) by lia.
  replace (len data + len data) with (2 * len data) by lia.
  rewrite !u64_small by lia.
  destruct (Z.gtb_spec (2 * len data) (512 * 1024 * 1)); [lia|].
  unfold bind at 1. unfold file. unfold bind at 1.
  unfold CheckSize, ensure.
  destruct (UsedSize f + (1 + 10 + 2 * len data) <=? Size f) eqn:E.
  - unfold CheckSizeAndEnsure in Hg. rewrite E in Hg. discriminate.
  - cbn [negb]. now rewrite Hg.
Qed.

End OutcomeFacts.

(** ** Valid slots *)

Module SlotFacts.
Import Go GoFacts binary binaryFacts StepFacts ColFacts ReadFacts InsertFacts
       UpdateFacts OutcomeFacts.

Lemma valid_slot_in_bounds f id room :
  wf f -> valid_slot f id room -> out_of_bounds f id = false.
Proof.
  intros W (H0 & H1 & H2 & _). apply out_of_bounds_false; auto.
Qed.

Lemma valid_slot_present f id room :
  wf f -> valid_slot f id room -> ~ update_absent f id.
Proof.
  intros W V A. pose proof (valid_slot_in_bounds f id room W V) as B.
  destruct V as (H0 & H1 & H2 & H3 & H4 & H5 & H6).
  unfold update_absent, DOC_HEADER_SIZE in *.
  destruct A as [A|[A|[A|A]]]; try congruence; lia.
Qed.

Lemma byte_at_deleted_slot f id room :
  wf f -> valid_slot f id room -> byte_at (deleted f id) id = DOC_INVALID.
Proof.
  intros W V. pose proof (valid_slot_in_bounds f id room W V) as B.
  pose proof W as (HL & HU & HS).
  destruct V as (H0 & H1 & H2 & H3 & H4 & H5 & H6).
  unfold deleted, DOC_HEADER_SIZE in *. rewrite B, H3. cbn [Z.eqb DOC_VALID Pos.eqb].
  unfold byte_at. cbn [Buf with_Buf]. apply nth_splice_same; lia.
Qed.

(** The store that Insert reaches when the buffer has or gets the room. *)
Lemma Insert_grows_run f data :
  wf f -> 2 * len data <= DOC_MAX_ROOM ->
  CheckSizeAndEnsure f (DOC_HEADER_SIZE + 2 * len data) <> None ->
  exists g,
    CheckSizeAndEnsure f (DOC_HEADER_SIZE + 2 * len data) = Some g
    /\ Insert data f = (Done (UsedSize f, None), inserted g data)
    /\ wf g /\ UsedSize g = UsedSize f
    /\ UsedSize g + DOC_HEADER_SIZE + 2 * len data <= Size g
    /\ (forall i, 0 <= i < len (Buf f) -> byte_at g i = byte_at f i).
Proof.
  intros W Hlen Hg. pose proof (len_nonneg data).
  destruct (CheckSizeAndEnsure f _) as [g|] eqn:E; [|contradiction].
  exists g. split; [reflexivity|].
  split; [now apply Insert_run|].
  assert (Hm : 0 <= DOC_HEADER_SIZE + 2 * len data)
    by (unfold DOC_HEADER_SIZE; lia).
  destruct (CheckSizeAndEnsure_some f _ g W Hm E)
    as (Wg & HUg & Hfit & _ & _ & z & HB).
  split; [assumption|]. split; [assumption|].
  split; [unfold DOC_HEADER_SIZE in *; lia|].
  intros i Hi. unfold byte_at. rewrite HB.
  apply app_nth1. unfold len in Hi. lia.
Qed.

(** Reading the slot that Insert has made. *)
Lemma Read_inserted g data :
  wf g -> 0 < len data -> 2 * len data <= DOC_MAX_ROOM ->
  UsedSize g + DOC_HEADER_SIZE + 2 * len data < Size g ->
  Read (UsedSize g) (inserted g data)
  = (Done (Some (data ++ repeat 32 (length data))), inserted g data).
Proof.
  intros Wg Hpos Hlen Hend. pose proof Wg as (HL & HU & HS).
  assert (Hfit : UsedSize g + DOC_HEADER_SIZE + 2 * len data <= Size g)
    by lia.
  rewrite (Read_valid_slot _ _ (2 * len data)).
  - now rewrite payload_inserted.
  - now apply wf_inserted.
  - unfold valid_slot. rewrite byte_at_inserted, room_at_inserted by assumption.
    unfold inserted, DOC_HEADER_SIZE in *. cbn [UsedSize].
    repeat split; try lia.
  - unfold inserted. cbn [Size]. lia.
Qed.

(** An update in place keeps the header and leaves document and padding in
    the payload. *)
Lemma overwritten_slot f id data room :
  wf f -> valid_slot f id room -> len data <= room ->
  wf (overwritten f id data room)
  /\ valid_slot (overwritten f id data room) id room
  /\ payload (overwritten f id data room) id room
     = data ++ repeat 32 (Z.to_nat (room - len data)).
Proof.
  intros W V Hlen. pose proof W as (HL & HU & HS).
  pose proof (len_nonneg data) as Hd.
  destruct V as (H0 & H1 & H2 & H3 & H4 & H5 & H6).
  unfold DOC_HEADER_SIZE in *.
  set (new := data ++ repeat 32 (Z.to_nat (room - len data))).
  assert (Ln : len new = room)
    by (unfold new; rewrite len_app, len_repeat; lia).
  assert (Wo : wf (overwritten f id data room)).
  { apply wf_with_Buf; [assumption|].
    apply len_splice; unfold DOC_HEADER_SIZE; fold new; lia. }
  split; [assumption|]. split.
  - unfold valid_slot, byte_at, room_at, overwritten, DOC_HEADER_SIZE.
    cbn [Buf with_Buf UsedSize]. fold new.
    rewrite nth_splice_other by lia.
    rewrite sub_splice_disjoint by lia.
    repeat split; assumption || lia.
  - unfold payload, overwritten, DOC_HEADER_SIZE. cbn [Buf with_Buf].
    fold new. apply sub_splice_same; lia.
Qed.

(** What Read decides on: it returns bytes exactly for an id in bounds
    with a valid flag, a room of at most DOC_MAX_ROOM and a payload that
    ends strictly before Size. *)
Lemma Read_contract f id :
  wf f -> 0 <= id ->
  (exists doc, Read id f = (Done (Some doc), f))
  <-> (out_of_bounds f id = false /\ byte_at f id = DOC_VALID
       /\ room_at f id <= DOC_MAX_ROOM
       /\ id + DOC_HEADER_SIZE + room_at f id < Size f).
Proof.
  intros W Hid. rewrite Read_run by assumption. unfold read_result.
  destruct (out_of_bounds f id).
  { split; [intros (doc & [=]) | intros ([=] & _)]. }
  destruct (Z.eqb_spec (byte_at f id) DOC_VALID) as [E | NE]; cbn [negb].
  2:{ split; [intros (doc & [=]) | intros (_ & E & _); contradiction]. }
  destruct (Z.gtb_spec (room_at f id) DOC_MAX_ROOM).
  { split; [intros (doc & [=]) | intros (_ & _ & M & _); lia]. }
  destruct (Z.geb_spec (id + DOC_HEADER_SIZE + room_at f id) (Size f)).
  { split; [intros (doc & [=]) | intros (_ & _ & _ & M); lia]. }
  split; [intros _; repeat split; assumption || lia | intros _; eauto].
Qed.

(** A valid slot that ends exactly at Size reads as nil. *)
Lemma Read_slot_ending_at_size f id room :
  wf f -> valid_slot f id room -> id + DOC_HEADER_SIZE + room = Size f ->
  Read id f = (Done None, f).
Proof.
  intros W (H0 & H1 & H2 & H3 & H4 & H5 & H6) Hend.
  rewrite Read_run by assumption. unfold read_result.
  destruct (out_of_bounds f id); [reflexivity|].
  destruct (negb _); [reflexivity|].
  destruct (_ >? _); [reflexivity|].
  rewrite H4.
  destruct (Z.geb_spec (id + DOC_HEADER_SIZE + room) (Size f));
    [reflexivity | lia].
Qed.

(** As does a document that Insert has just put at the very end of the
    buffer. *)
Lemma Insert_filling_the_buffer f data :
  wf f -> 0 < len data -> 2 * len data <= DOC_MAX_ROOM ->
  UsedSize f + DOC_HEADER_SIZE + 2 * len data = Size f ->
  Insert data f = (Done (UsedSize f, None), inserted f data)
  /\ Read (UsedSize f) (inserted f data) = (Done None, inserted f data).
Proof.
  intros W Hpos Hlen Hfull. pose proof W as (HL & HU & HS).
  assert (E : CheckSizeAndEnsure f (DOC_HEADER_SIZE + 2 * len data) = Some f).
  { unfold CheckSizeAndEnsure.
    destruct (Z.leb_spec (UsedSize f + (DOC_HEADER_SIZE + 2 * len data))
                         (Size f)); [reflexivity | lia]. }
  split; [now apply Insert_run|].
  apply (Read_slot_ending_at_size _ _ (2 * len data)).
  - apply wf_inserted; assumption || lia.
  - unfold valid_slot.
    rewrite byte_at_inserted, room_at_inserted by (assumption || lia).
    unfold inserted, DOC_HEADER_SIZE in *. cbn [UsedSize].
    repeat split; lia.
  - unfold inserted. cbn [Size]. lia.
Qed.

End SlotFacts.

(** ** What the operations keep: well-formedness and UsedSize *)

Module KeepFacts.
Import Go GoFacts binary binaryFacts StepFacts ColFacts ReadFacts InsertFacts
       UpdateFacts OutcomeFacts SlotFacts.

Lemma steady_ret {A} (a : A) : steady (ret a).
Proof. intros f W. auto. Qed.

Lemma steady_out_of_fuel {A} : steady (@out_of_fuel A).
Proof. intros f W. auto. Qed.

Lemma steady_file : steady file.
Proof. intros f W. auto. Qed.

Lemma steady_bind {A B} (m : M A) (k : A -> M B) :
  steady m -> (forall a, steady (k a)) -> steady (bind m k).
Proof.
  intros Hm Hk f W. unfold bind.
  destruct (Hm f W) as [W1 U1].
  destruct (m f) as [[a | |] f1]; cbn [snd] in *; auto.
  destruct (Hk a f1 W1) as [W2 U2]. split; [assumption | congruence].
Qed.

Lemma steady_index i : steady (index i).
Proof. intros f W. unfold index. destruct (index_ok _ _); auto. Qed.

Lemma steady_slice low high : steady (slice low high).
Proof. intros f W. unfold slice. destruct (slice_ok _ _ _); auto. Qed.

Lemma steady_string_slice s low high : steady (string_slice s low high).
Proof. intros f W. unfold string_slice. destruct (slice_ok _ _ _); auto. Qed.

Lemma steady_set_index i v : steady (set_index i v).
Proof.
  intros f W. unfold set_index.
  destruct (index_ok (Buf f) i) eqn:E; [|auto].
  apply index_ok_inv in E. cbn [snd]. split; [|reflexivity].
  apply wf_with_Buf; [assumption|]. apply len_splice; [lia|].
  rewrite len_cons, len_nil. lia.
Qed.

Lemma length_copy {A} (dst src : list A) : length (copy dst src) = length dst.
Proof.
  unfold copy. rewrite length_app, length_firstn, length_skipn. lia.
Qed.

Lemma steady_copy_to low high src : steady (copy_to low high src).
Proof.
  intros f W. unfold copy_to, on_slice.
  destruct (slice_ok (Buf f) low high) eqn:E; [|auto].
  apply slice_ok_inv in E. cbn [snd]. split; [|reflexivity].
  apply wf_with_Buf; [assumption|].
  assert (L : len (copy (sub (Buf f) low high) src) = high - low).
  { unfold len. rewrite length_copy, length_sub; lia. }
  apply len_splice; lia.
Qed.

Lemma steady_fill_padding fuel : forall a b, steady (fill_padding fuel a b).
Proof.
  induction fuel as [| k IH]; intros a b.
  - apply steady_out_of_fuel.
  - rewrite fill_padding_S.
    destruct (a <? b); [|apply steady_ret].
    cbv zeta.
    destruct (u64 (a + LEN_PADDING) >=? b);
      (apply steady_bind; [apply steady_string_slice|]; intros pad;
       apply steady_bind; [apply steady_copy_to|]; intros _; apply IH).
Qed.

Lemma steady_growing {A} (m : M A) : steady m -> growing m.
Proof. intros H f W. destruct (H f W). split; [assumption | lia]. Qed.

Lemma growing_bind {A B} (m : M A) (k : A -> M B) :
  growing m -> (forall a, growing (k a)) -> growing (bind m k).
Proof.
  intros Hm Hk f W. unfold bind.
  destruct (Hm f W) as [W1 U1].
  destruct (m f) as [[a | |] f1]; cbn [snd] in *; auto.
  destruct (Hk a f1 W1) as [W2 U2]. split; [assumption | lia].
Qed.

Lemma steady_Delete id : steady (Delete id).
Proof.
  unfold Delete. apply steady_bind; [apply steady_file|]. intros f.
  destruct (out_of_bounds f id); [apply steady_ret|].
  apply steady_bind; [apply steady_index|]. intros v.
  destruct (v =? DOC_VALID); [apply steady_set_index | apply steady_ret].
Qed.

Lemma growing_Insert data : len data < 2 ^ 63 -> growing (Insert data).
Proof.
  intros Hint f W. pose proof (len_nonneg data) as Hd.
  destruct (Z_gt_le_dec (2 * len data) DOC_MAX_ROOM) as [Big | Fit].
  - rewrite Insert_too_large by assumption. cbn [snd].
    split; [assumption | lia].
  - destruct (CheckSizeAndEnsure f (DOC_HEADER_SIZE + 2 * len data))
      as [g|] eqn:E.
    + rewrite (Insert_run f data g W Fit E). cbn [snd].
      assert (Hm : 0 <= DOC_HEADER_SIZE + 2 * len data)
        by (unfold DOC_HEADER_SIZE; lia).
      destruct (CheckSizeAndEnsure_some f _ g W Hm E)
        as (Wg & HUg & Hfit & _).
      split.
      * apply wf_inserted; [assumption | assumption | lia].
      * unfold inserted, DOC_HEADER_SIZE. cbn [UsedSize]. lia.
    + rewrite Insert_panic by assumption. cbn [snd].
      split; [assumption | lia].
Qed.

Lemma growing_Update id data : len data < 2 ^ 63 -> growing (Update id data).
Proof.
  intros Hint. unfold Update. cbv zeta.
  destruct (_ >? DOC_MAX_ROOM); [apply steady_growing, steady_ret|].
  apply growing_bind; [apply steady_growing, steady_file|]. intros f.
  destruct (out_of_bounds f id); [apply steady_growing, steady_ret|].
  apply growing_bind; [apply steady_growing, steady_index|]. intros v.
  destruct (negb (v =? DOC_VALID)); [apply steady_growing, steady_ret|].
  apply growing_bind; [apply steady_growing, steady_slice|]. intros hdr.
  destruct (_ || _); [apply steady_growing, steady_ret|].
  destruct (_ <=? _).
  - apply steady_growing.
    apply steady_bind; [apply steady_copy_to|]. intros _.
    apply steady_bind; [apply steady_fill_padding|]. intros _.
    apply steady_ret.
  - apply growing_bind; [apply steady_growing, steady_Delete|]. intros _.
    now apply growing_Insert.
Qed.

Lemma growing_exec o f :
  op_ok o -> wf f -> wf (exec o f) /\ UsedSize f <= UsedSize (exec o f).
Proof.
  intros Hok W. destruct o as [data | id data | id]; cbn [exec op_ok] in *.
  - now apply growing_Insert.
  - now apply growing_Update.
  - exact (steady_growing _ (steady_Delete id) f W).
Qed.

End KeepFacts.

(** ** The scan *)

Module ScanFacts.
Import Go GoFacts binary binaryFacts StepFacts ColFacts ReadFacts InsertFacts
       UpdateFacts OutcomeFacts SlotFacts.

Lemma flag_dec b : {flag b} + {b <> DOC_VALID /\ b <> DOC_INVALID}.
Proof.
  unfold flag.
  destruct (Z.eq_dec b DOC_VALID); [left; now left|].
  destruct (Z.eq_dec b DOC_INVALID); [left; now right | right; auto].
Qed.

Lemma resync_S k addr :
  resync (S k) addr =
  (b <- index addr ;;
   f <- file ;;
   if negb (b =? DOC_VALID) && negb (b =? DOC_INVALID)
      && (addr <? u64 (UsedSize f - DOC_HEADER_SIZE))
   then resync k (u64 (addr + 1))
   else ret addr).
Proof. reflexivity. Qed.

(** The inner loop goes on byte by byte and stops at the first byte that is
    a validity flag, or at the end of the scan. *)
Lemma resync_total f :
  wf f -> DOC_HEADER_SIZE <= UsedSize f ->
  forall n start fuel,
    0 <= start -> start <= UsedSize f - DOC_HEADER_SIZE ->
    Z.to_nat (UsedSize f - DOC_HEADER_SIZE - start) = n ->
    (n < fuel)%nat ->
    exists d,
      resync fuel start f = (Done d, f)
      /\ start <= d <= UsedSize f - DOC_HEADER_SIZE
      /\ (forall i, start <= i < d -> ~ flag (byte_at f i))
      /\ (flag (byte_at f d) \/ d = UsedSize f - DOC_HEADER_SIZE).
Proof.
  intros W HU11. pose proof W as (HL & HU & HS).
  assert (H64 : 2 ^ 63 < 2 ^ 64) by reflexivity.
  unfold DOC_HEADER_SIZE in *.
  induction n as [| n IH]; intros start fuel H0 H1 Hn Hf;
    (destruct fuel as [| k]; [lia|]);
    rewrite resync_S; unfold bind, file;
    rewrite index_run by lia; fold (byte_at f start);
    unfold DOC_HEADER_SIZE; rewrite (u64_small (UsedSize f - (1 + 10))) by lia.
  - (* at the end of the scan *)
    destruct (Z.ltb_spec start (UsedSize f - (1 + 10))); [lia|].
    rewrite andb_false_r. exists start. unfold ret.
    split; [reflexivity|]. split; [lia|]. split; [intros; lia|].
    right. lia.
  - destruct (Z.ltb_spec start (UsedSize f - (1 + 10))); [|lia].
    rewrite andb_true_r.
    destruct (flag_dec (byte_at f start)) as [Fl | [NV NI]].
    + exists start.
      assert (E : negb (byte_at f start =? DOC_VALID)
                  && negb (byte_at f start =? DOC_INVALID) = false).
      { destruct Fl as [-> | ->]; reflexivity. }
      rewrite E. unfold ret.
      split; [reflexivity|]. split; [lia|]. split; [intros; lia|].
      now left.
    + destruct (Z.eqb_spec (byte_at f start) DOC_VALID); [contradiction|].
      destruct (Z.eqb_spec (byte_at f start) DOC_INVALID); [contradiction|].
      cbn [negb andb]. rewrite u64_small by lia.
      destruct (IH (start + 1) k) as (d & R & Hd & Hmin & Hstop); try lia.
      exists d. split; [assumption|]. split; [lia|]. split; [|assumption].
      intros i Hi. destruct (Z.eq_dec i start) as [-> | Ne].
      * unfold flag. tauto.
      * apply Hmin. lia.
Qed.

(** So it stops at [d] when [d] is the first such place. *)
Lemma resync_stops_at f start d fuel :
  wf f -> DOC_HEADER_SIZE <= UsedSize f ->
  0 <= start -> start <= d -> d <= UsedSize f - DOC_HEADER_SIZE ->
  (forall i, start <= i < d -> ~ flag (byte_at f i)) ->
  flag (byte_at f d) \/ d = UsedSize f - DOC_HEADER_SIZE ->
  (Z.to_nat (UsedSize f) <= fuel)%nat ->
  resync fuel start f = (Done d, f).
Proof.
  intros W HU11 H0 H1 H2 Hmin Hstop Hf. unfold DOC_HEADER_SIZE in *.
  destruct (resync_total f W HU11
              (Z.to_nat (UsedSize f - DOC_HEADER_SIZE - start)) start fuel)
    as (d' & R & Hd' & Hmin' & Hstop');
    unfold DOC_HEADER_SIZE; try lia.
  rewrite R. do 2 f_equal. unfold DOC_HEADER_SIZE in *.
  destruct (Z.lt_trichotomy d' d) as [L | [E | G]]; [|assumption|].
  - exfalso. destruct Hstop' as [Fl | E]; [|lia].
    apply (Hmin d'); [lia | assumption].
  - exfalso. destruct Hstop as [Fl | E]; [|lia].
    apply (Hmin' d); [lia | assumption].
Qed.

Lemma slots_span f k a vs b :
  slots f k a vs b -> wf f ->
  a + DOC_HEADER_SIZE * Z.of_nat k <= b
  /\ ((0 < k)%nat ->
      a + DOC_HEADER_SIZE * (Z.of_nat k - 1) < UsedSize f - DOC_HEADER_SIZE).
Proof.
  intros S W.
  induction S as [a | k a room doc vs b B E R M Hend P S IH
                    | k a room vs b B E R M S IH].
  - split; [unfold DOC_HEADER_SIZE; lia | lia].
  - apply (out_of_bounds_false f a W) in B.
    pose proof (room_at_nonneg f a). unfold DOC_HEADER_SIZE in *.
    destruct IH as [I1 I2]. split; [lia|]. intros _.
    destruct k; [lia|]. specialize (I2 ltac:(lia)). lia.
  - apply (out_of_bounds_false f a W) in B.
    pose proof (room_at_nonneg f a). unfold DOC_HEADER_SIZE in *.
    destruct IH as [I1 I2]. split; [lia|]. intros _.
    destruct k; [lia|]. specialize (I2 ltac:(lia)). lia.
Qed.

Section Scan.

Context {V : Type} (visit : V -> Z -> list Z -> bool * V).
Hypothesis goes_on : forall v id doc, fst (visit v id doc) = true.

Lemma ForAll_from_S k addr v log :
  ForAll_from visit (S k) addr v log =
  (f <- file ;;
   if out_of_bounds f addr then ret (v, log)
   else
     validity <- index addr ;;
     hdr <- slice (u64 (addr + 1)) (u64 (addr + 11)) ;;
     let room := fst (Uvarint hdr) in
     if (negb (validity =? DOC_VALID) && negb (validity =? DOC_INVALID))
        || (room >? DOC_MAX_ROOM)
     then
       let log := log ++ [LogCorrupted addr (Name f)] in
       addr' <- resync (S (Z.to_nat (UsedSize f))) (u64 (addr + 1)) ;;
       let log := log ++ [LogSkipped addr'] in
       ForAll_from visit k addr' v log
     else
       if validity =? DOC_VALID then
         doc <- slice (u64 (addr + DOC_HEADER_SIZE))
                      (u64 (addr + DOC_HEADER_SIZE + room)) ;;
         let '(continue, v') := visit v addr doc in
         if negb continue then ret (v', log)
         else ForAll_from visit k (u64 (addr + DOC_HEADER_SIZE + room)) v' log
       else ForAll_from visit k (u64 (addr + DOC_HEADER_SIZE + room)) v log).
Proof. reflexivity. Qed.

Lemma scan_end f k a v log :
  out_of_bounds f a = true ->
  ForAll_from visit (S k) a v log f = (Done (v, log), f).
Proof.
  intros B. rewrite ForAll_from_S. unfold bind, file. now rewrite B.
Qed.

(** Over slots with sound headers the scan calls the visitor on the valid
    ones, in their order. *)
Lemma scan_slots f k a vs b :
  wf f -> slots f k a vs b -> 0 <= a ->
  forall fuel v log,
    ForAll_from visit (k + fuel) a v log f
    = ForAll_from visit fuel b (visit_all visit v vs) log f.
Proof.
  intros W S. pose proof W as (HL & HU & HS).
  assert (H64 : 2 ^ 63 < 2 ^ 64) by reflexivity.
  induction S as [a | k a room doc vs b B E R M Hend P S IH
                    | k a room vs b B E R M S IH];
    intros Ha fuel v log.
  - reflexivity.
  - pose proof (room_at_nonneg f a) as Hr. rewrite R in Hr.
    cbn [Nat.add]. rewrite ForAll_from_S. unfold bind, file. rewrite B.
    apply (out_of_bounds_false f a W) in B.
    unfold DOC_HEADER_SIZE, DOC_MAX_ROOM in *.
    rewrite index_run by lia. fold (byte_at f a). rewrite E.
    rewrite !u64_small by lia. rewrite slice_run by lia.
    fold (room_at f a). rewrite R. cbv zeta.
    destruct (Z.gtb_spec room (512 * 1024 * 1)); [lia|].
    cbn [Z.eqb DOC_VALID Pos.eqb negb andb orb].
    rewrite !u64_small by lia. rewrite slice_run by lia.
    change (sub (Buf f) (a + (1 + 10)) (a + (1 + 10) + room))
      with (payload f a room).
    rewrite P. pose proof (goes_on v a doc) as G.
    destruct (visit v a doc) as [go v'] eqn:Ev. cbn [fst] in G. subst go.
    cbn [negb]. rewrite IH by lia.
    unfold visit_all. cbn [fold_left fst snd]. now rewrite Ev.
  - pose proof (room_at_nonneg f a) as Hr. rewrite R in Hr.
    cbn [Nat.add]. rewrite ForAll_from_S. unfold bind, file. rewrite B.
    apply (out_of_bounds_false f a W) in B.
    unfold DOC_HEADER_SIZE, DOC_MAX_ROOM in *.
    rewrite index_run by lia. fold (byte_at f a). rewrite E.
    rewrite !u64_small by lia. rewrite slice_run by lia.
    fold (room_at f a). rewrite R. cbv zeta.
    destruct (Z.gtb_spec room (512 * 1024 * 1)); [lia|].
    cbn [Z.eqb DOC_VALID DOC_INVALID Pos.eqb negb andb orb].
    rewrite !u64_small by lia. now rewrite IH by lia.
Qed.

(** At a corrupted header the scan logs the place, moves to the first byte
    behind it that may be a flag, logs that, and goes on from there. *)
Lemma scan_corrupted f k c d v log :
  wf f -> 0 <= c -> out_of_bounds f c = false -> unsound f c ->
  c < d -> d <= UsedSize f - DOC_HEADER_SIZE ->
  (forall i, c < i < d -> ~ flag (byte_at f i)) ->
  flag (byte_at f d) \/ d = UsedSize f - DOC_HEADER_SIZE ->
  ForAll_from visit (S k) c v log f
  = ForAll_from visit k d v
      ((log ++ [LogCorrupted c (Name f)]) ++ [LogSkipped d]) f.
Proof.
  intros W Hc B Un Hcd Hd Hmin Hstop. pose proof W as (HL & HU & HS).
  assert (H64 : 2 ^ 63 < 2 ^ 64) by reflexivity.
  rewrite ForAll_from_S. unfold bind at 1. unfold file. rewrite B.
  apply (out_of_bounds_false f c W) in B.
  unfold bind at 1. unfold DOC_HEADER_SIZE in *.
  rewrite index_run by lia. fold (byte_at f c).
  unfold bind at 1.
  rewrite !u64_small by lia. rewrite slice_run by lia.
  fold (room_at f c). cbv zeta.
  assert (T : (negb (byte_at f c =? DOC_VALID)
               && negb (byte_at f c =? DOC_INVALID))
              || (room_at f c >? DOC_MAX_ROOM) = true).
  { destruct Un as [[NV NI] | Big].
    - destruct (Z.eqb_spec (byte_at f c) DOC_VALID); [contradiction|].
      destruct (Z.eqb_spec (byte_at f c) DOC_INVALID); [contradiction|].
      reflexivity.
    - destruct (Z.gtb_spec (room_at f c) DOC_MAX_ROOM); [|lia].
      apply orb_true_r. }
  rewrite T. unfold bind.
  rewrite (resync_stops_at f (c + 1) d); unfold DOC_HEADER_SIZE;
    try assumption; try lia.
  - reflexivity.
  - intros i Hi. apply Hmin. lia.
Qed.

End Scan.

Lemma slots_start f k a vs b :
  slots f k a vs b -> (0 < k)%nat ->
  out_of_bounds f a = false /\ flag (byte_at f a).
Proof.
  intros S H. destruct S; [lia | | ]; (split; [assumption|]).
  - now left.
  - now right.
Qed.

End ScanFacts.

(** ** Stores that agree on a range of bytes *)

Module FrameFacts.
Import Go GoFacts binary binaryFacts StepFacts ColFacts ReadFacts InsertFacts
       UpdateFacts OutcomeFacts SlotFacts ScanFacts.

Lemma nth_error_byte (s : list Z) n :
  (n < length s)%nat -> nth_error s n = Some (nth n s 0).
Proof. intros H. now apply nth_error_nth'. Qed.

Lemma sub_same_bytes f f' low high :
  0 <= low -> low <= high -> high <= len (Buf f) -> high <= len (Buf f') ->
  same_bytes f f' low high ->
  sub (Buf f') low high = sub (Buf f) low high.
Proof.
  intros H0 H1 H2 H3 S. apply nth_error_ext. intros n.
  rewrite !nth_error_sub by lia.
  destruct (Nat.ltb_spec n (Z.to_nat (high - low))) as [L|L]; [|reflexivity].
  unfold len in *.
  rewrite !nth_error_byte by lia. f_equal.
  specialize (S (low + Z.of_nat n) ltac:(lia)). unfold byte_at in S.
  now replace (Z.to_nat (low + Z.of_nat n)) with (Z.to_nat low + n)%nat in S
    by lia.
Qed.

Lemma same_bytes_part f f' low high low' high' :
  same_bytes f f' low high -> low <= low' -> high' <= high ->
  same_bytes f f' low' high'.
Proof. intros S H1 H2 i Hi. apply S. lia. Qed.

Lemma same_bytes_refl f low high : same_bytes f f low high.
Proof. intros i _. reflexivity. Qed.

Lemma same_bytes_trans f g h low high :
  same_bytes f g low high -> same_bytes g h low high ->
  same_bytes f h low high.
Proof. intros S1 S2 i Hi. rewrite S2, S1 by assumption. reflexivity. Qed.

Lemma room_at_same f f' id :
  0 <= id -> id + 11 <= len (Buf f) -> id + 11 <= len (Buf f') ->
  same_bytes f f' (id + 1) (id + 11) ->
  room_at f' id = room_at f id.
Proof.
  intros H0 H1 H2 S. unfold room_at.
  now rewrite (sub_same_bytes f f') by (assumption || lia).
Qed.

Lemma payload_same f f' id room :
  0 <= id -> 0 <= room ->
  id + DOC_HEADER_SIZE + room <= len (Buf f) ->
  id + DOC_HEADER_SIZE + room <= len (Buf f') ->
  same_bytes f f' (id + DOC_HEADER_SIZE) (id + DOC_HEADER_SIZE + room) ->
  payload f' id room = payload f id room.
Proof.
  intros H0 H1 H2 H3 S. unfold payload. unfold DOC_HEADER_SIZE in *.
  apply sub_same_bytes; assumption || lia.
Qed.

(** A valid slot stays one, with its payload, in a store that has the same
    bytes there and has not become shorter. *)
Lemma valid_slot_same f f' id room :
  wf f -> wf f' -> UsedSize f <= UsedSize f' ->
  same_bytes f f' id (id + DOC_HEADER_SIZE + room) ->
  valid_slot f id room ->
  valid_slot f' id room /\ payload f' id room = payload f id room.
Proof.
  intros (HL & HU & HS) (HL' & HU' & HS') Hle S
         (H0 & H1 & H2 & H3 & H4 & H5 & H6).
  pose proof (room_at_nonneg f id) as Hr. rewrite H4 in Hr.
  unfold DOC_HEADER_SIZE in *.
  assert (R : room_at f' id = room_at f id).
  { apply room_at_same; try lia. eapply same_bytes_part; [exact S | lia | lia]. }
  split.
  - unfold valid_slot, DOC_HEADER_SIZE. rewrite R, (S id) by lia.
    repeat split; assumption || lia.
  - apply payload_same; unfold DOC_HEADER_SIZE; try lia.
    eapply same_bytes_part; [exact S | lia | lia].
Qed.

(** Read returns what it returned, for such a slot and equal sizes. *)
Lemma Read_same f f' id room :
  wf f -> wf f' -> UsedSize f' = UsedSize f -> Size f' = Size f ->
  same_bytes f f' id (id + DOC_HEADER_SIZE + room) ->
  valid_slot f id room ->
  fst (Read id f') = fst (Read id f).
Proof.
  intros W W' HU HS S V.
  destruct (valid_slot_same f f' id room W W' ltac:(lia) S V) as [V' P].
  pose proof V as (H0 & _ & _ & E & R & _).
  pose proof V' as (_ & _ & _ & E' & R' & _).
  rewrite !Read_run by assumption. cbn [fst]. unfold read_result.
  unfold out_of_bounds. rewrite HU, HS, E, E', R, R', P. reflexivity.
Qed.

(** UsedSize is out of bounds. *)
Lemma out_of_bounds_end f : wf f -> out_of_bounds f (UsedSize f) = true.
Proof.
  intros W. destruct (out_of_bounds f (UsedSize f)) eqn:B; [reflexivity|].
  apply (out_of_bounds_false f _ W) in B. unfold DOC_HEADER_SIZE in B. lia.
Qed.

(** The bytes that a write into the buffer leaves alone. *)
Lemma same_bytes_splice f src a low high :
  0 <= a -> a + len src <= len (Buf f) -> 0 <= low ->
  high <= a \/ a + len src <= low ->
  same_bytes f (with_Buf f (splice (Buf f) a src)) low high.
Proof.
  intros H0 H1 H2 H3 i Hi. unfold byte_at. cbn [Buf with_Buf].
  apply nth_splice_other; lia.
Qed.

(** Slots with sound headers from [a] to [b] are the same slots in a store
    that has the same bytes from [a] to [b] and has not become shorter. *)
Lemma slots_same f f' k a vs b :
  wf f -> wf f' -> UsedSize f <= UsedSize f' -> Size f <= Size f' ->
  slots f k a vs b -> 0 <= a -> same_bytes f f' a b ->
  slots f' k a vs b.
Proof.
  intros W W' HU HSz S.
  pose proof W as (HL & HUs & HS). pose proof W' as (HL' & HUs' & HS').
  induction S as [a | k a room doc vs b B E R M Hend P S IH
                    | k a room vs b B E R M S IH]; intros Ha Sm.
  - constructor.
  - pose proof (room_at_nonneg f a) as Hr. rewrite R in Hr.
    destruct (slots_span f k _ vs b S W) as [Sp _].
    apply (out_of_bounds_false f a W) in B. unfold DOC_HEADER_SIZE in *.
    assert (R' : room_at f' a = room).
    { rewrite <- R. apply room_at_same; try lia.
      eapply same_bytes_part; [exact Sm | lia | lia]. }
    apply (slots_valid f' k a room doc vs b).
    + apply out_of_bounds_false; unfold DOC_HEADER_SIZE; [assumption | lia].
    + rewrite Sm by lia. assumption.
    + assumption.
    + assumption.
    + unfold DOC_HEADER_SIZE. lia.
    + rewrite <- P. apply payload_same; unfold DOC_HEADER_SIZE; try lia.
      eapply same_bytes_part; [exact Sm | lia | lia].
    + apply IH; [lia|]. eapply same_bytes_part; [exact Sm | lia | lia].
  - pose proof (room_at_nonneg f a) as Hr. rewrite R in Hr.
    destruct (slots_span f k _ vs b S W) as [Sp _].
    apply (out_of_bounds_false f a W) in B. unfold DOC_HEADER_SIZE in *.
    assert (R' : room_at f' a = room).
    { rewrite <- R. apply room_at_same; try lia.
      eapply same_bytes_part; [exact Sm | lia | lia]. }
    apply (slots_invalid f' k a room vs b).
    + apply out_of_bounds_false; unfold DOC_HEADER_SIZE; [assumption | lia].
    + rewrite Sm by lia. assumption.
    + assumption.
    + assumption.
    + apply IH; [lia|]. eapply same_bytes_part; [exact Sm | lia | lia].
Qed.

(** Slots after slots. *)
Lemma slots_app f k1 k2 a b c vs1 vs2 :
  slots f k1 a vs1 b -> slots f k2 b vs2 c ->
  slots f (k1 + k2) a (vs1 ++ vs2) c.
Proof.
  intros S1 S2.
  induction S1 as [a | k a room doc vs b B E R M Hend P S IH
                     | k a room vs b B E R M S IH].
  - assumption.
  - cbn [Nat.add app]. eapply slots_valid; eauto.
  - cbn [Nat.add]. eapply slots_invalid; eauto.
Qed.

(** The ids that a row of slots from [a] on gives are not below [a]. *)
Lemma slots_ids f k a vs b :
  wf f -> slots f k a vs b -> Forall (fun c => a <= fst c) vs.
Proof.
  intros W S.
  induction S as [a | k a room doc vs b B E R M Hend P S IH
                    | k a room vs b B E R M S IH].
  - constructor.
  - pose proof (room_at_nonneg f a) as Hr. rewrite R in Hr.
    constructor; [cbn; lia|].
    eapply Forall_impl; [|exact IH]. cbn. intros c Hc.
    unfold DOC_HEADER_SIZE in *. lia.
  - pose proof (room_at_nonneg f a) as Hr. rewrite R in Hr.
    eapply Forall_impl; [|exact IH]. cbn. intros c Hc.
    unfold DOC_HEADER_SIZE in *. lia.
Qed.

End FrameFacts.

(** ** The scan, for every visitor *)

Module VisitFacts.
Import Go GoFacts binary binaryFacts StepFacts ColFacts ReadFacts InsertFacts
       UpdateFacts OutcomeFacts SlotFacts ScanFacts FrameFacts.

Section Visit.

Context {V : Type} (visit : V -> Z -> list Z -> bool * V).

(** The scan at a slot with a sound header, in a store that is well formed:
    the tests of the loop body, one by one. *)
Lemma scan_header f k a v log :
  wf f -> 0 <= a -> out_of_bounds f a = false ->
  ~ unsound f a ->
  ForAll_from visit (S k) a v log f
  = if byte_at f a =? DOC_VALID then
      (doc <- slice (a + DOC_HEADER_SIZE)
                    (a + DOC_HEADER_SIZE + room_at f a) ;;
       let '(continue, v') := visit v a doc in
       if negb continue then ret (v', log)
       else ForAll_from visit k (a + DOC_HEADER_SIZE + room_at f a) v' log) f
    else ForAll_from visit k (a + DOC_HEADER_SIZE + room_at f a) v log f.
Proof.
  intros W Ha B Sound. pose proof W as (HL & HU & HS).
  assert (H64 : 2 ^ 63 < 2 ^ 64) by reflexivity.
  pose proof (room_at_nonneg f a) as Hr.
  rewrite ForAll_from_S. unfold bind at 1. unfold file. rewrite B.
  apply (out_of_bounds_false f a W) in B.
  unfold bind at 1. unfold DOC_HEADER_SIZE in *.
  rewrite index_run by lia. fold (byte_at f a).
  unfold bind at 1.
  rewrite !u64_small by lia. rewrite slice_run by lia.
  fold (room_at f a). cbv zeta.
  assert (T : (negb (byte_at f a =? DOC_VALID)
               && negb (byte_at f a =? DOC_INVALID))
              || (room_at f a >? DOC_MAX_ROOM) = false).
  { unfold unsound in Sound.
    destruct (Z.eqb_spec (byte_at f a) DOC_VALID);
      destruct (Z.eqb_spec (byte_at f a) DOC_INVALID);
      destruct (Z.gtb_spec (room_at f a) DOC_MAX_ROOM);
      try reflexivity; exfalso; apply Sound;
      first [left; split; assumption | right; lia]. }
  rewrite T.
  assert (M : room_at f a <= DOC_MAX_ROOM).
  { destruct (Z.gtb_spec (room_at f a) DOC_MAX_ROOM); [|assumption].
    rewrite orb_true_r in T. discriminate T. }
  unfold DOC_MAX_ROOM in M.
  rewrite !u64_small by lia.
  destruct (byte_at f a =? DOC_VALID); reflexivity.
Qed.

Lemma slots_sound f k a vs b :
  slots f (S k) a vs b -> ~ unsound f a.
Proof.
  intros S [[NV NI] | Big]; inversion S; subst; try congruence; lia.
Qed.

(** Over slots with sound headers the scan calls the visitor on the valid
    ones, in their order, as long as the visitor asks for more. *)
Lemma scan_slots_while f k a vs b :
  wf f -> slots f k a vs b -> 0 <= a ->
  forall fuel v log,
    goes_through visit v vs = true ->
    ForAll_from visit (k + fuel) a v log f
    = ForAll_from visit fuel b (visit_all visit v vs) log f.
Proof.
  intros W S. pose proof W as (HL & HU & HS).
  induction S as [a | k a room doc vs b B E R M Hend P S IH
                    | k a room vs b B E R M S IH];
    intros Ha fuel v log G.
  - reflexivity.
  - pose proof (room_at_nonneg f a) as Hr. rewrite R in Hr.
    cbn [Nat.add]. rewrite scan_header; try assumption.
    2:{ eapply slots_sound. eapply slots_valid; eauto. }
    rewrite E, R. cbn [Z.eqb DOC_VALID Pos.eqb]. unfold bind.
    unfold DOC_HEADER_SIZE in *.
    rewrite slice_run by lia.
    change (sub (Buf f) (a + (1 + 10)) (a + (1 + 10) + room))
      with (payload f a room).
    rewrite P. cbn [goes_through fst snd] in G.
    apply andb_true_iff in G. destruct G as [G1 G2].
    destruct (visit v a doc) as [go v'] eqn:Ev. cbn [fst snd] in G1, G2.
    subst go. cbn [negb]. rewrite IH by (assumption || lia).
    unfold visit_all. cbn [fold_left fst snd]. now rewrite Ev.
  - pose proof (room_at_nonneg f a) as Hr. rewrite R in Hr.
    cbn [Nat.add]. rewrite scan_header; try assumption.
    2:{ eapply slots_sound. eapply slots_invalid; eauto. }
    rewrite E, R. cbn [Z.eqb DOC_VALID DOC_INVALID].
    apply IH; [unfold DOC_HEADER_SIZE; lia | assumption].
Qed.

(** So ForAll, when the slots reach from 0 to the end of the scan. *)
Lemma scan_all f k vs e v :
  wf f -> slots f k 0 vs e -> out_of_bounds f e = true ->
  goes_through visit v vs = true ->
  ForAll visit v f = (Done (visit_all visit v vs, []), f).
Proof.
  intros W Sl Be G. pose proof W as (HL & HU & HS).
  unfold ForAll.
  assert (Hk : (k <= Z.to_nat (UsedSize f))%nat).
  { destruct k as [| k']; [lia|].
    destruct (slots_span f (S k') 0 vs e Sl W) as [_ Sp].
    specialize (Sp ltac:(lia)). unfold DOC_HEADER_SIZE in *. lia. }
  replace (S (Z.to_nat (UsedSize f)))
    with (k + S (Z.to_nat (UsedSize f) - k))%nat by lia.
  rewrite (scan_slots_while f k 0 vs e W Sl) by (assumption || lia).
  now apply scan_end.
Qed.

(** The scan ends at the first call that the visitor answers with false. *)
Lemma scan_stop f k a doc v log :
  wf f -> 0 <= a -> out_of_bounds f a = false ->
  byte_at f a = DOC_VALID -> room_at f a <= DOC_MAX_ROOM ->
  a + DOC_HEADER_SIZE + room_at f a <= Size f ->
  payload f a (room_at f a) = doc ->
  fst (visit v a doc) = false ->
  ForAll_from visit (S k) a v log f = (Done (snd (visit v a doc), log), f).
Proof.
  intros W Ha B E M Hend P Stop. pose proof W as (HL & HU & HS).
  pose proof (room_at_nonneg f a) as Hr.
  rewrite scan_header; try assumption.
  2:{ intros [[NV _] | Big]; [congruence | lia]. }
  rewrite E. cbn [Z.eqb DOC_VALID Pos.eqb]. unfold bind.
  unfold DOC_HEADER_SIZE in *.
  rewrite slice_run by lia.
  change (sub (Buf f) (a + (1 + 10)) (a + (1 + 10) + room_at f a))
    with (payload f a (room_at f a)).
  rewrite P. destruct (visit v a doc) as [go v']. cbn [fst snd] in *.
  subst go. reflexivity.
Qed.

(** A valid header whose payload would end behind the buffer: the slice
    expression that the visitor is called with is out of range. *)
Lemma scan_panic f k a v log :
  wf f -> 0 <= a -> out_of_bounds f a = false ->
  byte_at f a = DOC_VALID -> room_at f a <= DOC_MAX_ROOM ->
  Size f < a + DOC_HEADER_SIZE + room_at f a ->
  ForAll_from visit (S k) a v log f = (Panic, f).
Proof.
  intros W Ha B E M Hend. pose proof W as (HL & HU & HS).
  rewrite scan_header; try assumption.
  2:{ intros [[NV _] | Big]; [congruence | lia]. }
  rewrite E. cbn [Z.eqb DOC_VALID Pos.eqb]. unfold bind, slice.
  destruct (slice_ok _ _ _) eqn:Ok; [|reflexivity].
  apply slice_ok_inv in Ok. lia.
Qed.

(** Every round of the scan moves the address forward, so the scan of a
    well-formed store ends within the rounds that ForAll allows for, and it
    leaves the store as it is. *)
Lemma scan_total f :
  wf f ->
  forall fuel a v log,
    0 <= a -> (Z.to_nat (UsedSize f - a) < fuel)%nat ->
    fst (ForAll_from visit fuel a v log f) <> OutOfFuel
    /\ snd (ForAll_from visit fuel a v log f) = f.
Proof.
  intros W. pose proof W as (HL & HU & HS).
  induction fuel as [| k IH]; intros a v log Ha Hf; [lia|].
  destruct (out_of_bounds f a) eqn:B.
  { rewrite scan_end by assumption. split; [discriminate | reflexivity]. }
  pose proof B as B'. apply (out_of_bounds_false f a W) in B'.
  pose proof (room_at_nonneg f a) as Hr.
  assert (D : unsound f a \/ ~ unsound f a).
  { unfold unsound.
    destruct (Z.eq_dec (byte_at f a) DOC_VALID);
      destruct (Z.eq_dec (byte_at f a) DOC_INVALID);
      destruct (Z_gt_dec (room_at f a) DOC_MAX_ROOM); try tauto; right; tauto. }
  unfold DOC_HEADER_SIZE in *.
  destruct D as [Un | Sound].
  - destruct (resync_total f W ltac:(unfold DOC_HEADER_SIZE; lia)
                (Z.to_nat (UsedSize f - DOC_HEADER_SIZE - (a + 1))) (a + 1)
                (S (Z.to_nat (UsedSize f))))
      as (d & R & Hd & Hmin & Hstop); unfold DOC_HEADER_SIZE; try lia.
    unfold DOC_HEADER_SIZE in *.
    rewrite (scan_corrupted visit f k a d); unfold DOC_HEADER_SIZE;
      try assumption; try lia.
    + apply IH; lia.
    + intros i Hi. apply Hmin. lia.
  - rewrite scan_header by assumption.
    destruct (byte_at f a =? DOC_VALID).
    + unfold bind, slice.
      destruct (slice_ok _ _ _); [|split; [discriminate | reflexivity]].
      destruct (visit v a _) as [go v'].
      destruct go; cbn [negb].
      * apply IH; unfold DOC_HEADER_SIZE; lia.
      * split; [discriminate | reflexivity].
    + apply IH; unfold DOC_HEADER_SIZE; lia.
Qed.

End Visit.

End VisitFacts.

(** ** Insert and the slots before it *)

Module AppendFacts.
Import Go GoFacts binary binaryFacts StepFacts ColFacts ReadFacts InsertFacts
       UpdateFacts OutcomeFacts SlotFacts ScanFacts FrameFacts.

Lemma slot_size_pos data : DOC_HEADER_SIZE <= slot_size data.
Proof. unfold slot_size. pose proof (len_nonneg data). lia. Qed.

Lemma total_size_nonneg docs : 0 <= total_size docs.
Proof.
  induction docs as [| d docs IH]; cbn [total_size fold_right]; [lia|].
  fold (total_size docs). pose proof (slot_size_pos d).
  unfold DOC_HEADER_SIZE in *. lia.
Qed.

(** What Insert does to the store when the buffer has or gets the room:
    the sizes, the bytes it leaves alone, and the new slot. *)
Lemma Insert_step f data :
  wf f -> 2 * len data <= DOC_MAX_ROOM ->
  CheckSizeAndEnsure f (slot_size data) <> None ->
  exists f1,
    Insert data f = (Done (UsedSize f, None), f1)
    /\ wf f1
    /\ UsedSize f1 = UsedSize f + slot_size data
    /\ Size f <= Size f1 /\ Name f1 = Name f /\ Growth f1 = Growth f
    /\ same_bytes f f1 0 (UsedSize f)
    /\ byte_at f1 (UsedSize f) = DOC_VALID
    /\ room_at f1 (UsedSize f) = 2 * len data
    /\ payload f1 (UsedSize f) (2 * len data) = padded data.
Proof.
  intros W Hlen Hg. pose proof W as (HL & HU & HS).
  pose proof (len_nonneg data) as Hd. unfold slot_size in *.
  destruct (CheckSizeAndEnsure f _) as [g|] eqn:E; [|contradiction].
  assert (Hm : 0 <= DOC_HEADER_SIZE + 2 * len data)
    by (unfold DOC_HEADER_SIZE; lia).
  destruct (CheckSizeAndEnsure_some f _ g W Hm E)
    as (Wg & HUg & Hfit & HN & HG & z & HB).
  pose proof Wg as (HLg & _ & _).
  assert (Hfit' : UsedSize g + DOC_HEADER_SIZE + 2 * len data <= Size g)
    by lia.
  exists (inserted g data).
  split; [now apply Insert_run|].
  split; [now apply wf_inserted|].
  split; [unfold inserted; cbn [UsedSize]; lia|].
  split.
  { unfold inserted. cbn [Size]. rewrite <- HL, <- HLg, HB, len_app.
    rewrite len_repeat. lia. }
  split; [exact HN|]. split; [exact HG|].
  rewrite <- HUg.
  split.
  { intros i Hi. rewrite byte_at_inserted_before by (assumption || lia).
    unfold byte_at. rewrite HB. apply app_nth1. unfold len in *. lia. }
  split; [now apply byte_at_inserted|].
  split; [now apply room_at_inserted|].
  unfold padded. now apply payload_inserted.
Qed.

(** A buffer that is roomy takes the slot, and is roomy for the rest. *)
Lemma roomy_now f more rest :
  wf f -> 0 <= more -> 0 <= rest -> roomy f (more + rest) ->
  CheckSizeAndEnsure f more <> None.
Proof.
  intros (HL & HU & HS) Hm Hr [Fit | [G Max]]; unfold CheckSizeAndEnsure.
  - destruct (Z.leb_spec (UsedSize f + more) (Size f)); [discriminate | lia].
  - destruct (Z.leb_spec (UsedSize f + more) (Size f)); [discriminate|].
    destruct (Z.leb_spec (Growth f) 0); [lia|].
    unfold increments.
    set (x := UsedSize f + more - Size f + Growth f - 1).
    assert (Hx : x / Growth f * Growth f <= x).
    { rewrite Z.mul_comm. apply Z.mul_div_le. lia. }
    destruct (Z.ltb_spec (Size f + x / Growth f * Growth f) (2 ^ 63));
      [discriminate | lia].
Qed.

Lemma roomy_later f f1 more rest :
  roomy f (more + rest) ->
  UsedSize f1 = UsedSize f + more -> Size f <= Size f1 ->
  Growth f1 = Growth f ->
  roomy f1 rest.
Proof.
  intros [Fit | [G Max]] HU HS HG; [left | right]; lia.
Qed.

(** Documents inserted one after the other become slots one after the
    other, behind the slots that were there. *)
Lemma Insert_row docs :
  forall f k vs,
    wf f -> slots f k 0 vs (UsedSize f) ->
    Forall (fun data => 0 < len data /\ 2 * len data <= DOC_MAX_ROOM) docs ->
    roomy f (total_size docs) ->
    let f' := run (map OpInsert docs) f in
    wf f'
    /\ UsedSize f' = UsedSize f + total_size docs
    /\ Size f <= Size f' /\ Name f' = Name f
    /\ same_bytes f f' 0 (UsedSize f)
    /\ slots f' (k + length docs) 0 (vs ++ placed (UsedSize f) docs)
             (UsedSize f').
Proof.
  induction docs as [| data docs IH]; intros f k vs W Sl Hdocs Hroom.
  - cbn. rewrite Nat.add_0_r, app_nil_r, Z.add_0_r.
    split; [exact W|]. split; [reflexivity|]. split; [lia|].
    split; [reflexivity|]. split; [apply same_bytes_refl | exact Sl].
  - inversion Hdocs as [| ? ? [Hpos Hlen] Hrest]; subst.
    cbn [total_size fold_right] in Hroom. fold (total_size docs) in Hroom.
    pose proof (total_size_nonneg docs) as Ht.
    pose proof (slot_size_pos data) as Hs. unfold DOC_HEADER_SIZE in Hs.
    pose proof W as (HL & HU & HS).
    assert (Hg : CheckSizeAndEnsure f (slot_size data) <> None).
    { apply (roomy_now f _ (total_size docs)); try assumption.
      unfold DOC_HEADER_SIZE in *. lia. }
    destruct (Insert_step f data W Hlen Hg)
      as (f1 & HI & W1 & HU1 & HS1 & HN1 & HG1 & Sm & E1 & R1 & P1).
    pose proof W1 as (HL1 & HUs1 & _).
    assert (S1 : slots f1 (k + 1) 0 (vs ++ [(UsedSize f, padded data)])
                       (UsedSize f1)).
    { apply (slots_app f1 k 1 0 (UsedSize f)).
      - apply (slots_same f f1); try assumption; lia.
      - apply (slots_valid f1 0 (UsedSize f) (2 * len data)); trivial.
        + apply out_of_bounds_false; [assumption|].
          unfold slot_size, DOC_HEADER_SIZE in *. lia.
        + unfold slot_size, DOC_HEADER_SIZE in *. lia.
        + replace (UsedSize f + DOC_HEADER_SIZE + 2 * len data)
            with (UsedSize f1) by (unfold slot_size in *; lia).
          constructor. }
    assert (Hroom1 : roomy f1 (total_size docs))
      by (apply (roomy_later f f1 (slot_size data)); assumption).
    destruct (IH f1 (k + 1)%nat _ W1 S1 Hrest Hroom1)
      as (W' & HU' & HS' & HN' & Sm' & S').
    cbn [map run fold_left exec]. rewrite HI. cbn [snd].
    fold (run (map OpInsert docs) f1).
    cbn [total_size fold_right placed length]. fold (total_size docs).
    split; [assumption|]. split; [lia|]. split; [lia|].
    split; [congruence|]. split.
    + apply (same_bytes_trans f f1); [assumption|].
      eapply same_bytes_part; [exact Sm' | lia | lia].
    + rewrite HU1 in S'. rewrite <- app_assoc in S'. cbn [app] in S'.
      replace (k + S (length docs))%nat with (k + 1 + length docs)%nat by lia.
      exact S'.
Qed.

(** The ids that the Inserts return are the places of the slots. *)
Lemma insert_all_run docs :
  forall f,
    wf f ->
    Forall (fun data => 0 < len data /\ 2 * len data <= DOC_MAX_ROOM) docs ->
    roomy f (total_size docs) ->
    insert_all docs f
    = (Done (map fst (placed (UsedSize f) docs)), run (map OpInsert docs) f).
Proof.
  induction docs as [| data docs IH]; intros f W Hdocs Hroom;
    [reflexivity|].
  inversion Hdocs as [| ? ? [Hpos Hlen] Hrest]; subst.
  cbn [total_size fold_right] in Hroom. fold (total_size docs) in Hroom.
  pose proof (total_size_nonneg docs) as Ht.
  pose proof (slot_size_pos data) as Hs. unfold DOC_HEADER_SIZE in Hs.
  assert (Hg : CheckSizeAndEnsure f (slot_size data) <> None)
    by (apply (roomy_now f _ (total_size docs)); assumption || lia).
  destruct (Insert_step f data W Hlen Hg)
    as (f1 & HI & W1 & HU1 & HS1 & _ & HG1 & _).
  assert (Hroom1 : roomy f1 (total_size docs))
    by (apply (roomy_later f f1 (slot_size data)); assumption).
  cbn [insert_all map run fold_left exec placed fst]. unfold bind.
  rewrite HI. cbn [snd fst]. fold (run (map OpInsert docs) f1).
  rewrite (IH f1 W1 Hrest Hroom1), HU1. reflexivity.
Qed.

End AppendFacts.

(** ** Delete, update in place, and the other slots *)

Module ChangeFacts.
Import Go GoFacts binary binaryFacts StepFacts ColFacts ReadFacts InsertFacts
       UpdateFacts OutcomeFacts SlotFacts ScanFacts FrameFacts.

(** Delete leaves every byte but the one at [id] alone. *)
Lemma same_bytes_deleted f id low high :
  wf f -> 0 <= id -> 0 <= low -> id < low \/ high <= id ->
  same_bytes f (deleted f id) low high.
Proof.
  intros W Hid Hlow Out. pose proof W as (HL & HU & HS). unfold deleted.
  destruct (out_of_bounds f id) eqn:B; [apply same_bytes_refl|].
  apply (out_of_bounds_false f id W) in B. unfold DOC_HEADER_SIZE in *.
  destruct (byte_at f id =? DOC_VALID); [|apply same_bytes_refl].
  apply same_bytes_splice; try lia; rewrite len_cons, len_nil; lia.
Qed.

Lemma byte_at_deleted_valid f id :
  wf f -> 0 <= id -> out_of_bounds f id = false ->
  byte_at f id = DOC_VALID ->
  byte_at (deleted f id) id = DOC_INVALID.
Proof.
  intros W Hid B E. pose proof W as (HL & HU & HS).
  unfold deleted. rewrite B, E. cbn [Z.eqb DOC_VALID Pos.eqb].
  apply (out_of_bounds_false f id W) in B. unfold DOC_HEADER_SIZE in *.
  unfold byte_at. cbn [Buf with_Buf]. apply nth_splice_same; lia.
Qed.

Lemma without_others id vs :
  Forall (fun c : Z * list Z => id < fst c) vs -> without id vs = vs.
Proof.
  induction 1 as [| c vs Hc _ IH]; [reflexivity|].
  unfold without in *. cbn [filter].
  destruct (Z.eqb_spec (fst c) id); [lia|]. cbn [negb]. now rewrite IH.
Qed.

Lemma with_payload_others id doc vs :
  Forall (fun c : Z * list Z => id < fst c) vs -> with_payload id doc vs = vs.
Proof.
  induction 1 as [| c vs Hc _ IH]; [reflexivity|].
  unfold with_payload in *. cbn [map].
  destruct (Z.eqb_spec (fst c) id); [lia|]. now rewrite IH.
Qed.

Lemma slots_ids_above f k a vs b id :
  wf f -> slots f k a vs b -> id < a ->
  Forall (fun c : Z * list Z => id < fst c) vs.
Proof.
  intros W S Hid. eapply Forall_impl; [|exact (slots_ids f k a vs b W S)].
  cbn. intros c Hc. lia.
Qed.

(** The slots behind a slot that is changed are as they were. *)
Lemma slots_behind f f' k a vs b :
  wf f -> wf f' -> UsedSize f' = UsedSize f -> Size f' = Size f ->
  slots f k a vs b -> 0 <= a -> same_bytes f f' a b ->
  slots f' k a vs b.
Proof.
  intros W W' HU HS S Ha Sm. apply (slots_same f f'); try assumption; lia.
Qed.

(** After Delete of a document that the scan meets, the slots are as they
    were, but for the validity byte of this one. *)
Lemma slots_deleted f id k a vs b :
  wf f -> slots f k a vs b -> 0 <= a -> In id (map fst vs) ->
  slots (deleted f id) k a (without id vs) b.
Proof.
  intros W S. pose proof W as (HL & HU & HS).
  induction S as [a | k a room doc vs b B E R M Hend P S IH
                    | k a room vs b B E R M S IH]; intros Ha Hin.
  - destruct Hin.
  - pose proof (room_at_nonneg f a) as Hr. rewrite R in Hr.
    destruct (slots_span f k _ vs b S W) as [Sp _].
    pose proof B as B'. apply (out_of_bounds_false f a W) in B'.
    pose proof (slots_ids f k _ vs b W S) as Ids.
    unfold DOC_HEADER_SIZE in *.
    assert (Hid : 0 <= id).
    { destruct Hin as [<- | Hin]; [cbn; lia|].
      rewrite Forall_forall in Ids. apply in_map_iff in Hin.
      destruct Hin as (c & <- & Hc). specialize (Ids c Hc). cbn in Ids. lia. }
    pose proof (wf_deleted f id W Hid) as Wd.
    pose proof Wd as (HLd & _ & _).
    destruct (deleted_fields f id) as (DU & DS & _ & _).
    assert (Rd : room_at (deleted f id) a = room).
    { rewrite <- R. apply room_at_same; try lia.
      apply same_bytes_deleted; try assumption; try lia.
      destruct Hin as [<- | Hin]; [cbn; lia|].
      rewrite Forall_forall in Ids. apply in_map_iff in Hin.
      destruct Hin as (c & <- & Hc). specialize (Ids c Hc). cbn in Ids. lia. }
    destruct (Z.eq_dec a id) as [-> | Ne].
    + unfold without. cbn [filter fst]. rewrite Z.eqb_refl. cbn [negb].
      fold (without id vs).
      rewrite without_others
        by (eapply slots_ids_above; [exact W | exact S | lia]).
      apply (slots_invalid _ k id room); try assumption.
      * now rewrite out_of_bounds_deleted.
      * now apply byte_at_deleted_valid.
      * apply (slots_behind f); unfold DOC_HEADER_SIZE; try assumption;
          try lia.
        apply same_bytes_deleted; try assumption; lia.
    + destruct Hin as [Hin | Hin]; [cbn in Hin; lia|].
      assert (Hlate : a + (1 + 10) + room <= id).
      { rewrite Forall_forall in Ids. apply in_map_iff in Hin.
        destruct Hin as (c & <- & Hc). specialize (Ids c Hc). cbn in Ids.
        lia. }
      unfold without. cbn [filter fst].
      destruct (Z.eqb_spec a id); [lia|]. cbn [negb]. fold (without id vs).
      apply (slots_valid _ k a room doc); try assumption.
      * now rewrite out_of_bounds_deleted.
      * rewrite same_bytes_deleted with (low := a) (high := a + 1);
          assumption || lia.
      * unfold DOC_HEADER_SIZE. lia.
      * rewrite <- P. apply payload_same; unfold DOC_HEADER_SIZE; try lia.
        apply same_bytes_deleted; try assumption; lia.
      * apply IH; [unfold DOC_HEADER_SIZE; lia | assumption].
  - pose proof (room_at_nonneg f a) as Hr. rewrite R in Hr.
    pose proof B as B'. apply (out_of_bounds_false f a W) in B'.
    pose proof (slots_ids f k _ vs b W S) as Ids.
    unfold DOC_HEADER_SIZE in *.
    assert (Hlate : a + (1 + 10) + room <= id).
    { rewrite Forall_forall in Ids. apply in_map_iff in Hin.
      destruct Hin as (c & <- & Hc). specialize (Ids c Hc). cbn in Ids.
      lia. }
    pose proof (wf_deleted f id W ltac:(lia)) as Wd.
    pose proof Wd as (HLd & _ & _).
    destruct (deleted_fields f id) as (DU & DS & _ & _).
    apply (slots_invalid _ k a room); try assumption.
    + now rewrite out_of_bounds_deleted.
    + rewrite same_bytes_deleted with (low := a) (high := a + 1);
        assumption || lia.
    + rewrite <- R. apply room_at_same; try lia.
      apply same_bytes_deleted; try assumption; lia.
    + apply IH; [unfold DOC_HEADER_SIZE; lia | assumption].
Qed.

(** What the scan meets is a valid slot that lies in the buffer. *)
Lemma slots_member f k a vs b id doc :
  slots f k a vs b -> In (id, doc) vs ->
  out_of_bounds f id = false /\ byte_at f id = DOC_VALID
  /\ room_at f id <= DOC_MAX_ROOM
  /\ id + DOC_HEADER_SIZE + room_at f id <= Size f
  /\ payload f id (room_at f id) = doc.
Proof.
  intros S.
  induction S as [a | k a room doc' vs b B E R M Hend P S IH
                    | k a room vs b B E R M S IH]; intros Hin.
  - destruct Hin.
  - destruct Hin as [[= <- <-] | Hin]; [|now apply IH].
    rewrite R. auto.
  - now apply IH.
Qed.

Lemma slots_id_in_size f k a vs b id :
  slots f k a vs b -> In id (map fst vs) ->
  id + DOC_HEADER_SIZE + room_at f id <= Size f.
Proof.
  intros S Hin. apply in_map_iff in Hin. destruct Hin as ([i doc] & <- & Hc).
  now apply (slots_member f k a vs b i doc S Hc).
Qed.

(** It lies between the ends of the row of slots. *)
Lemma slots_id_end f k a vs b id :
  wf f -> slots f k a vs b -> In id (map fst vs) ->
  a <= id /\ id + DOC_HEADER_SIZE + room_at f id <= b.
Proof.
  intros W S.
  induction S as [a | k a room doc vs b B E R M Hend P S IH
                    | k a room vs b B E R M S IH]; intros Hin.
  - destruct Hin.
  - pose proof (room_at_nonneg f a) as Hr. rewrite R in Hr.
    destruct (slots_span f k _ vs b S W) as [Sp _].
    unfold DOC_HEADER_SIZE in *.
    destruct Hin as [<- | Hin]; [cbn [fst]; rewrite R; lia|].
    specialize (IH Hin). lia.
  - pose proof (room_at_nonneg f a) as Hr. rewrite R in Hr.
    unfold DOC_HEADER_SIZE in *. specialize (IH Hin). lia.
Qed.

(** An update in place leaves every byte outside the payload alone. *)
Lemma same_bytes_overwritten f id data room low high :
  wf f -> 0 <= id -> len data <= room ->
  id + DOC_HEADER_SIZE + room <= Size f -> 0 <= low ->
  high <= id + DOC_HEADER_SIZE \/ id + DOC_HEADER_SIZE + room <= low ->
  same_bytes f (overwritten f id data room) low high.
Proof.
  intros W Hid Hlen Hend Hlow Out. pose proof W as (HL & HU & HS).
  pose proof (len_nonneg data) as Hd.
  unfold overwritten, DOC_HEADER_SIZE in *.
  apply same_bytes_splice; rewrite ?len_app, ?len_repeat; lia.
Qed.

Lemma wf_overwritten f id data room :
  wf f -> 0 <= id -> len data <= room ->
  id + DOC_HEADER_SIZE + room <= Size f ->
  wf (overwritten f id data room).
Proof.
  intros W Hid Hlen Hend. pose proof W as (HL & HU & HS).
  pose proof (len_nonneg data) as Hd. unfold DOC_HEADER_SIZE in *.
  apply wf_with_Buf; [assumption|].
  apply len_splice; unfold DOC_HEADER_SIZE;
    rewrite ?len_app, ?len_repeat; lia.
Qed.

Lemma payload_overwritten f id data room :
  wf f -> 0 <= id -> len data <= room ->
  id + DOC_HEADER_SIZE + room <= Size f ->
  payload (overwritten f id data room) id room
  = data ++ repeat 32 (Z.to_nat (room - len data)).
Proof.
  intros W Hid Hlen Hend. pose proof W as (HL & HU & HS).
  pose proof (len_nonneg data) as Hd.
  unfold payload, overwritten, DOC_HEADER_SIZE in *. cbn [Buf with_Buf].
  apply sub_splice_same; rewrite ?len_app, ?len_repeat; lia.
Qed.

(** After an update in place of a document that the scan meets, the slots
    are as they were, but for the payload of this one. *)
Lemma slots_overwritten f id data k a vs b :
  wf f -> slots f k a vs b -> 0 <= a -> In id (map fst vs) ->
  len data <= room_at f id ->
  let f' := overwritten f id data (room_at f id) in
  slots f' k a
        (with_payload id
           (data ++ repeat 32 (Z.to_nat (room_at f id - len data))) vs) b.
Proof.
  intros W S. pose proof W as (HL & HU & HS). cbv zeta.
  set (new := data ++ repeat 32 (Z.to_nat (room_at f id - len data))).
  induction S as [a | k a room doc vs b B E R M Hend P S IH
                    | k a room vs b B E R M S IH]; intros Ha Hin Hlen.
  - destruct Hin.
  - pose proof (room_at_nonneg f a) as Hr. rewrite R in Hr.
    pose proof B as B'. apply (out_of_bounds_false f a W) in B'.
    pose proof (slots_ids f k _ vs b W S) as Ids.
    unfold DOC_HEADER_SIZE in *.
    destruct (Z.eq_dec a id) as [-> | Ne].
    + rewrite R in *.
      pose proof (wf_overwritten f id data room W Ha Hlen Hend) as Wo.
      assert (HLo : len (Buf (overwritten f id data room)) = Size f)
        by exact (proj1 Wo).
      unfold with_payload. cbn [map fst]. rewrite Z.eqb_refl.
      fold (with_payload id new vs).
      rewrite with_payload_others
        by (eapply slots_ids_above; [exact W | exact S | lia]).
      assert (Ro : room_at (overwritten f id data room) id = room).
      { transitivity (room_at f id); [|exact R].
        apply room_at_same; try lia.
        apply same_bytes_overwritten; unfold DOC_HEADER_SIZE;
          try assumption; lia. }
      apply (slots_valid _ k id room new); try assumption.
      * rewrite same_bytes_overwritten with (low := id) (high := id + 1);
          unfold DOC_HEADER_SIZE; assumption || lia.
      * unfold new. rewrite R. now apply payload_overwritten.
      * apply (slots_behind f); unfold DOC_HEADER_SIZE; try assumption;
          try lia; try reflexivity.
        apply same_bytes_overwritten; unfold DOC_HEADER_SIZE;
          try assumption; lia.
    + destruct Hin as [Hin | Hin]; [cbn in Hin; lia|].
      assert (Hlate : a + (1 + 10) + room <= id).
      { rewrite Forall_forall in Ids. apply in_map_iff in Hin.
        destruct Hin as (c & <- & Hc). specialize (Ids c Hc). cbn in Ids.
        lia. }
      specialize (IH ltac:(unfold DOC_HEADER_SIZE; lia) Hin Hlen).
      pose proof (slots_id_in_size f k _ vs b id S Hin) as Hslot.
      unfold DOC_HEADER_SIZE in Hslot.
      pose proof (wf_overwritten f id data (room_at f id) W ltac:(lia) Hlen
                    Hslot) as Wo.
      assert (HLo : len (Buf (overwritten f id data (room_at f id))) = Size f)
        by exact (proj1 Wo).
      unfold with_payload. cbn [map fst].
      destruct (Z.eqb_spec a id); [lia|]. fold (with_payload id new vs).
      apply (slots_valid _ k a room doc); try assumption.
      * rewrite same_bytes_overwritten with (low := a) (high := a + 1);
          unfold DOC_HEADER_SIZE; assumption || lia.
      * rewrite <- R. apply room_at_same; try lia.
        apply same_bytes_overwritten; unfold DOC_HEADER_SIZE;
          try assumption; lia.
      * rewrite <- P. apply payload_same; unfold DOC_HEADER_SIZE; try lia.
        apply same_bytes_overwritten; unfold DOC_HEADER_SIZE;
          try assumption; lia.
  - pose proof (room_at_nonneg f a) as Hr. rewrite R in Hr.
    pose proof B as B'. apply (out_of_bounds_false f a W) in B'.
    pose proof (slots_ids f k _ vs b W S) as Ids.
    unfold DOC_HEADER_SIZE in *.
    assert (Hlate : a + (1 + 10) + room <= id).
    { rewrite Forall_forall in Ids. apply in_map_iff in Hin.
      destruct Hin as (c & <- & Hc). specialize (Ids c Hc). cbn in Ids.
      lia. }
    specialize (IH ltac:(unfold DOC_HEADER_SIZE; lia) Hin Hlen).
    pose proof (slots_id_in_size f k _ vs b id S Hin) as Hslot.
    unfold DOC_HEADER_SIZE in Hslot.
    pose proof (wf_overwritten f id data (room_at f id) W ltac:(lia) Hlen
                  Hslot) as Wo.
    assert (HLo : len (Buf (overwritten f id data (room_at f id))) = Size f)
      by exact (proj1 Wo).
    apply (slots_invalid _ k a room); try assumption.
    + rewrite same_bytes_overwritten with (low := a) (high := a + 1);
        unfold DOC_HEADER_SIZE; assumption || lia.
    + rewrite <- R. apply room_at_same; try lia.
      apply same_bytes_overwritten; unfold DOC_HEADER_SIZE;
        try assumption; lia.
Qed.

End ChangeFacts.

(** ** A slot that runs behind the buffer, and the errors of Update *)

Module EdgeFacts.
Import Go GoFacts binary binaryFacts StepFacts ColFacts ReadFacts InsertFacts
       UpdateFacts OutcomeFacts SlotFacts KeepFacts ScanFacts FrameFacts.

Lemma copy_to_panic f low high src :
  len (Buf f) < high -> copy_to low high src f = (Panic, f).
Proof.
  intros H. unfold copy_to, on_slice.
  destruct (slice_ok (Buf f) low high) eqn:E; [|reflexivity].
  apply slice_ok_inv in E. lia.
Qed.

(** The padding loop panics when the padding ends behind the buffer. *)
Lemma fill_padding_panic fuel :
  forall a b f,
    0 <= a -> a <= len (Buf f) -> len (Buf f) < b ->
    len (Buf f) < 2 ^ 63 -> b < 2 ^ 64 ->
    b - a + 1024 <= Z.of_nat fuel * 1024 ->
    fst (fill_padding fuel a b f) = Panic.
Proof.
  induction fuel as [| k IH]; intros a b f H0 H1 H2 H3 Hb H4; [lia|].
  assert (H64 : 2 ^ 63 < 2 ^ 64) by reflexivity.
  rewrite fill_padding_S.
  destruct (Z.ltb_spec a b) as [Lt | Ge]; [|lia].
  rewrite LEN_PADDING_eq. cbv zeta.
  rewrite (u64_small (a + 1024)) by lia.
  destruct (Z.geb_spec (a + 1024) b) as [Last | More].
  - rewrite (u64_small (b - a)) by lia.
    unfold bind.
    rewrite string_slice_run;
      [| lia | lia | rewrite PADDING_eq, len_repeat; lia].
    now rewrite copy_to_panic by lia.
  - unfold bind.
    rewrite string_slice_run;
      [| lia | lia | rewrite PADDING_eq, len_repeat; lia].
    rewrite PADDING_eq, sub_repeat by lia.
    destruct (Z_lt_le_dec (len (Buf f)) (a + 1024)) as [Out | In].
    + now rewrite copy_to_panic by lia.
    + rewrite copy_to_run; [| lia | rewrite len_repeat; lia | lia].
      assert (Hl : len (splice (Buf f) a (repeat 32 (Z.to_nat 1024)))
                   = len (Buf f))
        by (apply len_splice; [lia | rewrite len_repeat; lia]).
      apply IH; cbn [Buf with_Buf]; lia.
Qed.

(** So does the update in place of such a slot. *)
Lemma overwrite_panic f id data room :
  wf f -> 0 <= id -> len data <= room -> room <= DOC_MAX_ROOM ->
  id + room < UsedSize f ->
  Size f < id + DOC_HEADER_SIZE + room ->
  fst (overwrite id data room f) = Panic.
Proof.
  intros W Hid Hlen Hmax Hin Hend. pose proof W as (HL & HU & HS).
  assert (H64 : 2 ^ 63 + 11 < 2 ^ 64) by reflexivity.
  pose proof (len_nonneg data) as Hd.
  unfold overwrite, DOC_HEADER_SIZE, DOC_MAX_ROOM in *. unfold bind.
  destruct (Z_lt_le_dec (len (Buf f)) (id + (1 + 10) + len data))
    as [Out | In].
  - now rewrite copy_to_panic by lia.
  - rewrite copy_to_run by lia.
    assert (Hl : len (splice (Buf f) (id + (1 + 10)) data) = len (Buf f))
      by (apply len_splice; lia).
    assert (P : fst (fill_padding
                       (padding_fuel (id + (1 + 10) + len data)
                                     (id + (1 + 10) + room))
                       (id + (1 + 10) + len data) (id + (1 + 10) + room)
                       (with_Buf f (splice (Buf f) (id + (1 + 10)) data)))
                = Panic).
    { apply fill_padding_panic; cbn [Buf with_Buf]; try lia.
      apply padding_fuel_enough. lia. }
    destruct (fill_padding _ _ _ _) as [[[] | |] f1]; cbn [fst] in P;
      [discriminate P | reflexivity | discriminate P].
Qed.

(** The three errors of Update, and what is left of the store in each
    case. *)
Lemma Update_errors f id data x e f' :
  wf f -> 0 <= id -> len data < 2 ^ 63 ->
  Update id data f = (Done (x, Some e), f') ->
  x = 0
  /\ ((e = ErrUpdatedTooLarge /\ DOC_MAX_ROOM < len data /\ f' = f)
      \/ (e = ErrNotExist id (Name f) /\ len data <= DOC_MAX_ROOM
          /\ update_absent f id /\ f' = f)
      \/ (e = ErrTooLarge /\ room_at f id < len data <= DOC_MAX_ROOM
          /\ DOC_MAX_ROOM < 2 * len data /\ ~ update_absent f id
          /\ f' = deleted f id)).
Proof.
  intros W Hid Hint U. pose proof (len_nonneg data) as Hd.
  assert (H64 : 2 ^ 63 < 2 ^ 64) by reflexivity.
  destruct (Z_gt_le_dec (len data) DOC_MAX_ROOM) as [Big | Fit].
  { unfold Update in U. rewrite (u64_small (len data)) in U by lia.
    destruct (Z.gtb_spec (len data) DOC_MAX_ROOM); [|lia].
    injection U as <- <- <-. split; [reflexivity|]. left. auto with zarith. }
  destruct (update_absent_dec f id W) as [A | P].
  { rewrite Update_absent_run in U by assumption.
    injection U as <- <- <-. split; [reflexivity|]. right. left. auto. }
  assert (NA : ~ update_absent f id).
  { destruct P as (B & E & Hmax & Hin). unfold update_absent.
    intros [A|[A|[A|A]]]; try congruence; lia. }
  rewrite Update_present_run in U by assumption.
  destruct (Z.leb_spec (len data) (room_at f id)) as [Le | Gt].
  { now apply overwrite_error in U. }
  unfold bind in U. rewrite Delete_run in U by assumption.
  destruct (Z_gt_le_dec (2 * len data) DOC_MAX_ROOM) as [Big | Small].
  - rewrite Insert_too_large in U by assumption.
    injection U as <- <- <-. split; [reflexivity|]. right. right.
    repeat split; try assumption; lia.
  - exfalso.
    destruct (CheckSizeAndEnsure (deleted f id)
                (DOC_HEADER_SIZE + 2 * len data)) as [g|] eqn:E.
    + rewrite (Insert_run _ data g) in U;
        [discriminate U | now apply wf_deleted | assumption | assumption].
    + rewrite Insert_panic in U by assumption. discriminate U.
Qed.

(** Every operation leaves a store that is well formed, whatever its
    outcome. *)
Lemma wf_run ops :
  forall f, wf f -> Forall op_ok ops -> wf (run ops f).
Proof.
  induction ops as [| o ops IH]; intros f W Hops; [exact W|].
  inversion Hops as [| ? ? Ho Hrest]; subst.
  cbn [run fold_left]. apply IH; [|assumption].
  now apply growing_exec.
Qed.

End EdgeFacts.

(** ** What the scan reports, in any store *)

Module ReportFacts.
Import Go GoFacts binary binaryFacts StepFacts ColFacts ReadFacts InsertFacts
       UpdateFacts OutcomeFacts SlotFacts ScanFacts FrameFacts VisitFacts.

Lemma apart_from a b vs : a <= b -> apart b vs -> apart a vs.
Proof.
  destruct vs as [| c rest]; [trivial|]. cbn [apart]. intros H [H1 H2].
  split; [lia | assumption].
Qed.

Lemma unsound_dec f a : {unsound f a} + {~ unsound f a}.
Proof.
  unfold unsound.
  destruct (Z.eq_dec (byte_at f a) DOC_VALID);
    destruct (Z.eq_dec (byte_at f a) DOC_INVALID);
    destruct (Z_gt_dec (room_at f a) DOC_MAX_ROOM);
    try (left; tauto); right; tauto.
Qed.

Section Report.

Context {V : Type} (visit : V -> Z -> list Z -> bool * V).

(** Whatever the store holds, the calls of the visitor are for slots with a
    valid flag that lie one behind the other, and the log tells of headers
    that fail the soundness check. *)
Lemma scan_reports f :
  wf f ->
  forall fuel a v log r log' f',
    0 <= a ->
    ForAll_from visit fuel a v log f = (Done (r, log'), f') ->
    f' = f
    /\ exists vs more,
        r = visit_all visit v vs /\ log' = log ++ more
        /\ Forall (live_at f) vs /\ apart a vs
        /\ Forall (logged_at f) more.
Proof.
  intros W. pose proof W as (HL & HU & HS).
  induction fuel as [| k IH]; intros a v log r log' f' Ha R;
    [discriminate R|].
  destruct (out_of_bounds f a) eqn:B.
  { rewrite scan_end in R by assumption. injection R as <- <- <-.
    split; [reflexivity|]. exists [], [].
    rewrite app_nil_r. repeat split; constructor. }
  pose proof B as B'. apply (out_of_bounds_false f a W) in B'.
  pose proof (room_at_nonneg f a) as Hr.
  unfold DOC_HEADER_SIZE in B'.
  destruct (unsound_dec f a) as [Un | Sound].
  - destruct (resync_total f W ltac:(unfold DOC_HEADER_SIZE; lia)
                (Z.to_nat (UsedSize f - DOC_HEADER_SIZE - (a + 1))) (a + 1)
                (S (Z.to_nat (UsedSize f))))
      as (d & Rs & Hd & Hmin & Hstop); unfold DOC_HEADER_SIZE; try lia.
    unfold DOC_HEADER_SIZE in Hd.
    rewrite (scan_corrupted visit f k a d) in R;
      unfold DOC_HEADER_SIZE; try assumption; try lia.
    2:{ intros i Hi. apply Hmin. lia. }
    destruct (IH d v _ r log' f' ltac:(lia) R)
      as (Ef & vs & more & Er & El & Lv & Ap & Lg).
    split; [assumption|].
    exists vs, ([LogCorrupted a (Name f); LogSkipped d] ++ more).
    split; [assumption|]. split.
    { rewrite El, <- !app_assoc. reflexivity. }
    split; [assumption|]. split; [apply (apart_from a d); [lia | assumption]|].
    constructor; [cbn; auto|]. constructor; [exact Hstop | assumption].
  - rewrite scan_header in R by assumption.
    assert (M : room_at f a <= DOC_MAX_ROOM).
    { destruct (Z_gt_dec (room_at f a) DOC_MAX_ROOM); [|lia].
      exfalso. apply Sound. now right. }
    destruct (Z.eqb_spec (byte_at f a) DOC_VALID) as [E | NE].
    + unfold bind, slice in R.
      destruct (slice_ok (Buf f) _ _) eqn:Ok; [|discriminate R].
      apply slice_ok_inv in Ok. unfold DOC_HEADER_SIZE in Ok.
      change (sub (Buf f) (a + DOC_HEADER_SIZE)
                  (a + DOC_HEADER_SIZE + room_at f a))
        with (payload f a (room_at f a)) in R.
      set (doc := payload f a (room_at f a)) in *.
      assert (Ld : len doc = room_at f a).
      { unfold doc, payload, len, DOC_HEADER_SIZE.
        rewrite length_sub by lia. lia. }
      assert (Lv : live_at f (a, doc)).
      { unfold live_at. cbn [fst snd]. auto. }
      destruct (visit v a doc) as [go v1] eqn:Ev.
      destruct go; cbn [negb] in R.
      * destruct (IH (a + DOC_HEADER_SIZE + room_at f a) v1 log r log' f'
                     ltac:(unfold DOC_HEADER_SIZE; lia) R)
          as (Ef & vs & more & Er & El & Lvs & Ap & Lg).
        split; [assumption|].
        exists ((a, doc) :: vs), more.
        split.
        { unfold visit_all. cbn [fold_left fst snd]. now rewrite Ev. }
        split; [assumption|]. split; [now constructor|].
        split; [|assumption].
        cbn [apart fst snd]. rewrite Ld. split; [lia | assumption].
      * injection R as <- <- <-. split; [reflexivity|].
        exists [(a, doc)], [].
        split.
        { unfold visit_all. cbn [fold_left fst snd]. now rewrite Ev. }
        rewrite app_nil_r. split; [reflexivity|].
        split; [now constructor|].
        split; [cbn [apart fst]; split; [lia | exact I] | constructor].
    + destruct (IH (a + DOC_HEADER_SIZE + room_at f a) v log r log' f'
                   ltac:(unfold DOC_HEADER_SIZE; lia) R)
        as (Ef & vs & more & Er & El & Lvs & Ap & Lg).
      split; [assumption|].
      exists vs, more. repeat (split; [assumption|]).
      split; [|assumption].
      apply (apart_from a (a + DOC_HEADER_SIZE + room_at f a));
        [unfold DOC_HEADER_SIZE; lia | assumption].
Qed.

(** A corrupted header with no byte behind it, up to the end of the scan,
    that may be a flag: the scan logs it and ends. *)
Lemma scan_corrupted_tail f k c v log :
  wf f -> 0 <= c -> out_of_bounds f c = false -> unsound f c ->
  (forall i, c < i < UsedSize f - DOC_HEADER_SIZE -> ~ flag (byte_at f i)) ->
  ForAll_from visit (S (S k)) c v log f
  = (Done (v, (log ++ [LogCorrupted c (Name f)])
              ++ [LogSkipped (UsedSize f - DOC_HEADER_SIZE)]), f).
Proof.
  intros W Hc B Un Hmin. pose proof W as (HL & HU & HS).
  pose proof B as B'. apply (out_of_bounds_false f c W) in B'.
  rewrite (scan_corrupted visit f (S k) c (UsedSize f - DOC_HEADER_SIZE));
    try assumption; try lia.
  apply scan_end.
  destruct (out_of_bounds f (UsedSize f - DOC_HEADER_SIZE)) eqn:Bd;
    [reflexivity|].
  apply (out_of_bounds_false f _ W) in Bd. lia.
Qed.

End Report.

End ReportFacts.

(** ** The way of the scan behind a corrupted header *)

Module SkipFacts.
Import Go GoFacts binary binaryFacts StepFacts ColFacts ReadFacts InsertFacts
       UpdateFacts OutcomeFacts SlotFacts ScanFacts FrameFacts VisitFacts.

(** Every round starts within the bounds and further on than the one
    before. *)
Lemma skips_span f k a log b :
  skips f k a log b -> wf f ->
  a + Z.of_nat k <= b
  /\ ((0 < k)%nat -> a + (Z.of_nat k - 1) < UsedSize f - DOC_HEADER_SIZE).
Proof.
  intros S W.
  induction S as [a | k a a' log b B Un Lt Le Hmin Hstop S IH
                    | k a room log b B E R M S IH].
  - split; lia.
  - apply (out_of_bounds_false f a W) in B.
    destruct IH as [I1 I2]. split; [lia|]. intros _.
    destruct k; [lia|]. specialize (I2 ltac:(lia)). lia.
  - apply (out_of_bounds_false f a W) in B.
    pose proof (room_at_nonneg f a) as Hr. rewrite R in Hr.
    unfold DOC_HEADER_SIZE in *.
    destruct IH as [I1 I2]. split; [lia|]. intros _.
    destruct k; [lia|]. specialize (I2 ltac:(lia)). lia.
Qed.

(** A way that starts at a header which fails the soundness check starts
    with the log entry for it. *)
Lemma skips_first f k a log b :
  skips f (S k) a log b -> unsound f a ->
  exists a' more, log = LogCorrupted a (Name f) :: LogSkipped a' :: more.
Proof.
  intros S Un. inversion S; subst.
  - eauto.
  - exfalso. destruct Un as [[_ NI] | Big]; [contradiction | lia].
Qed.

Section Skip.

Context {V : Type} (visit : V -> Z -> list Z -> bool * V).

(** The scan goes this way, and calls the visitor on nothing. *)
Lemma scan_skips f k a more b :
  wf f -> skips f k a more b -> 0 <= a ->
  forall fuel v log,
    ForAll_from visit (k + fuel) a v log f
    = ForAll_from visit fuel b v (log ++ more) f.
Proof.
  intros W S.
  induction S as [a | k a a' more b B Un Lt Le Hmin Hstop S IH
                    | k a room more b B E R M S IH];
    intros Ha fuel v log.
  - now rewrite app_nil_r.
  - cbn [Nat.add].
    rewrite (scan_corrupted visit f _ a a') by assumption.
    rewrite IH by lia. f_equal. rewrite <- !app_assoc. reflexivity.
  - pose proof (room_at_nonneg f a) as Hr. rewrite R in Hr.
    cbn [Nat.add]. rewrite scan_header; try assumption.
    + rewrite E, R. cbn [Z.eqb DOC_VALID DOC_INVALID].
      apply IH. unfold DOC_HEADER_SIZE. lia.
    + intros [[_ NI] | Big]; [contradiction | lia].
Qed.

End Skip.

End SkipFacts.

(** * The claims *)

Import Go GoFacts binary binaryFacts StepFacts ColFacts ReadFacts InsertFacts
       UpdateFacts OutcomeFacts SlotFacts KeepFacts ScanFacts.

(** Closed goals about the small stores are settled by running the code. *)
Ltac by_run := vm_compute; intuition (discriminate || reflexivity).

(** C1, as the spec states it, fails: Read returns the whole room, the
    document and its padding. *)
Lemma C1_counterexample :
  ~ (forall (f : File) (data : list Z) (id : Z) (f' : File),
        wf f -> 0 <= 2 * len data <= DOC_MAX_ROOM ->
        Insert data f = (Done (id, None), f') ->
        fst (Read id f') = Done (Some data)).
Proof.
  intros H.
  specialize (H (fresh 64 COL_FILE_SIZE) doc_a 0 store_a).
  assert (E : fst (Read 0 store_a) = Done (Some [97; 32])) by reflexivity.
  rewrite E in H.
  assert (C : Done (Some [97; 32]) = Done (Some doc_a)).
  { apply H; by_run. }
  discriminate C.
Qed.

(** C1, amended. Round trip up to padding: for a document that is not
    empty and whose doubled length is at most DOC_MAX_ROOM, in a store whose
    buffer can take it, Insert returns the old UsedSize as id, and when the
    new slot ends strictly before Size, Read of that id returns the
    document followed by as many padding bytes as the document is long. *)
Theorem C1_insert_then_read (f : File) (data : list Z) :
  wf f -> 0 < len data -> 2 * len data <= DOC_MAX_ROOM ->
  CheckSizeAndEnsure f (DOC_HEADER_SIZE + 2 * len data) <> None ->
  exists f',
    Insert data f = (Done (UsedSize f, None), f')
    /\ (UsedSize f' < Size f' ->
        Read (UsedSize f) f'
        = (Done (Some (data ++ repeat 32 (length data))), f')).
Proof.
  intros W Hpos Hlen Hg.
  destruct (Insert_grows_run f data W Hlen Hg)
    as (g & _ & HI & Wg & HU & Hfit & _).
  exists (inserted g data). split; [assumption|].
  intros Hend. rewrite <- HU. apply Read_inserted; assumption.
Qed.

Lemma C1_witness :
  exists f',
    Insert doc_a (fresh 64 COL_FILE_SIZE)
    = (Done (UsedSize (fresh 64 COL_FILE_SIZE), None), f')
    /\ (UsedSize f' < Size f' ->
        Read (UsedSize (fresh 64 COL_FILE_SIZE)) f'
        = (Done (Some (doc_a ++ repeat 32 (length doc_a))), f')).
Proof.
  apply (C1_insert_then_read (fresh 64 COL_FILE_SIZE) doc_a);
    unfold wf; by_run.
Defined.

(** C2. At the failing input: a slot that Insert has just made and that
    ends exactly at Size meets every condition of the claim (in bounds,
    valid, room at most DOC_MAX_ROOM, payload end not above Size), and Read
    returns nil for it. *)
Theorem C2_read_slot_ending_at_size :
  wf tight_a
  /\ Insert doc_a (fresh 13 COL_FILE_SIZE) = (Done (0, None), tight_a)
  /\ out_of_bounds tight_a 0 = false
  /\ byte_at tight_a 0 = DOC_VALID
  /\ room_at tight_a 0 = 2 /\ 2 <= DOC_MAX_ROOM
  /\ 0 + DOC_HEADER_SIZE + 2 <= Size tight_a
  /\ Read 0 tight_a = (Done None, tight_a).
Proof. unfold wf. by_run. Qed.

(** C3, as the spec states it, fails: Update compares the payload with
    UsedSize, Read with Size.  In [long_room] Read returns 30 bytes for id 0
    and Update reports that document 0 does not exist. *)
Lemma C3_counterexample :
  ~ (forall (f : File) (id : Z) (data : list Z),
        wf f -> 0 <= id -> len data <= DOC_MAX_ROOM ->
        (fst (Update id data f) = Done (0, Some (ErrNotExist id (Name f)))
         <-> fst (Read id f) = Done None)).
Proof.
  intros H.
  destruct (H long_room 0 []) as [C _];
    [unfold wf; by_run | lia | by_run |].
  assert (E : fst (Read 0 long_room) = Done (Some (repeat 0 30)))
    by reflexivity.
  rewrite E in C. discriminate C. reflexivity.
Qed.

(** C3, amended. With data of at most DOC_MAX_ROOM bytes, Update returns
    "Document does not exist", and leaves the store alone, exactly when the
    bounds check fails, the validity byte is not DOC_VALID, the decoded room
    is above DOC_MAX_ROOM, or id + room reaches UsedSize.  The first three
    are Read's checks too: each of them makes Read return nil. *)
Theorem C3_update_does_not_exist (f : File) (id : Z) (data : list Z) :
  wf f -> 0 <= id -> len data <= DOC_MAX_ROOM ->
  (Update id data f = (Done (0, Some (ErrNotExist id (Name f))), f)
   <-> update_absent f id)
  /\ (out_of_bounds f id = true \/ byte_at f id <> DOC_VALID
      \/ room_at f id > DOC_MAX_ROOM ->
      Read id f = (Done None, f)).
Proof.
  intros W Hid Hlen. split; [split|].
  - intros U. destruct (update_absent_dec f id W) as [A | P];
      [assumption | exfalso].
    assert (NA : ~ update_absent f id).
    { destruct P as (B & E & Hmax & Hin). unfold update_absent.
      intros [A|[A|[A|A]]]; try congruence; lia. }
    rewrite Update_present_run in U by assumption.
    destruct (len data <=? room_at f id).
    + now apply overwrite_error in U.
    + apply bind_Done in U. destruct U as (? & ? & _ & U).
      apply Insert_error in U. discriminate U.
  - now apply Update_absent_run.
  - intros A. rewrite Read_run by assumption. unfold read_result.
    destruct (out_of_bounds f id); [reflexivity|].
    destruct (Z.eqb_spec (byte_at f id) DOC_VALID); [|reflexivity].
    cbn [negb].
    destruct (Z.gtb_spec (room_at f id) DOC_MAX_ROOM); [reflexivity|].
    destruct A as [A|[A|A]]; [discriminate | contradiction | lia].
Qed.

Lemma C3_witness :
  (Update 0 doc_b long_room
   = (Done (0, Some (ErrNotExist 0 (Name long_room))), long_room)
   <-> update_absent long_room 0)
  /\ (out_of_bounds long_room 0 = true \/ byte_at long_room 0 <> DOC_VALID
      \/ room_at long_room 0 > DOC_MAX_ROOM ->
      Read 0 long_room = (Done None, long_room)).
Proof.
  apply (C3_update_does_not_exist long_room 0 doc_b);
    [unfold wf; by_run | lia | by_run].
Defined.

(** C4, as the spec states it, fails: after an update in place Read returns
    the whole room, the new document and the padding behind it. *)
Lemma C4_counterexample :
  ~ (forall (f : File) (id room : Z) (data : list Z),
        wf f -> valid_slot f id room -> len data <= room ->
        fst (Update id data f) = Done (id, None)
        /\ fst (Read id (snd (Update id data f))) = Done (Some data)).
Proof.
  intros H.
  destruct (H store_a 0 2 doc_b) as [_ C];
    [unfold wf; by_run | unfold valid_slot; by_run | by_run |].
  assert (E : fst (Read 0 (snd (Update 0 doc_b store_a)))
              = Done (Some [98; 32])) by reflexivity.
  rewrite E in C. discriminate C.
Qed.

(** C4, amended. Update in place: for a valid slot at [id] with capacity
    [room] and new data no longer than [room], Update succeeds with the same
    id, the slot stays valid with the same room, UsedSize stays, and, when
    the slot ends strictly before Size, Read returns [room] bytes: the new
    data followed by padding. *)
Theorem C4_update_in_place (f : File) (id room : Z) (data : list Z) :
  wf f -> valid_slot f id room -> len data <= room ->
  let f' := overwritten f id data room in
  Update id data f = (Done (id, None), f')
  /\ valid_slot f' id room
  /\ UsedSize f' = UsedSize f
  /\ (id + DOC_HEADER_SIZE + room < Size f ->
      Read id f'
      = (Done (Some (data ++ repeat 32 (Z.to_nat (room - len data)))), f')).
Proof.
  intros W V Hlen. cbv zeta.
  destruct (overwritten_slot f id data room W V Hlen) as (Wo & Vo & P).
  pose proof (valid_slot_present f id room W V) as NA.
  pose proof W as (HL & HU & HS).
  destruct V as (H0 & H1 & H2 & H3 & H4 & H5 & H6).
  split.
  - rewrite Update_present_run by (assumption || lia).
    rewrite H4.
    destruct (Z.leb_spec (len data) room); [|lia].
    apply overwrite_run; assumption || lia.
  - split; [assumption|]. split; [reflexivity|].
    intros Hend. rewrite <- P.
    apply Read_valid_slot; assumption.
Qed.

Lemma C4_witness :
  let f' := overwritten store_a 0 doc_b 2 in
  Update 0 doc_b store_a = (Done (0, None), f')
  /\ valid_slot f' 0 2
  /\ UsedSize f' = UsedSize store_a
  /\ (0 + DOC_HEADER_SIZE + 2 < Size store_a ->
      Read 0 f'
      = (Done (Some (doc_b ++ repeat 32 (Z.to_nat (2 - len doc_b)))), f')).
Proof.
  apply (C4_update_in_place store_a 0 2 doc_b);
    [unfold wf; by_run | unfold valid_slot; by_run | by_run].
Defined.

(** C5, as the spec states it, fails: Read of the new id returns the new
    document with its padding. *)
Lemma C5_counterexample :
  ~ (forall (f : File) (id room : Z) (data : list Z),
        wf f -> valid_slot f id room ->
        room < len data -> 2 * len data <= DOC_MAX_ROOM ->
        exists newid f',
          Update id data f = (Done (newid, None), f')
          /\ newid <> id
          /\ fst (Read id f') = Done None
          /\ fst (Read newid f') = Done (Some data)).
Proof.
  intros H.
  destruct (H store_a 0 2 doc_bcd) as (newid & f' & U & _ & _ & R);
    [unfold wf; by_run | unfold valid_slot; by_run | by_run | by_run |].
  assert (E : Update 0 doc_bcd store_a
              = (Done (13, None), snd (Update 0 doc_bcd store_a)))
    by reflexivity.
  rewrite E in U. injection U as E1 E2. subst newid f'.
  vm_compute in R. discriminate R.
Qed.

(** C5, amended. Relocation on overflow: for a valid slot at [id] and data
    longer than its room, with a doubled length of at most DOC_MAX_ROOM, in
    a store whose buffer can take the new slot, Update returns the old
    UsedSize as the new id, which differs from [id]; afterwards Read of the
    old id returns nil, and, when the new slot ends strictly before Size,
    Read of the new id returns the data followed by as many padding bytes as
    the data is long. *)
Theorem C5_update_relocates (f : File) (id room : Z) (data : list Z) :
  wf f -> valid_slot f id room ->
  room < len data -> 2 * len data <= DOC_MAX_ROOM ->
  CheckSizeAndEnsure f (DOC_HEADER_SIZE + 2 * len data) <> None ->
  exists f',
    Update id data f = (Done (UsedSize f, None), f')
    /\ UsedSize f <> id
    /\ Read id f' = (Done None, f')
    /\ (UsedSize f' < Size f' ->
        Read (UsedSize f) f'
        = (Done (Some (data ++ repeat 32 (length data))), f')).
Proof.
  intros W V Hroom Hlen Hg.
  pose proof (valid_slot_present f id room W V) as NA.
  pose proof (byte_at_deleted_slot f id room W V) as Hb.
  pose proof W as (HL & HU & HS).
  destruct V as (H0 & H1 & H2 & H3 & H4 & H5 & H6).
  pose proof (len_nonneg data) as Hd.
  destruct (deleted_fields f id) as (DU & DS & DN & DG).
  pose proof (wf_deleted f id W H0) as Wd.
  assert (Hg' : CheckSizeAndEnsure (deleted f id)
                  (DOC_HEADER_SIZE + 2 * len data) <> None)
    by (apply (CheckSizeAndEnsure_sizes f); assumption).
  destruct (Insert_grows_run (deleted f id) data Wd Hlen Hg')
    as (g & _ & HI & Wg & HUg & Hfit & Hsame).
  exists (inserted g data).
  split; [|split; [|split]].
  - rewrite Update_present_run by (assumption || lia).
    rewrite H4. destruct (Z.leb_spec (len data) room); [lia|].
    unfold bind. rewrite Delete_run by assumption.
    rewrite HI, DU. reflexivity.
  - unfold DOC_HEADER_SIZE in *. lia.
  - apply Read_not_valid; [now apply wf_inserted | assumption |].
    rewrite byte_at_inserted_before
      by (assumption || (unfold DOC_HEADER_SIZE in *; lia)).
    rewrite Hsame.
    + rewrite Hb. discriminate.
    + destruct Wd as (Ld & _). unfold DOC_HEADER_SIZE in *. lia.
  - intros Hend. rewrite <- DU, <- HUg.
    pose proof (room_at_nonneg f id).
    apply Read_inserted; try assumption. lia.
Qed.

Lemma C5_witness :
  exists f',
    Update 0 doc_bcd store_a = (Done (UsedSize store_a, None), f')
    /\ UsedSize store_a <> 0
    /\ Read 0 f' = (Done None, f')
    /\ (UsedSize f' < Size f' ->
        Read (UsedSize store_a) f'
        = (Done (Some (doc_bcd ++ repeat 32 (length doc_bcd))), f')).
Proof.
  apply (C5_update_relocates store_a 0 2 doc_bcd);
    [unfold wf; by_run | unfold valid_slot; by_run
     | by_run | by_run | by_run].
Defined.

(** Slots of the small stores are found by running the header checks. *)
Ltac slot_valid a room doc :=
  apply (slots_valid _ _ a room doc); [by_run | by_run | by_run | by_run | by_run | by_run |].
Ltac slot_end := apply slots_end.

Lemma slots_damaged_before : slots damaged 1 0 [(0, [97; 32])] 13.
Proof. slot_valid 0 2 [97; 32]. slot_end. Qed.

Lemma slots_damaged_after :
  slots damaged 2 26 [(26, [99; 32]); (39, [100; 32])] 52.
Proof. slot_valid 26 2 [99; 32]. slot_valid 39 2 [100; 32]. slot_end. Qed.

(** C6, as the spec states it, fails: in [damaged] the header at 13 has a
    validity byte of 7; the scan takes the 0 behind it for a flag, reads a
    room of 13 there, and passes over the document at 26. *)
Lemma C6_counterexample :
  ~ (forall (f : File) (k1 k2 : nat) (c d e : Z) (vs1 vs2 : list (Z * list Z)),
        wf f ->
        slots f k1 0 vs1 c ->
        out_of_bounds f c = false -> unsound f c ->
        c < d -> slots f k2 d vs2 e -> out_of_bounds f e = true ->
        exists log,
          fst (ForAll collect [] f) = Done (vs1 ++ vs2, log)
          /\ In (LogCorrupted c (Name f)) log).
Proof.
  intros H.
  destruct (H damaged 1%nat 2%nat 13 26 52
              [(0, [97; 32])] [(26, [99; 32]); (39, [100; 32])])
    as (log & E & _).
  - unfold wf. by_run.
  - exact slots_damaged_before.
  - reflexivity.
  - left. by_run.
  - lia.
  - exact slots_damaged_after.
  - reflexivity.
  - vm_compute in E. discriminate E.
Qed.

(** C6, amended. Resynchronization after a corrupted header, in a store
    that is well formed.
    The recovery loop: started anywhere up to the boundary of the scan, in
    any store, it moves on byte by byte and stops at the first byte that is
    VALID or INVALID, or at the boundary, and changes nothing.
    Before the damage: when the store holds slots with sound headers from 0
    to [c] and the header at [c] fails the soundness check, ForAll, with a
    visitor that goes on, calls the visitor on the valid documents before
    [c], in their order, logs the corruption at [c] and the skip to [d0], the
    first byte behind [c] that is VALID or INVALID or else the boundary, and
    goes on with the scan at [d0]; this whatever lies behind [c].  So
    whenever ForAll returns, its result starts with these calls and its log
    with these two entries.
    Behind the damage: the documents behind the damaged one are all met when
    the scan finds its way from [c] back to the slots behind it: if from
    [c] on it passes only headers that fail the soundness check, each with
    its search for the next flag byte, and headers that pass for deleted
    slots, and so comes to [d], from where slots with sound headers lead to
    the end of the scan, then ForAll returns what the visitor makes of the
    valid documents before and behind, in their order, and the log of the
    way, in which the corruption at [c] is the first entry.  One search that
    ends at [d] is such a way; so is the way behind a header of which only the
    validity byte was overwritten, in a store that Insert has written, when
    it leads back to the next slot. *)
Theorem C6_scan_resynchronizes
        {V : Type} (visit : V -> Z -> list Z -> bool * V) (v : V)
        (f : File) :
  wf f ->
  (forall start,
      0 <= start <= UsedSize f - DOC_HEADER_SIZE ->
      exists r,
        resync (S (Z.to_nat (UsedSize f))) start f = (Done r, f)
        /\ start <= r <= UsedSize f - DOC_HEADER_SIZE
        /\ (forall i, start <= i < r -> ~ flag (byte_at f i))
        /\ (flag (byte_at f r) \/ r = UsedSize f - DOC_HEADER_SIZE))
  /\ ((forall v id doc, fst (visit v id doc) = true) ->
      forall (k1 : nat) (vs1 : list (Z * list Z)) (c : Z),
        slots f k1 0 vs1 c -> out_of_bounds f c = false -> unsound f c ->
        (exists (d0 : Z) (n : nat),
            c < d0 <= UsedSize f - DOC_HEADER_SIZE
            /\ (forall i, c < i < d0 -> ~ flag (byte_at f i))
            /\ (flag (byte_at f d0) \/ d0 = UsedSize f - DOC_HEADER_SIZE)
            /\ (Z.to_nat (UsedSize f - d0) < n)%nat
            /\ ForAll visit v f
               = ForAll_from visit n d0 (visit_all visit v vs1)
                   [LogCorrupted c (Name f); LogSkipped d0] f
            /\ (forall r log f',
                   ForAll visit v f = (Done (r, log), f') ->
                   exists vs' more,
                     r = visit_all visit v (vs1 ++ vs')
                     /\ log = LogCorrupted c (Name f) :: LogSkipped d0
                                :: more))
        /\ (forall (k k2 : nat) (d e : Z) (log : list log_entry)
                   (vs2 : list (Z * list Z)),
               skips f k c log d -> slots f k2 d vs2 e ->
               out_of_bounds f e = true ->
               ForAll visit v f
               = (Done (visit_all visit v (vs1 ++ vs2), log), f)
               /\ exists d1 more,
                   log = LogCorrupted c (Name f) :: LogSkipped d1 :: more)).
Proof.
  intros W. pose proof W as (HL & HU & HS). split.
  - intros start Hs.
    apply (resync_total f W ltac:(unfold DOC_HEADER_SIZE in *; lia)
             (Z.to_nat (UsedSize f - DOC_HEADER_SIZE - start)));
      unfold DOC_HEADER_SIZE in *; lia.
  - intros Go k1 vs1 c S1 Bc Un.
    destruct (slots_span f k1 0 vs1 c S1 W) as [Sp1 _].
    pose proof Bc as Bc'. apply (out_of_bounds_false f c W) in Bc'.
    unfold DOC_HEADER_SIZE in Sp1, Bc'.
    split.
    + destruct (resync_total f W ltac:(unfold DOC_HEADER_SIZE; lia)
                  (Z.to_nat (UsedSize f - DOC_HEADER_SIZE - (c + 1))) (c + 1)
                  (S (Z.to_nat (UsedSize f))))
        as (d0 & R & Hd & Hmin & Hstop); unfold DOC_HEADER_SIZE; try lia.
      unfold DOC_HEADER_SIZE in Hd.
      assert (Hgap : forall i, c < i < d0 -> ~ flag (byte_at f i))
        by (intros i Hi; apply Hmin; lia).
      set (n := (Z.to_nat (UsedSize f) - k1)%nat).
      assert (E : ForAll visit v f
                  = ForAll_from visit n d0 (visit_all visit v vs1)
                      [LogCorrupted c (Name f); LogSkipped d0] f).
      { unfold ForAll.
        replace (S (Z.to_nat (UsedSize f))) with (k1 + S n)%nat
          by (unfold n; lia).
        rewrite (scan_slots visit Go f k1 0 vs1 c W S1) by lia.
        rewrite (scan_corrupted visit f n c d0);
          unfold DOC_HEADER_SIZE; try assumption; try lia.
        reflexivity. }
      exists d0, n.
      split; [unfold DOC_HEADER_SIZE; lia|]. split; [assumption|].
      split; [assumption|]. split; [unfold n; lia|].
      split; [assumption|].
      intros r log f' D. rewrite E in D.
      destruct (ReportFacts.scan_reports visit f W n d0 _ _ r log f'
                  ltac:(lia) D)
        as (_ & vs' & more & Er & El & _).
      exists vs', more. split; [|assumption].
      rewrite Er. unfold visit_all. now rewrite fold_left_app.
    + intros k k2 d e log vs2 Sk S2 Be.
      destruct k as [| k'].
      { exfalso. inversion Sk; subst.
        destruct k2 as [| k2'].
        - inversion S2; subst. congruence.
        - exact (VisitFacts.slots_sound f k2' d vs2 e S2 Un). }
      destruct (SkipFacts.skips_span f (S k') c log d Sk W) as [Sk1 Sk2].
      specialize (Sk2 ltac:(lia)).
      destruct (slots_span f k2 d vs2 e S2 W) as [Sp2 Sp2'].
      unfold DOC_HEADER_SIZE in Sk2, Sp2, Sp2'.
      split; [|exact (SkipFacts.skips_first f k' c log d Sk Un)].
      unfold ForAll.
      assert (Hfuel : (k1 + (S k' + k2) <= Z.to_nat (UsedSize f))%nat).
      { destruct k2 as [| k2']; [lia|]. specialize (Sp2' ltac:(lia)). lia. }
      replace (S (Z.to_nat (UsedSize f)))
        with (k1 + (S k' + (k2 + S (Z.to_nat (UsedSize f)
                                    - k1 - S k' - k2))))%nat by lia.
      rewrite (scan_slots visit Go f k1 0 vs1 c W S1) by lia.
      rewrite (SkipFacts.scan_skips visit f (S k') c log d W Sk) by lia.
      rewrite (scan_slots visit Go f k2 d vs2 e W S2) by lia.
      rewrite scan_end by assumption.
      unfold visit_all. now rewrite fold_left_app.
Qed.

Lemma C6_witness :
  (ForAll collect [] nicked
   = (Done (visit_all collect []
              ([(0, hello ++ repeat 32 5)] ++ [(42, hello ++ repeat 32 5)]),
            [LogCorrupted 21 (Name nicked); LogSkipped 23;
             LogCorrupted 34 (Name nicked); LogSkipped 42]), nicked)
   /\ exists d1 more,
       [LogCorrupted 21 (Name nicked); LogSkipped 23;
        LogCorrupted 34 (Name nicked); LogSkipped 42]
       = LogCorrupted 21 (Name nicked) :: LogSkipped d1 :: more)
  /\ (ForAll collect [] blanked
      = (Done (visit_all collect []
                 ([(0, [97; 32])] ++ [(26, [99; 32]); (39, [100; 32])]),
               [LogCorrupted 13 (Name blanked); LogSkipped 26]), blanked)
      /\ exists d1 more,
          [LogCorrupted 13 (Name blanked); LogSkipped 26]
          = LogCorrupted 13 (Name blanked) :: LogSkipped d1 :: more).
Proof.
  split.
  - (* only the validity byte of the second document is overwritten *)
    assert (W : wf nicked) by (unfold wf; by_run).
    destruct (C6_scan_resynchronizes collect [] nicked W) as [_ Scan].
    destruct (Scan (fun v id doc => eq_refl) 1%nat
                   [(0, hello ++ repeat 32 5)] 21) as [_ Behind].
    + slot_valid 0 10 (hello ++ repeat 32 5). slot_end.
    + reflexivity.
    + left. by_run.
    + apply (Behind 3%nat 1%nat 42 63).
      * apply (skips_corrupted nicked 2 21 23); [reflexivity | left; by_run
          | lia | by_run | | left; right; reflexivity |].
        { intros i Hi. assert (E : i = 22) by lia. subst i.
          unfold flag. by_run. }
        apply (skips_invalid nicked 1 23 0); [reflexivity | reflexivity
          | reflexivity | by_run |].
        apply (skips_corrupted nicked 0 34 42); [reflexivity | left; by_run
          | lia | by_run | | left; left; reflexivity | apply skips_end].
        intros i Hi.
        assert (C : i = 35 \/ i = 36 \/ i = 37 \/ i = 38 \/ i = 39
                    \/ i = 40 \/ i = 41) by lia.
        unfold flag.
        destruct C as [-> | [-> | [-> | [-> | [-> | [-> | ->]]]]]]; by_run.
      * slot_valid 42 10 (hello ++ repeat 32 5). slot_end.
      * reflexivity.
  - (* the whole header of the second document is overwritten *)
    assert (W : wf blanked) by (unfold wf; by_run).
    destruct (C6_scan_resynchronizes collect [] blanked W) as [_ Scan].
    destruct (Scan (fun v id doc => eq_refl) 1%nat [(0, [97; 32])] 13)
      as [_ Behind].
    + slot_valid 0 2 [97; 32]. slot_end.
    + reflexivity.
    + left. by_run.
    + apply (Behind 1%nat 2%nat 26 52).
      * apply (skips_corrupted blanked 0 13 26); [reflexivity | left; by_run
          | lia | by_run | | left; left; reflexivity | apply skips_end].
        intros i Hi.
        assert (C : i = 14 \/ i = 15 \/ i = 16 \/ i = 17 \/ i = 18
                    \/ i = 19 \/ i = 20 \/ i = 21 \/ i = 22 \/ i = 23
                    \/ i = 24 \/ i = 25) by lia.
        unfold flag.
        destruct C as [-> | [-> | [-> | [-> | [-> | [-> | [-> | [-> | [-> |
                      [-> | [-> | ->]]]]]]]]]]]; by_run.
      * slot_valid 26 2 [99; 32]. slot_valid 39 2 [100; 32]. slot_end.
      * reflexivity.
Defined.

(** C7. Oversize rejection: a document whose doubled length is above
    DOC_MAX_ROOM makes Insert fail with "Document is too large", and the
    store, UsedSize with it, is as before. *)
Theorem C7_oversize_rejected (f : File) (data : list Z) :
  len data < 2 ^ 63 -> 2 * len data > DOC_MAX_ROOM ->
  Insert data f = (Done (0, Some ErrTooLarge), f)
  /\ UsedSize (snd (Insert data f)) = UsedSize f.
Proof.
  intros Hint Hbig. rewrite (Insert_too_large f data Hint Hbig). auto.
Qed.

Lemma C7_witness :
  Insert big_doc store_a = (Done (0, Some ErrTooLarge), store_a)
  /\ UsedSize (snd (Insert big_doc store_a)) = UsedSize store_a.
Proof.
  apply (C7_oversize_rejected store_a big_doc); vm_compute; reflexivity.
Defined.

(** C8. Delete is idempotent and tolerant: it never panics; after one
    Delete and after a second one Read of the id returns nil; the second
    Delete changes nothing; and on an id that is out of bounds or whose
    validity byte is not DOC_VALID, Delete leaves the store as it was. *)
Theorem C8_delete_idempotent (f : File) (id : Z) :
  wf f -> 0 <= id ->
  let f1 := snd (Delete id f) in
  let f2 := snd (Delete id f1) in
  fst (Delete id f) = Done tt
  /\ Read id f1 = (Done None, f1)
  /\ fst (Delete id f1) = Done tt
  /\ f2 = f1
  /\ Read id f2 = (Done None, f2)
  /\ (out_of_bounds f id = true \/ byte_at f id <> DOC_VALID -> f1 = f).
Proof.
  intros W Hid. cbv zeta.
  rewrite (Delete_run f id W Hid). cbn [fst snd].
  rewrite (Delete_run _ id (wf_deleted f id W Hid) Hid). cbn [fst snd].
  rewrite (deleted_twice f id W Hid).
  rewrite (Read_deleted f id W Hid).
  repeat split.
  intros [B | NV]; unfold deleted.
  - now rewrite B.
  - destruct (out_of_bounds f id); [reflexivity|].
    destruct (Z.eqb_spec (byte_at f id) DOC_VALID);
      [contradiction | reflexivity].
Qed.

Lemma C8_witness :
  let f1 := snd (Delete 0 store_a) in
  let f2 := snd (Delete 0 f1) in
  fst (Delete 0 store_a) = Done tt
  /\ Read 0 f1 = (Done None, f1)
  /\ fst (Delete 0 f1) = Done tt
  /\ f2 = f1
  /\ Read 0 f2 = (Done None, f2)
  /\ (out_of_bounds store_a 0 = true \/ byte_at store_a 0 <> DOC_VALID
      -> f1 = store_a).
Proof.
  apply (C8_delete_idempotent store_a 0); [unfold wf; by_run | lia].
Defined.

(** C9. UsedSize is monotonic: over every run of Insert, Update and Delete
    on a well-formed store UsedSize does not go down, and no single
    operation, Delete included, makes it smaller. *)
Theorem C9_UsedSize_monotonic (ops : list op) (f : File) :
  wf f -> Forall op_ok ops ->
  UsedSize f <= UsedSize (run ops f)
  /\ (forall o, op_ok o -> UsedSize f <= UsedSize (exec o f))
  /\ (forall id, UsedSize (exec (OpDelete id) f) = UsedSize f).
Proof.
  intros W Hops. split; [|split].
  - revert f W. induction Hops as [| o ops Ho _ IH]; intros f W.
    + cbn. lia.
    + destruct (growing_exec o f Ho W) as [W1 U1].
      specialize (IH (exec o f) W1). cbn [run fold_left] in *.
      unfold run in IH. lia.
  - intros o Ho. now apply growing_exec.
  - intros id. cbn [exec]. exact (proj2 (steady_Delete id f W)).
Qed.

Lemma C9_witness :
  UsedSize store_a
  <= UsedSize (run [OpUpdate 0 doc_bcd; OpDelete 13; OpInsert doc_a] store_a)
  /\ (forall o, op_ok o -> UsedSize store_a <= UsedSize (exec o store_a))
  /\ (forall id, UsedSize (exec (OpDelete id) store_a) = UsedSize store_a).
Proof.
  apply (C9_UsedSize_monotonic
           [OpUpdate 0 doc_bcd; OpDelete 13; OpInsert doc_a] store_a).
  - unfold wf. by_run.
  - repeat constructor.
Defined.

(** C10. Update is not atomic on failure: for a valid slot and data longer
    than its room, at most DOC_MAX_ROOM long but with a doubled length above
    DOC_MAX_ROOM, Update marks the slot invalid and then returns Insert's
    "Document is too large"; afterwards Read of the id returns nil. *)
Theorem C10_update_fails_after_delete
        (f : File) (id room : Z) (data : list Z) :
  wf f -> valid_slot f id room ->
  room < len data -> len data <= DOC_MAX_ROOM ->
  2 * len data > DOC_MAX_ROOM ->
  let f' := snd (Update id data f) in
  fst (Update id data f) = Done (0, Some ErrTooLarge)
  /\ f' = deleted f id
  /\ byte_at f' id = DOC_INVALID
  /\ Read id f' = (Done None, f').
Proof.
  intros W V Hroom Hlen Hbig. cbv zeta.
  pose proof (valid_slot_present f id room W V) as NA.
  assert (Hid : 0 <= id) by apply V.
  assert (Hr : room_at f id = room) by apply V.
  rewrite Update_present_run by assumption.
  rewrite Hr. destruct (Z.leb_spec (len data) room); [lia|].
  unfold bind. rewrite Delete_run by assumption.
  rewrite Insert_too_large by (unfold DOC_MAX_ROOM in *; lia).
  cbn [fst snd].
  split; [reflexivity|]. split; [reflexivity|].
  split; [now apply (byte_at_deleted_slot f id room)|].
  now apply Read_deleted.
Qed.

Lemma C10_witness :
  let f' := snd (Update 0 big_doc store_a) in
  fst (Update 0 big_doc store_a) = Done (0, Some ErrTooLarge)
  /\ f' = deleted store_a 0
  /\ byte_at f' 0 = DOC_INVALID
  /\ Read 0 f' = (Done None, f').
Proof.
  apply (C10_update_fails_after_delete store_a 0 2 big_doc);
    [unfold wf; by_run | unfold valid_slot; by_run
     | by_run | by_run | by_run].
Defined.

(** * Further properties of the collection file *)

Import FrameFacts VisitFacts AppendFacts ChangeFacts EdgeFacts ReportFacts.

(** X1. Insert appends a slot.  When the doubled length of the document is
    at most DOC_MAX_ROOM and the buffer has or gets the room, Insert returns
    the old UsedSize as id and moves UsedSize forward by the header and twice
    the length of the document; the store stays well formed and keeps its
    name, the buffer does not shrink and no byte below the old UsedSize
    changes; at the id there is the validity byte DOC_VALID, a room field that
    decodes to twice the length, and a payload of the document followed by as
    many spaces as the document is long. *)
Theorem X1_insert_appends_slot (f : File) (data : list Z) :
  wf f -> 2 * len data <= DOC_MAX_ROOM ->
  CheckSizeAndEnsure f (DOC_HEADER_SIZE + 2 * len data) <> None ->
  exists f',
    Insert data f = (Done (UsedSize f, None), f')
    /\ wf f'
    /\ UsedSize f' = UsedSize f + DOC_HEADER_SIZE + 2 * len data
    /\ Size f <= Size f' /\ Name f' = Name f
    /\ same_bytes f f' 0 (UsedSize f)
    /\ byte_at f' (UsedSize f) = DOC_VALID
    /\ room_at f' (UsedSize f) = 2 * len data
    /\ payload f' (UsedSize f) (2 * len data)
       = data ++ repeat 32 (length data).
Proof.
  intros W Hlen Hg.
  destruct (Insert_step f data W Hlen Hg)
    as (f1 & HI & W1 & HU1 & HS1 & HN1 & _ & Sm & E1 & R1 & P1).
  exists f1. unfold slot_size in HU1.
  repeat (split; [assumption || lia|]). exact P1.
Qed.

Lemma X1_witness :
  exists f',
    Insert doc_bcd store_a = (Done (UsedSize store_a, None), f')
    /\ wf f'
    /\ UsedSize f' = UsedSize store_a + DOC_HEADER_SIZE + 2 * len doc_bcd
    /\ Size store_a <= Size f' /\ Name f' = Name store_a
    /\ same_bytes store_a f' 0 (UsedSize store_a)
    /\ byte_at f' (UsedSize store_a) = DOC_VALID
    /\ room_at f' (UsedSize store_a) = 2 * len doc_bcd
    /\ payload f' (UsedSize store_a) (2 * len doc_bcd)
       = doc_bcd ++ repeat 32 (length doc_bcd).
Proof.
  apply (X1_insert_appends_slot store_a doc_bcd); unfold wf; by_run.
Defined.

(** X2. Insert keeps the documents that are there.  A slot that is valid
    before Insert is valid afterwards, with the same room and the same
    payload; the id that Insert returns is not its id; and Read of its id
    returns its payload in the store after Insert. *)
Theorem X2_insert_keeps_documents
        (f : File) (data : list Z) (id room : Z) :
  wf f -> 2 * len data <= DOC_MAX_ROOM ->
  CheckSizeAndEnsure f (DOC_HEADER_SIZE + 2 * len data) <> None ->
  valid_slot f id room ->
  exists f',
    Insert data f = (Done (UsedSize f, None), f')
    /\ id <> UsedSize f
    /\ valid_slot f' id room
    /\ payload f' id room = payload f id room
    /\ Read id f' = (Done (Some (payload f id room)), f').
Proof.
  intros W Hlen Hg V.
  destruct (Insert_step f data W Hlen Hg)
    as (f1 & HI & W1 & HU1 & HS1 & HN1 & _ & Sm & E1 & R1 & P1).
  pose proof (len_nonneg data) as Hd.
  pose proof V as (H0 & H1 & H2 & H3 & H4 & H5 & H6).
  pose proof W1 as (_ & HUs1 & _).
  unfold slot_size, DOC_HEADER_SIZE in *.
  assert (Sm' : same_bytes f f1 id (id + DOC_HEADER_SIZE + room)).
  { eapply same_bytes_part; [exact Sm | lia | unfold DOC_HEADER_SIZE; lia]. }
  destruct (valid_slot_same f f1 id room W W1 ltac:(lia) Sm' V) as [V1 P].
  exists f1. split; [assumption|]. split; [lia|].
  split; [assumption|]. split; [assumption|].
  rewrite <- P. apply Read_valid_slot; try assumption.
  unfold DOC_HEADER_SIZE. lia.
Qed.

Lemma X2_witness :
  exists f',
    Insert doc_bcd store_a = (Done (UsedSize store_a, None), f')
    /\ 0 <> UsedSize store_a
    /\ valid_slot f' 0 2
    /\ payload f' 0 2 = payload store_a 0 2
    /\ Read 0 f' = (Done (Some (payload store_a 0 2)), f').
Proof.
  apply (X2_insert_keeps_documents store_a doc_bcd 0 2);
    [unfold wf; by_run | by_run | by_run | unfold valid_slot; by_run].
Defined.

(** X3. The empty document.  Insert of the empty document succeeds and takes
    a header of eleven bytes.  Its id is then UsedSize - DOC_HEADER_SIZE,
    which the bounds check of Read, Update and Delete turns down: Read returns
    nil, Update reports that the document does not exist, and Delete does
    nothing.  Once another document has been inserted behind it, Read of the
    id returns the empty document. *)
Theorem X3_empty_document (f : File) (data next : list Z) :
  wf f -> CheckSizeAndEnsure f DOC_HEADER_SIZE <> None ->
  len data <= DOC_MAX_ROOM ->
  exists f',
    Insert [] f = (Done (UsedSize f, None), f')
    /\ UsedSize f' = UsedSize f + DOC_HEADER_SIZE
    /\ Read (UsedSize f) f' = (Done None, f')
    /\ Update (UsedSize f) data f'
       = (Done (0, Some (ErrNotExist (UsedSize f) (Name f'))), f')
    /\ Delete (UsedSize f) f' = (Done tt, f')
    /\ (2 * len next <= DOC_MAX_ROOM ->
        CheckSizeAndEnsure f' (DOC_HEADER_SIZE + 2 * len next) <> None ->
        exists f'',
          Insert next f' = (Done (UsedSize f', None), f'')
          /\ Read (UsedSize f) f'' = (Done (Some []), f'')).
Proof.
  intros W Hg Hdata. pose proof W as (HL & HU & HS).
  assert (Hlen : 2 * len (@nil Z) <= DOC_MAX_ROOM) by (vm_compute; discriminate).
  destruct (Insert_step f [] W Hlen Hg)
    as (f1 & HI & W1 & HU1 & HS1 & HN1 & _ & Sm & E1 & R1 & P1).
  change (slot_size []) with 11 in HU1.
  assert (B : out_of_bounds f1 (UsedSize f) = true).
  { destruct (out_of_bounds f1 (UsedSize f)) eqn:B; [reflexivity|].
    apply (out_of_bounds_false f1 _ W1) in B. unfold DOC_HEADER_SIZE in B.
    lia. }
  exists f1. split; [assumption|]. split; [unfold DOC_HEADER_SIZE; lia|].
  split; [apply Read_out_of_bounds; assumption || lia|].
  split.
  { apply Update_absent_run; try assumption; try lia. now left. }
  split.
  { rewrite Delete_run by (assumption || lia). unfold deleted. now rewrite B. }
  intros Hnext Hg1.
  destruct (Insert_step f1 next W1 Hnext Hg1)
    as (f2 & HI2 & W2 & HU2 & HS2 & HN2 & _ & Sm2 & _).
  pose proof (len_nonneg next) as Hn.
  pose proof W1 as (HL1 & HUs1 & _). pose proof W2 as (HL2 & HUs2 & _).
  unfold slot_size, DOC_HEADER_SIZE in *.
  exists f2. split; [assumption|].
  assert (E2 : byte_at f2 (UsedSize f) = DOC_VALID)
    by (rewrite Sm2 by lia; assumption).
  assert (R2 : room_at f2 (UsedSize f) = 0).
  { change 0 with (2 * len (@nil Z)). rewrite <- R1.
    apply room_at_same; try lia.
    eapply same_bytes_part; [exact Sm2 | lia | lia]. }
  rewrite (Read_valid_slot f2 (UsedSize f) 0); try assumption.
  - unfold payload, sub. now rewrite Z.add_0_r, Z.sub_diag.
  - unfold valid_slot, DOC_HEADER_SIZE, DOC_MAX_ROOM.
    repeat split; assumption || lia.
  - unfold DOC_HEADER_SIZE. lia.
Qed.

Lemma X3_witness :
  exists f',
    Insert [] store_a = (Done (UsedSize store_a, None), f')
    /\ UsedSize f' = UsedSize store_a + DOC_HEADER_SIZE
    /\ Read (UsedSize store_a) f' = (Done None, f')
    /\ Update (UsedSize store_a) doc_b f'
       = (Done (0, Some (ErrNotExist (UsedSize store_a) (Name f'))), f')
    /\ Delete (UsedSize store_a) f' = (Done tt, f')
    /\ (2 * len doc_bcd <= DOC_MAX_ROOM ->
        CheckSizeAndEnsure f' (DOC_HEADER_SIZE + 2 * len doc_bcd) <> None ->
        exists f'',
          Insert doc_bcd f' = (Done (UsedSize f', None), f'')
          /\ Read (UsedSize store_a) f'' = (Done (Some []), f'')).
Proof.
  apply (X3_empty_document store_a doc_b doc_bcd); unfold wf; by_run.
Defined.

(** X4. A store without a slot.  While UsedSize is below DOC_HEADER_SIZE,
    the bounds check turns every id down before a byte is looked at: Read
    returns nil, Update reports that the document does not exist, Delete does
    nothing, and ForAll ends without a call of the visitor and without a log
    entry. *)
Theorem X4_store_without_a_slot
        {V : Type} (visit : V -> Z -> list Z -> bool * V) (v : V)
        (f : File) (id : Z) (data : list Z) :
  UsedSize f < DOC_HEADER_SIZE -> len data <= DOC_MAX_ROOM ->
  Read id f = (Done None, f)
  /\ Update id data f = (Done (0, Some (ErrNotExist id (Name f))), f)
  /\ Delete id f = (Done tt, f)
  /\ ForAll visit v f = (Done (v, []), f).
Proof.
  intros Hu Hlen. pose proof (len_nonneg data) as Hd.
  assert (B : forall i, out_of_bounds f i = true).
  { intros i. unfold out_of_bounds.
    destruct (Z.ltb_spec (UsedSize f) DOC_HEADER_SIZE); [reflexivity | lia]. }
  split; [unfold Read, bind, file; now rewrite B|].
  split.
  { unfold Update. unfold DOC_MAX_ROOM in Hlen.
    rewrite (u64_small (len data)) by lia.
    destruct (Z.gtb_spec (len data) DOC_MAX_ROOM) as [Big|_];
      [unfold DOC_MAX_ROOM in Big; lia|].
    unfold bind, file. now rewrite B. }
  split; [unfold Delete, bind, file; now rewrite B|].
  unfold ForAll. now apply scan_end.
Qed.

Lemma X4_witness :
  Read 7 (fresh 64 COL_FILE_SIZE) = (Done None, fresh 64 COL_FILE_SIZE)
  /\ Update 7 doc_a (fresh 64 COL_FILE_SIZE)
     = (Done (0, Some (ErrNotExist 7 (Name (fresh 64 COL_FILE_SIZE)))),
        fresh 64 COL_FILE_SIZE)
  /\ Delete 7 (fresh 64 COL_FILE_SIZE) = (Done tt, fresh 64 COL_FILE_SIZE)
  /\ ForAll collect [] (fresh 64 COL_FILE_SIZE)
     = (Done ([], []), fresh 64 COL_FILE_SIZE).
Proof.
  apply (X4_store_without_a_slot collect [] (fresh 64 COL_FILE_SIZE) 7 doc_a);
    by_run.
Defined.

(** X5. The errors of Update.  Data longer than DOC_MAX_ROOM is turned down
    with "Updated document is too large" before the id is looked at, and the
    store stays as it is.  Update returns an error in three cases only, each
    with the id 0: this one; "Document does not exist", with the store as it
    was; and Insert's "Document is too large" for data that is longer than the
    room and longer than half of DOC_MAX_ROOM, with the store as Delete of the
    id leaves it. *)
Theorem X5_update_errors (f : File) (id : Z) (data : list Z) :
  wf f -> 0 <= id -> len data < 2 ^ 63 ->
  (DOC_MAX_ROOM < len data ->
   Update id data f = (Done (0, Some ErrUpdatedTooLarge), f))
  /\ (forall x e f',
         Update id data f = (Done (x, Some e), f') ->
         x = 0
         /\ ((e = ErrUpdatedTooLarge /\ DOC_MAX_ROOM < len data /\ f' = f)
             \/ (e = ErrNotExist id (Name f) /\ len data <= DOC_MAX_ROOM
                 /\ update_absent f id /\ f' = f)
             \/ (e = ErrTooLarge /\ room_at f id < len data <= DOC_MAX_ROOM
                 /\ DOC_MAX_ROOM < 2 * len data /\ ~ update_absent f id
                 /\ f' = deleted f id))).
Proof.
  intros W Hid Hint. split.
  - intros Big. pose proof (len_nonneg data) as Hd.
    assert (H64 : 2 ^ 63 < 2 ^ 64) by reflexivity.
    unfold Update. rewrite (u64_small (len data)) by lia.
    destruct (Z.gtb_spec (len data) DOC_MAX_ROOM); [reflexivity | lia].
  - intros x e f' U. now apply (Update_errors f id data).
Qed.

Lemma X5_witness :
  (DOC_MAX_ROOM < len big_doc ->
   Update 0 big_doc store_a = (Done (0, Some ErrUpdatedTooLarge), store_a))
  /\ (forall x e f',
         Update 0 big_doc store_a = (Done (x, Some e), f') ->
         x = 0
         /\ ((e = ErrUpdatedTooLarge /\ DOC_MAX_ROOM < len big_doc
              /\ f' = store_a)
             \/ (e = ErrNotExist 0 (Name store_a)
                 /\ len big_doc <= DOC_MAX_ROOM
                 /\ update_absent store_a 0 /\ f' = store_a)
             \/ (e = ErrTooLarge
                 /\ room_at store_a 0 < len big_doc <= DOC_MAX_ROOM
                 /\ DOC_MAX_ROOM < 2 * len big_doc
                 /\ ~ update_absent store_a 0
                 /\ f' = deleted store_a 0))).
Proof.
  apply (X5_update_errors store_a 0 big_doc);
    [unfold wf; by_run | lia | vm_compute; reflexivity].
Defined.

(** X6. Delete changes one byte at most.  Delete leaves UsedSize, Size and
    the length of the buffer as they are and every byte but the one at [id]
    alone; the byte at [id] either stays or goes from DOC_VALID to
    DOC_INVALID.  So every valid slot that [id] does not lie in stays valid
    with its room and payload, and Read of it returns what it returned. *)
Theorem X6_delete_changes_one_byte (f : File) (id : Z) :
  wf f -> 0 <= id ->
  let f' := snd (Delete id f) in
  fst (Delete id f) = Done tt
  /\ UsedSize f' = UsedSize f /\ Size f' = Size f
  /\ len (Buf f') = len (Buf f)
  /\ (forall i, 0 <= i -> i <> id -> byte_at f' i = byte_at f i)
  /\ (byte_at f' id = byte_at f id
      \/ (byte_at f id = DOC_VALID /\ byte_at f' id = DOC_INVALID))
  /\ (forall id' room,
         valid_slot f id' room ->
         id < id' \/ id' + DOC_HEADER_SIZE + room <= id ->
         valid_slot f' id' room
         /\ payload f' id' room = payload f id' room
         /\ fst (Read id' f') = fst (Read id' f)).
Proof.
  intros W Hid. cbv zeta. rewrite (Delete_run f id W Hid). cbn [fst snd].
  pose proof (wf_deleted f id W Hid) as Wd.
  destruct (deleted_fields f id) as (DU & DS & _ & _).
  pose proof W as (HL & _ & _). pose proof Wd as (HLd & _ & _).
  split; [reflexivity|]. split; [assumption|]. split; [assumption|].
  split; [lia|]. split; [|split].
  - intros i Hi Ne.
    apply (same_bytes_deleted f id i (i + 1)); try assumption; lia.
  - destruct (out_of_bounds f id) eqn:B.
    + left. unfold deleted. now rewrite B.
    + destruct (Z.eq_dec (byte_at f id) DOC_VALID) as [E | NE].
      * right. split; [assumption|]. now apply byte_at_deleted_valid.
      * left. unfold deleted. rewrite B.
        destruct (Z.eqb_spec (byte_at f id) DOC_VALID);
          [contradiction | reflexivity].
  - intros id' room V Out.
    assert (H0 : 0 <= id') by apply V.
    assert (Sm : same_bytes f (deleted f id) id'
                            (id' + DOC_HEADER_SIZE + room))
      by (apply same_bytes_deleted; assumption).
    destruct (valid_slot_same f _ id' room W Wd ltac:(lia) Sm V) as [V' P].
    split; [assumption|]. split; [assumption|].
    now apply (Read_same f _ id' room).
Qed.

Lemma X6_witness :
  let f' := snd (Delete 13 four_docs) in
  fst (Delete 13 four_docs) = Done tt
  /\ UsedSize f' = UsedSize four_docs /\ Size f' = Size four_docs
  /\ len (Buf f') = len (Buf four_docs)
  /\ (forall i, 0 <= i -> i <> 13 -> byte_at f' i = byte_at four_docs i)
  /\ (byte_at f' 13 = byte_at four_docs 13
      \/ (byte_at four_docs 13 = DOC_VALID /\ byte_at f' 13 = DOC_INVALID))
  /\ (forall id' room,
         valid_slot four_docs id' room ->
         13 < id' \/ id' + DOC_HEADER_SIZE + room <= 13 ->
         valid_slot f' id' room
         /\ payload f' id' room = payload four_docs id' room
         /\ fst (Read id' f') = fst (Read id' four_docs)).
Proof.
  apply (X6_delete_changes_one_byte four_docs 13); [unfold wf; by_run | lia].
Defined.

(** X7. An update in place writes into its own payload only.  For a valid
    slot at [id] and data that fits its room, Update leaves every byte
    outside the payload of the slot alone, the header of the slot with it;
    every other valid slot that does not overlap the slot stays valid with
    its room and payload, and Read of it returns what it returned. *)
Theorem X7_update_in_place_is_local
        (f : File) (id room : Z) (data : list Z) :
  wf f -> valid_slot f id room -> len data <= room ->
  let f' := snd (Update id data f) in
  same_bytes f f' 0 (id + DOC_HEADER_SIZE)
  /\ same_bytes f f' (id + DOC_HEADER_SIZE + room) (Size f)
  /\ Size f' = Size f
  /\ (forall id' room',
         valid_slot f id' room' ->
         id' + DOC_HEADER_SIZE + room' <= id
         \/ id + DOC_HEADER_SIZE + room <= id' ->
         valid_slot f' id' room'
         /\ payload f' id' room' = payload f id' room'
         /\ fst (Read id' f') = fst (Read id' f)).
Proof.
  intros W V Hlen. cbv zeta.
  pose proof (valid_slot_present f id room W V) as NA.
  pose proof W as (HL & HU & HS).
  pose proof V as (H0 & H1 & H2 & H3 & H4 & H5 & H6).
  assert (Hend : id + DOC_HEADER_SIZE + room <= Size f) by lia.
  pose proof (room_at_nonneg f id) as Hr. rewrite H4 in Hr.
  assert (U : Update id data f
              = (Done (id, None), overwritten f id data room)).
  { rewrite Update_present_run by (assumption || lia).
    rewrite H4. destruct (Z.leb_spec (len data) room); [|lia].
    now apply overwrite_run. }
  rewrite U. cbn [snd].
  pose proof (wf_overwritten f id data room W H0 Hlen Hend) as Wo.
  assert (Sm : forall low high,
             0 <= low ->
             high <= id + DOC_HEADER_SIZE
             \/ id + DOC_HEADER_SIZE + room <= low ->
             same_bytes f (overwritten f id data room) low high)
    by (intros; now apply same_bytes_overwritten).
  split; [apply Sm; lia|]. split; [apply Sm; unfold DOC_HEADER_SIZE; lia|].
  split; [reflexivity|].
  intros id' room' V' Out.
  assert (H0' : 0 <= id') by apply V'.
  assert (Sm' : same_bytes f (overwritten f id data room) id'
                           (id' + DOC_HEADER_SIZE + room')).
  { apply Sm; [assumption|]. unfold DOC_HEADER_SIZE in *. lia. }
  destruct (valid_slot_same f _ id' room' W Wo
              ltac:(unfold overwritten; cbn [UsedSize with_Buf]; lia) Sm' V')
    as [V1 P].
  split; [assumption|]. split; [assumption|].
  now apply (Read_same f _ id' room').
Qed.

Lemma X7_witness :
  let f' := snd (Update 13 [120] four_docs) in
  same_bytes four_docs f' 0 (13 + DOC_HEADER_SIZE)
  /\ same_bytes four_docs f' (13 + DOC_HEADER_SIZE + 2) (Size four_docs)
  /\ Size f' = Size four_docs
  /\ (forall id' room',
         valid_slot four_docs id' room' ->
         id' + DOC_HEADER_SIZE + room' <= 13
         \/ 13 + DOC_HEADER_SIZE + 2 <= id' ->
         valid_slot f' id' room'
         /\ payload f' id' room' = payload four_docs id' room'
         /\ fst (Read id' f') = fst (Read id' four_docs)).
Proof.
  apply (X7_update_in_place_is_local four_docs 13 2 [120]);
    [unfold wf; by_run | unfold valid_slot; by_run | by_run].
Defined.

(** X8. The scan ends.  On every well-formed store and with every visitor,
    ForAll comes to an end within the rounds that UsedSize allows for, with a
    result or with the panic of a slice expression, since every round moves
    the address forward; and it leaves the store as it is. *)
Theorem X8_scan_ends
        {V : Type} (visit : V -> Z -> list Z -> bool * V) (v : V) (f : File) :
  wf f ->
  fst (ForAll visit v f) <> OutOfFuel /\ snd (ForAll visit v f) = f.
Proof.
  intros W. unfold ForAll. apply scan_total; [assumption | lia | lia].
Qed.

Lemma X8_witness :
  fst (ForAll collect [] damaged) <> OutOfFuel
  /\ snd (ForAll collect [] damaged) = damaged.
Proof.
  apply (X8_scan_ends collect [] damaged). unfold wf. by_run.
Defined.

(** X9. The scan of sound slots.  When the store holds slots with sound
    headers from 0 up to the end of the scan, ForAll calls the visitor on the
    valid ones, with id and payload, in the order of the ids, passes over the
    invalid ones, writes no log entry, and returns when the bounds check
    fails; this for every visitor that asks for more after each of the
    calls. *)
Theorem X9_scan_visits_valid_slots
        {V : Type} (visit : V -> Z -> list Z -> bool * V) (v : V)
        (f : File) (k : nat) (vs : list (Z * list Z)) (e : Z) :
  wf f -> slots f k 0 vs e -> out_of_bounds f e = true ->
  goes_through visit v vs = true ->
  ForAll visit v f = (Done (visit_all visit v vs, []), f).
Proof.
  intros W Sl Be G. now apply (scan_all visit f k vs e).
Qed.

Lemma X9_witness :
  ForAll collect [] (snd (Delete 13 four_docs))
  = (Done (visit_all collect []
             [(0, [97; 32]); (26, [99; 32]); (39, [100; 32])], []),
     snd (Delete 13 four_docs)).
Proof.
  apply (X9_scan_visits_valid_slots collect [] _ 4 _ 52).
  - unfold wf. by_run.
  - slot_valid 0 2 [97; 32].
    apply (slots_invalid _ _ 13 2); [by_run | by_run | by_run | by_run |].
    slot_valid 26 2 [99; 32]. slot_valid 39 2 [100; 32]. slot_end.
  - reflexivity.
  - reflexivity.
Defined.

(** X10. The scan stops when the visitor says so.  After slots with sound
    headers on which the visitor asks for more, a valid slot on which the
    visitor returns false ends ForAll at once: the result is the visitor's
    state after this call, and nothing behind the slot is looked at, whatever
    it holds. *)
Theorem X10_scan_stops_early
        {V : Type} (visit : V -> Z -> list Z -> bool * V) (v : V)
        (f : File) (k : nat) (vs : list (Z * list Z)) (c : Z) (doc : list Z) :
  wf f -> slots f k 0 vs c -> goes_through visit v vs = true ->
  out_of_bounds f c = false -> byte_at f c = DOC_VALID ->
  room_at f c <= DOC_MAX_ROOM ->
  c + DOC_HEADER_SIZE + room_at f c <= Size f ->
  payload f c (room_at f c) = doc ->
  fst (visit (visit_all visit v vs) c doc) = false ->
  ForAll visit v f
  = (Done (snd (visit (visit_all visit v vs) c doc), []), f).
Proof.
  intros W Sl G Bc E M Hend P Stop. pose proof W as (HL & HU & HS).
  destruct (slots_span f k 0 vs c Sl W) as [Sp _].
  apply (out_of_bounds_false f c W) in Bc as Bc'.
  unfold ForAll, DOC_HEADER_SIZE in *.
  replace (S (Z.to_nat (UsedSize f)))
    with (k + S (Z.to_nat (UsedSize f) - k))%nat by lia.
  rewrite (scan_slots_while visit f k 0 vs c W Sl) by (assumption || lia).
  apply scan_stop; unfold DOC_HEADER_SIZE; assumption || lia.
Qed.

Lemma X10_witness :
  ForAll (collect_until 0) [] damaged
  = (Done (snd (collect_until 0 (visit_all (collect_until 0) [] [])
                              0 [97; 32]), []), damaged).
Proof.
  apply (X10_scan_stops_early (collect_until 0) [] damaged 0 [] 0).
  - unfold wf. by_run.
  - slot_end.
  - reflexivity.
  - reflexivity.
  - by_run.
  - by_run.
  - by_run.
  - by_run.
  - reflexivity.
Defined.

(** X11. A valid header whose room ends behind the buffer.  Read compares
    the end of the payload with Size and returns nil; ForAll does not: when
    the scan comes to such a header, the slice expression for the visitor is
    out of range and ForAll panics, the store being as it was. *)
Theorem X11_scan_panics_behind_buffer
        {V : Type} (visit : V -> Z -> list Z -> bool * V) (v : V)
        (f : File) (k : nat) (vs : list (Z * list Z)) (c : Z) :
  wf f -> slots f k 0 vs c -> goes_through visit v vs = true ->
  out_of_bounds f c = false -> byte_at f c = DOC_VALID ->
  room_at f c <= DOC_MAX_ROOM ->
  Size f < c + DOC_HEADER_SIZE + room_at f c ->
  ForAll visit v f = (Panic, f) /\ Read c f = (Done None, f).
Proof.
  intros W Sl G Bc E M Hend. pose proof W as (HL & HU & HS).
  destruct (slots_span f k 0 vs c Sl W) as [Sp _].
  apply (out_of_bounds_false f c W) in Bc as Bc'.
  unfold DOC_HEADER_SIZE in *.
  split.
  - unfold ForAll.
    replace (S (Z.to_nat (UsedSize f)))
      with (k + S (Z.to_nat (UsedSize f) - k))%nat by lia.
    rewrite (scan_slots_while visit f k 0 vs c W Sl) by (assumption || lia).
    apply scan_panic; unfold DOC_HEADER_SIZE; assumption || lia.
  - rewrite Read_run by (assumption || lia). unfold read_result.
    rewrite Bc, E. cbn [negb Z.eqb DOC_VALID Pos.eqb].
    destruct (Z.gtb_spec (room_at f c) DOC_MAX_ROOM); [reflexivity|].
    unfold DOC_HEADER_SIZE.
    destruct (Z.geb_spec (c + (1 + 10) + room_at f c) (Size f));
      [reflexivity | lia].
Qed.

Lemma X11_witness :
  ForAll collect [] overlong = (Panic, overlong)
  /\ Read 0 overlong = (Done None, overlong).
Proof.
  apply (X11_scan_panics_behind_buffer collect [] overlong 0 [] 0).
  - unfold wf. by_run.
  - slot_end.
  - reflexivity.
  - reflexivity.
  - by_run.
  - by_run.
  - by_run.
Defined.

(** X12. Update of such a slot.  Update compares id + room with UsedSize,
    not the end of the payload with Size: for a valid header with a room of
    at most DOC_MAX_ROOM and id + room below UsedSize whose payload would end
    behind the buffer, Update with data that fits the room goes into the
    branch that overwrites in place and panics there on a slice expression
    out of range, where Read returns nil. *)
Theorem X12_update_panics_behind_buffer
        (f : File) (id : Z) (data : list Z) :
  wf f -> 0 <= id -> out_of_bounds f id = false ->
  byte_at f id = DOC_VALID -> room_at f id <= DOC_MAX_ROOM ->
  id + room_at f id < UsedSize f ->
  Size f < id + DOC_HEADER_SIZE + room_at f id ->
  len data <= room_at f id ->
  fst (Update id data f) = Panic /\ Read id f = (Done None, f).
Proof.
  intros W Hid B E M Hin Hend Hlen. split.
  - rewrite Update_present_run; try assumption; try lia.
    + destruct (Z.leb_spec (len data) (room_at f id)); [|lia].
      now apply overwrite_panic.
    + unfold update_absent. intros [A|[A|[A|A]]]; try congruence; lia.
  - rewrite Read_run by assumption. unfold read_result.
    rewrite B, E. cbn [negb Z.eqb DOC_VALID Pos.eqb].
    destruct (Z.gtb_spec (room_at f id) DOC_MAX_ROOM); [reflexivity|].
    destruct (Z.geb_spec (id + DOC_HEADER_SIZE + room_at f id) (Size f));
      [reflexivity | lia].
Qed.

Lemma X12_witness :
  fst (Update 0 doc_a overlong) = Panic
  /\ Read 0 overlong = (Done None, overlong).
Proof.
  apply (X12_update_panics_behind_buffer overlong 0 doc_a);
    [unfold wf; by_run | lia | reflexivity | by_run | by_run | by_run
     | by_run | by_run].
Defined.

(** X13. The scan after a row of Inserts.  Let the used part of the store be
    slots with sound headers from 0 to UsedSize, and let documents that are
    not empty, each of a doubled length of at most DOC_MAX_ROOM, be inserted
    one after the other into a buffer that has or can get the room for all of
    them.  Then the Inserts return the places of the new slots as ids,
    UsedSize has grown by the sizes of the new slots, and ForAll calls the
    visitor on what it met before and then on the new documents, in the order
    of the Inserts, each with the id that Insert returned for it and with its
    padding; there is no log entry. *)
Theorem X13_scan_after_inserts
        {V : Type} (visit : V -> Z -> list Z -> bool * V) (v : V)
        (f : File) (k : nat) (vs : list (Z * list Z))
        (docs : list (list Z)) :
  wf f -> slots f k 0 vs (UsedSize f) ->
  Forall (fun data => 0 < len data /\ 2 * len data <= DOC_MAX_ROOM) docs ->
  roomy f (total_size docs) ->
  goes_through visit v (vs ++ placed (UsedSize f) docs) = true ->
  exists f',
    insert_all docs f = (Done (map fst (placed (UsedSize f) docs)), f')
    /\ UsedSize f' = UsedSize f + total_size docs
    /\ ForAll visit v f'
       = (Done (visit_all visit v (vs ++ placed (UsedSize f) docs), []), f').
Proof.
  intros W Sl Hdocs Hroom G.
  destruct (Insert_row docs f k vs W Sl Hdocs Hroom)
    as (W' & HU' & _ & _ & _ & S').
  exists (run (map OpInsert docs) f).
  split; [now apply insert_all_run|]. split; [assumption|].
  apply (scan_all visit _ _ _ _ v W' S'); [|assumption].
  now apply out_of_bounds_end.
Qed.

Lemma X13_witness :
  exists f',
    insert_all [doc_a; doc_bcd; doc_b] (fresh 64 COL_FILE_SIZE)
    = (Done (map fst (placed (UsedSize (fresh 64 COL_FILE_SIZE))
                             [doc_a; doc_bcd; doc_b])), f')
    /\ UsedSize f'
       = UsedSize (fresh 64 COL_FILE_SIZE)
         + total_size [doc_a; doc_bcd; doc_b]
    /\ ForAll collect [] f'
       = (Done (visit_all collect []
                  ([] ++ placed (UsedSize (fresh 64 COL_FILE_SIZE))
                                [doc_a; doc_bcd; doc_b]), []), f').
Proof.
  apply (X13_scan_after_inserts collect [] (fresh 64 COL_FILE_SIZE) 0 []
           [doc_a; doc_bcd; doc_b]).
  - unfold wf. by_run.
  - slot_end.
  - repeat constructor; by_run.
  - left. by_run.
  - reflexivity.
Defined.

(** X14. The scan after Delete.  In a store of slots with sound headers,
    Delete of a document that the scan meets takes this document, and no
    other, out of what ForAll calls the visitor on. *)
Theorem X14_scan_after_delete
        {V : Type} (visit : V -> Z -> list Z -> bool * V) (v : V)
        (f : File) (k : nat) (vs : list (Z * list Z)) (e id : Z) :
  wf f -> slots f k 0 vs e -> out_of_bounds f e = true ->
  In id (map fst vs) ->
  goes_through visit v (without id vs) = true ->
  let f' := snd (Delete id f) in
  ForAll visit v f' = (Done (visit_all visit v (without id vs), []), f').
Proof.
  intros W Sl Be Hin G. cbv zeta.
  destruct (slots_id_end f k 0 vs e id W Sl Hin) as [Hid _].
  rewrite (Delete_run f id W Hid). cbn [snd].
  pose proof (wf_deleted f id W Hid) as Wd.
  pose proof (slots_deleted f id k 0 vs e W Sl ltac:(lia) Hin) as Sd.
  apply (scan_all visit _ _ _ _ v Wd Sd); [|assumption].
  now rewrite out_of_bounds_deleted.
Qed.

Lemma X14_witness :
  let f' := snd (Delete 26 four_docs) in
  ForAll collect [] f'
  = (Done (visit_all collect []
             (without 26 [(0, [97; 32]); (13, [98; 32]); (26, [99; 32]);
                          (39, [100; 32])]), []), f').
Proof.
  apply (X14_scan_after_delete collect [] four_docs 4 _ 52 26).
  - unfold wf. by_run.
  - slot_valid 0 2 [97; 32]. slot_valid 13 2 [98; 32].
    slot_valid 26 2 [99; 32]. slot_valid 39 2 [100; 32]. slot_end.
  - reflexivity.
  - cbn. tauto.
  - reflexivity.
Defined.

(** X15. The scan after an update in place.  In a store of slots with sound
    headers that end within the used part, Update of a document that the
    scan meets, with data that fits its room, returns the same id, and
    ForAll then calls the visitor with the same ids in the same order, with
    the new data and its padding for this id and the payloads as they were
    for the others. *)
Theorem X15_scan_after_update_in_place
        {V : Type} (visit : V -> Z -> list Z -> bool * V) (v : V)
        (f : File) (k : nat) (vs : list (Z * list Z)) (e id : Z)
        (data : list Z) :
  wf f -> slots f k 0 vs e -> out_of_bounds f e = true -> e <= UsedSize f ->
  In id (map fst vs) -> len data <= room_at f id ->
  goes_through visit v
    (with_payload id (padded_to (room_at f id) data) vs) = true ->
  let f' := snd (Update id data f) in
  fst (Update id data f) = Done (id, None)
  /\ ForAll visit v f'
     = (Done (visit_all visit v
                (with_payload id (padded_to (room_at f id) data) vs), []),
        f').
Proof.
  intros W Sl Be He Hin Hlen G. cbv zeta. unfold padded_to in *.
  destruct (slots_id_end f k 0 vs e id W Sl Hin) as [Hid Hend].
  apply in_map_iff in Hin as Hin'. destruct Hin' as ([i doc] & Ei & Hc).
  cbn [fst] in Ei. subst i.
  destruct (slots_member f k 0 vs e id doc Sl Hc) as (B & E & M & Hsz & _).
  pose proof (room_at_nonneg f id) as Hr.
  unfold DOC_HEADER_SIZE in *.
  assert (U : Update id data f
              = (Done (id, None), overwritten f id data (room_at f id))).
  { rewrite Update_present_run; try assumption; try lia.
    - destruct (Z.leb_spec (len data) (room_at f id)); [|lia].
      apply overwrite_run; unfold DOC_HEADER_SIZE; assumption || lia.
    - unfold update_absent. intros [A|[A|[A|A]]]; try congruence; lia. }
  rewrite U. cbn [fst snd]. split; [reflexivity|].
  pose proof (wf_overwritten f id data (room_at f id) W Hid Hlen
                ltac:(unfold DOC_HEADER_SIZE; lia)) as Wo.
  pose proof (slots_overwritten f id data k 0 vs e W Sl ltac:(lia) Hin Hlen)
    as So.
  cbv zeta in So.
  now apply (scan_all visit _ _ _ _ v Wo So).
Qed.

Lemma X15_witness :
  let f' := snd (Update 13 [120] four_docs) in
  fst (Update 13 [120] four_docs) = Done (13, None)
  /\ ForAll collect [] f'
     = (Done (visit_all collect []
                (with_payload 13 (padded_to (room_at four_docs 13) [120])
                   [(0, [97; 32]); (13, [98; 32]); (26, [99; 32]);
                    (39, [100; 32])]), []), f').
Proof.
  apply (X15_scan_after_update_in_place collect [] four_docs 4 _ 52 13 [120]).
  - unfold wf. by_run.
  - slot_valid 0 2 [97; 32]. slot_valid 13 2 [98; 32].
    slot_valid 26 2 [99; 32]. slot_valid 39 2 [100; 32]. slot_end.
  - reflexivity.
  - by_run.
  - cbn. tauto.
  - by_run.
  - reflexivity.
Defined.

(** X16. The scan after an update that moves the document.  Let the used
    part of the store be slots with sound headers from 0 to UsedSize.  Update
    of a document that the scan meets, with data longer than its room, of a
    doubled length of at most DOC_MAX_ROOM, in a buffer that has or can get
    the room, returns the old UsedSize as the new id; ForAll then calls the
    visitor on the other documents as before and, last, on the new data with
    its padding under the new id, and no more on the old id. *)
Theorem X16_scan_after_update_moves
        {V : Type} (visit : V -> Z -> list Z -> bool * V) (v : V)
        (f : File) (k : nat) (vs : list (Z * list Z)) (id : Z)
        (data : list Z) :
  wf f -> slots f k 0 vs (UsedSize f) -> In id (map fst vs) ->
  room_at f id < len data -> 2 * len data <= DOC_MAX_ROOM ->
  roomy f (slot_size data) ->
  goes_through visit v (without id vs ++ [(UsedSize f, padded data)]) = true ->
  let f' := snd (Update id data f) in
  fst (Update id data f) = Done (UsedSize f, None)
  /\ UsedSize f' = UsedSize f + slot_size data
  /\ ForAll visit v f'
     = (Done (visit_all visit v
                (without id vs ++ [(UsedSize f, padded data)]), []), f').
Proof.
  intros W Sl Hin Hroom Hlen Hfit G. cbv zeta.
  destruct (slots_id_end f k 0 vs _ id W Sl Hin) as [Hid Hend].
  apply in_map_iff in Hin as Hin'. destruct Hin' as ([i doc] & Ei & Hc).
  cbn [fst] in Ei. subst i.
  destruct (slots_member f k 0 vs _ id doc Sl Hc) as (B & E & M & Hsz & _).
  pose proof (room_at_nonneg f id) as Hr.
  pose proof (len_nonneg data) as Hd.
  destruct (deleted_fields f id) as (DU & DS & DN & DG).
  pose proof (wf_deleted f id W Hid) as Wd.
  pose proof (slots_deleted f id k 0 vs _ W Sl ltac:(lia) Hin) as Sd.
  rewrite <- DU in Sd.
  assert (Hfit' : roomy (deleted f id) (total_size [data])).
  { cbn [total_size fold_right]. rewrite Z.add_0_r.
    unfold roomy in *. rewrite DU, DS, DG. exact Hfit. }
  assert (Hdocs : Forall (fun d => 0 < len d /\ 2 * len d <= DOC_MAX_ROOM)
                         [data])
    by (repeat constructor; lia).
  destruct (Insert_row [data] (deleted f id) k _ Wd Sd Hdocs Hfit')
    as (W' & HU' & _ & _ & _ & S').
  cbn [map run fold_left exec placed total_size fold_right] in W', HU', S'.
  rewrite DU, Z.add_0_r in HU'. rewrite DU in S'.
  assert (Hg : CheckSizeAndEnsure (deleted f id) (slot_size data) <> None).
  { apply (roomy_now _ _ 0); try assumption; try lia.
    pose proof (slot_size_pos data). unfold DOC_HEADER_SIZE in *. lia. }
  destruct (Insert_step (deleted f id) data Wd Hlen Hg) as (f1 & HI & _).
  assert (U : Update id data f = Insert data (deleted f id)).
  { rewrite Update_present_run; try assumption; try lia.
    - destruct (Z.leb_spec (len data) (room_at f id)); [lia|].
      unfold bind. now rewrite Delete_run.
    - unfold update_absent, DOC_HEADER_SIZE in *.
      intros [A|[A|[A|A]]]; try congruence; lia. }
  rewrite U. rewrite HI in *. cbn [fst snd] in *. rewrite DU.
  split; [reflexivity|]. split; [assumption|].
  apply (scan_all visit _ _ _ _ v W' S'); [|assumption].
  now apply out_of_bounds_end.
Qed.

Lemma X16_witness :
  let f' := snd (Update 13 doc_bcd four_docs) in
  fst (Update 13 doc_bcd four_docs) = Done (UsedSize four_docs, None)
  /\ UsedSize f' = UsedSize four_docs + slot_size doc_bcd
  /\ ForAll collect [] f'
     = (Done (visit_all collect []
                (without 13 [(0, [97; 32]); (13, [98; 32]); (26, [99; 32]);
                             (39, [100; 32])]
                 ++ [(UsedSize four_docs, padded doc_bcd)]), []), f').
Proof.
  apply (X16_scan_after_update_moves collect [] four_docs 4 _ 13 doc_bcd).
  - unfold wf. by_run.
  - slot_valid 0 2 [97; 32]. slot_valid 13 2 [98; 32].
    slot_valid 26 2 [99; 32]. slot_valid 39 2 [100; 32]. slot_end.
  - cbn. tauto.
  - by_run.
  - by_run.
  - right. by_run.
  - reflexivity.
Defined.

(** X17. Read and the scan agree.  What ForAll calls the visitor with, in a
    store of slots with sound headers, is what Read returns for the id: the
    payload is as long as the room of the slot, and Read of the id returns
    this payload, but for a slot that ends exactly at Size, for which Read
    returns nil. *)
Theorem X17_read_agrees_with_scan
        (f : File) (k : nat) (vs : list (Z * list Z)) (e id : Z)
        (doc : list Z) :
  wf f -> slots f k 0 vs e -> In (id, doc) vs ->
  len doc = room_at f id
  /\ (id + DOC_HEADER_SIZE + len doc < Size f ->
      Read id f = (Done (Some doc), f))
  /\ (id + DOC_HEADER_SIZE + len doc = Size f ->
      Read id f = (Done None, f))
  /\ id + DOC_HEADER_SIZE + len doc <= Size f.
Proof.
  intros W Sl Hin. pose proof W as (HL & HU & HS).
  destruct (slots_member f k 0 vs e id doc Sl Hin) as (B & E & M & Hsz & P).
  assert (Hid : 0 <= id).
  { apply (slots_id_end f k 0 vs e id W Sl).
    apply in_map_iff. now exists (id, doc). }
  pose proof (room_at_nonneg f id) as Hr.
  assert (L : len doc = room_at f id).
  { rewrite <- P. unfold payload, len, DOC_HEADER_SIZE in *.
    rewrite length_sub by (unfold len; lia). lia. }
  rewrite L. split; [reflexivity|].
  rewrite Read_run by assumption. unfold read_result.
  rewrite B, E, P. cbn [negb Z.eqb DOC_VALID Pos.eqb].
  destruct (Z.gtb_spec (room_at f id) DOC_MAX_ROOM); [lia|].
  split; [|split; [|assumption]]; intros Hend;
    destruct (Z.geb_spec (id + DOC_HEADER_SIZE + room_at f id) (Size f));
    reflexivity || lia.
Qed.

Lemma X17_witness :
  len [99; 32] = room_at four_docs 26
  /\ (26 + DOC_HEADER_SIZE + len [99; 32] < Size four_docs ->
      Read 26 four_docs = (Done (Some [99; 32]), four_docs))
  /\ (26 + DOC_HEADER_SIZE + len [99; 32] = Size four_docs ->
      Read 26 four_docs = (Done None, four_docs))
  /\ 26 + DOC_HEADER_SIZE + len [99; 32] <= Size four_docs.
Proof.
  apply (X17_read_agrees_with_scan four_docs 4
           [(0, [97; 32]); (13, [98; 32]); (26, [99; 32]); (39, [100; 32])]
           52 26 [99; 32]).
  - unfold wf. by_run.
  - slot_valid 0 2 [97; 32]. slot_valid 13 2 [98; 32].
    slot_valid 26 2 [99; 32]. slot_valid 39 2 [100; 32]. slot_end.
  - cbn. tauto.
Defined.

(** X18. The store stays well formed.  After every run of Insert, Update and
    Delete on a well-formed store, whatever the operations return and
    whether or not one of them panics, the buffer is as long as Size says,
    UsedSize lies between 0 and Size, and Size is the length of a Go
    slice. *)
Theorem X18_store_stays_well_formed (ops : list op) (f : File) :
  wf f -> Forall op_ok ops ->
  let f' := run ops f in
  len (Buf f') = Size f' /\ 0 <= UsedSize f' <= Size f' /\ Size f' < 2 ^ 63.
Proof.
  intros W Hops. cbv zeta. exact (wf_run ops f W Hops).
Qed.

Lemma X18_witness :
  let f' := run [OpUpdate 0 doc_bcd; OpDelete 13; OpInsert doc_a;
                 OpUpdate 0 doc_a; OpInsert big_doc] store_a in
  len (Buf f') = Size f' /\ 0 <= UsedSize f' <= Size f' /\ Size f' < 2 ^ 63.
Proof.
  apply (X18_store_stays_well_formed
           [OpUpdate 0 doc_bcd; OpDelete 13; OpInsert doc_a;
            OpUpdate 0 doc_a; OpInsert big_doc] store_a).
  - unfold wf. by_run.
  - repeat constructor; vm_compute; reflexivity.
Defined.

(** X19. Update after Delete.  Whatever the id, once Delete has been called
    with it, Update of the same id with data of at most DOC_MAX_ROOM bytes
    reports that the document does not exist, and leaves the store as Delete
    left it. *)
Theorem X19_update_after_delete (f : File) (id : Z) (data : list Z) :
  wf f -> 0 <= id -> len data <= DOC_MAX_ROOM ->
  let f1 := snd (Delete id f) in
  Update id data f1 = (Done (0, Some (ErrNotExist id (Name f))), f1).
Proof.
  intros W Hid Hlen. cbv zeta.
  rewrite (Delete_run f id W Hid). cbn [snd].
  destruct (deleted_fields f id) as (_ & _ & DN & _). rewrite <- DN.
  apply Update_absent_run; try assumption; [now apply wf_deleted|].
  unfold update_absent. rewrite out_of_bounds_deleted.
  destruct (out_of_bounds f id) eqn:B; [now left|].
  right. left. now apply byte_at_deleted.
Qed.

Lemma X19_witness :
  let f1 := snd (Delete 13 four_docs) in
  Update 13 doc_a f1
  = (Done (0, Some (ErrNotExist 13 (Name four_docs))), f1).
Proof.
  apply (X19_update_after_delete four_docs 13 doc_a);
    [unfold wf; by_run | lia | by_run].
Defined.

(** X20. A corrupted header at the end.  When the scan, after slots with
    sound headers, comes to a header that fails the soundness check and no
    byte behind it up to the boundary of the scan is VALID or INVALID, ForAll
    logs the corruption and the boundary as the place it skipped to, and
    returns: the documents before the header have been visited, and the scan
    neither panics nor runs on. *)
Theorem X20_scan_corrupted_tail
        {V : Type} (visit : V -> Z -> list Z -> bool * V) (v : V)
        (f : File) (k : nat) (vs : list (Z * list Z)) (c : Z) :
  wf f -> slots f k 0 vs c -> goes_through visit v vs = true ->
  out_of_bounds f c = false -> unsound f c ->
  (forall i, c < i < UsedSize f - DOC_HEADER_SIZE -> ~ flag (byte_at f i)) ->
  ForAll visit v f
  = (Done (visit_all visit v vs,
           [LogCorrupted c (Name f);
            LogSkipped (UsedSize f - DOC_HEADER_SIZE)]), f).
Proof.
  intros W Sl G Bc Un Hmin. pose proof W as (HL & HU & HS).
  destruct (slots_span f k 0 vs c Sl W) as [Sp _].
  apply (out_of_bounds_false f c W) in Bc as Bc'.
  unfold ForAll.
  replace (S (Z.to_nat (UsedSize f)))
    with (k + S (S (Z.to_nat (UsedSize f) - k - 1)))%nat
    by (unfold DOC_HEADER_SIZE in *; lia).
  rewrite (scan_slots_while visit f k 0 vs c W Sl) by (assumption || lia).
  apply scan_corrupted_tail; try assumption.
  unfold DOC_HEADER_SIZE in *. lia.
Qed.

Lemma X20_witness :
  ForAll collect [] torn
  = (Done (visit_all collect []
             [(0, [97; 32]); (13, [98; 32]); (26, [99; 32])],
           [LogCorrupted 39 (Name torn);
            LogSkipped (UsedSize torn - DOC_HEADER_SIZE)]), torn).
Proof.
  apply (X20_scan_corrupted_tail collect [] torn 3 _ 39).
  - unfold wf. by_run.
  - slot_valid 0 2 [97; 32]. slot_valid 13 2 [98; 32].
    slot_valid 26 2 [99; 32]. slot_end.
  - reflexivity.
  - reflexivity.
  - left. by_run.
  - intros i Hi.
    assert (Hu : UsedSize torn - DOC_HEADER_SIZE = 41) by reflexivity.
    rewrite Hu in Hi. assert (E : i = 40) by lia. subst i.
    unfold flag. by_run.
Defined.

(** X21. What the scan reports, whatever the store holds.  When ForAll
    returns, in a well-formed store that may be damaged in any way, the store
    is as it was, and the visitor has been called, in this order, with ids
    and payloads of slots that pass the bounds check, have the validity byte
    DOC_VALID and a room of at most DOC_MAX_ROOM, each payload being the bytes
    of the room behind the header; these slots lie one behind the other, so no
    id is met twice and no deleted document is met.  Every log entry for a
    corrupted document names a header that fails the soundness check, and
    every entry for a skip names a byte that is VALID or INVALID, or the
    boundary of the scan. *)
Theorem X21_scan_reports_valid_slots
        {V : Type} (visit : V -> Z -> list Z -> bool * V) (v r : V)
        (f f' : File) (log : list log_entry) :
  wf f -> ForAll visit v f = (Done (r, log), f') ->
  f' = f
  /\ exists vs,
      r = visit_all visit v vs
      /\ Forall (live_at f) vs /\ apart 0 vs
      /\ Forall (logged_at f) log.
Proof.
  intros W R. unfold ForAll in R.
  destruct (scan_reports visit f W _ 0 v [] r log f' ltac:(lia) R)
    as (Ef & vs & more & Er & El & Lv & Ap & Lg).
  split; [assumption|]. exists vs. cbn [app] in El. subst more.
  auto.
Qed.

Lemma X21_witness :
  damaged = damaged
  /\ exists vs,
      [(0, [97; 32]); (39, [100; 32])] = visit_all collect [] vs
      /\ Forall (live_at damaged) vs /\ apart 0 vs
      /\ Forall (logged_at damaged)
                [LogCorrupted 13 (Name damaged); LogSkipped 14;
                 LogCorrupted 38 (Name damaged); LogSkipped 39].
Proof.
  apply (X21_scan_reports_valid_slots collect []
           [(0, [97; 32]); (39, [100; 32])] damaged damaged).
  - unfold wf. by_run.
  - reflexivity.
Defined.

(** X22. What Read returns.  On a well-formed store Read never panics and
    leaves the store as it is.  It returns bytes exactly when the id passes
    the bounds check, the validity byte is DOC_VALID, the room is at most
    DOC_MAX_ROOM and the payload ends strictly before Size; what it returns
    then is the whole payload of the slot, as many bytes as the room says,
    padding included; in every other case it returns nil. *)
Theorem X22_read_contract (f : File) (id : Z) :
  wf f -> 0 <= id ->
  ((exists doc, Read id f = (Done (Some doc), f))
   <-> (out_of_bounds f id = false /\ byte_at f id = DOC_VALID
        /\ room_at f id <= DOC_MAX_ROOM
        /\ id + DOC_HEADER_SIZE + room_at f id < Size f))
  /\ (forall doc,
         Read id f = (Done (Some doc), f) ->
         doc = payload f id (room_at f id) /\ len doc = room_at f id)
  /\ (Read id f = (Done None, f)
      \/ exists doc, Read id f = (Done (Some doc), f)).
Proof.
  intros W Hid. pose proof W as (HL & HU & HS).
  split; [now apply Read_contract|].
  rewrite Read_run by assumption. split.
  - intros doc R.
    assert (C : exists d, Read id f = (Done (Some d), f))
      by (exists doc; now rewrite Read_run).
    apply (Read_contract f id W Hid) in C.
    destruct C as (B & E & M & Hend).
    apply (out_of_bounds_false f id W) in B as B'.
    pose proof (room_at_nonneg f id) as Hr.
    unfold read_result in R. rewrite B, E in R.
    cbn [negb Z.eqb DOC_VALID Pos.eqb] in R.
    destruct (Z.gtb_spec (room_at f id) DOC_MAX_ROOM); [lia|].
    destruct (Z.geb_spec (id + DOC_HEADER_SIZE + room_at f id) (Size f));
      [lia|].
    injection R as <-. split; [reflexivity|].
    unfold payload, len, DOC_HEADER_SIZE in *.
    rewrite length_sub by (unfold len; lia). lia.
  - destruct (read_result f id) as [doc|]; [right; now exists doc | now left].
Qed.

Lemma X22_witness :
  ((exists doc, Read 26 four_docs = (Done (Some doc), four_docs))
   <-> (out_of_bounds four_docs 26 = false
        /\ byte_at four_docs 26 = DOC_VALID
        /\ room_at four_docs 26 <= DOC_MAX_ROOM
        /\ 26 + DOC_HEADER_SIZE + room_at four_docs 26 < Size four_docs))
  /\ (forall doc,
         Read 26 four_docs = (Done (Some doc), four_docs) ->
         doc = payload four_docs 26 (room_at four_docs 26)
         /\ len doc = room_at four_docs 26)
  /\ (Read 26 four_docs = (Done None, four_docs)
      \/ exists doc, Read 26 four_docs = (Done (Some doc), four_docs)).
Proof.
  apply (X22_read_contract four_docs 26); [unfold wf; by_run | lia].
Defined.
